(** * SensorFusion: polar occupancy grid from a lidar frame

    Shallow embedding of [sensor_processing_lib/sensor_fusion.cpp]
    (constructor, [process], [fromVeloCoordsToPolarCell],
    [fromPolarCellToVeloCoords]) and the properties of its specification.

    Numeric model.  In the binning, the index functions, the sweep and
    the partition a C++ [float]/[double] is an exact real number ([R]):
    rounding, infinities and NaN are not represented there, and the
    properties that divide by a plane coefficient take it different from
    zero.  The loop variables of the raster walk, which accumulate
    decrements of the cell size, have a format of their own
    ([WalkArith]): the exact reals, or binary32 as [SpecFloat] computes
    it, with [float] or with [double] fields.  The column of elevated
    voxels accumulates the cell size exactly; only bounds are stated of
    its voxels.  A C++ [int] is an unbounded [Z]; the conversion
    float -> int truncates toward zero, and the properties of the raster
    of the constructor take its size within the range of an [int].  The
    parameters of a node are any [Parameters] record; [make_params]
    derives them from a configuration in exact arithmetic.
    [std::vector] is a list; an unchecked [operator[]] outside the vector,
    a read of a field that was never assigned, and a loop that exhausts its
    fuel are faults of the model. *)

From Stdlib Require Import Reals Lra Lia ZArith Zfloor SpecFloat.
From stdpp Require Import base decidable option list.

Local Open Scope R_scope.

(** ** Decidable comparisons on reals (the C++ relational operators) *)

#[global] Instance Rlt_decision (x y : R) : Decision (x < y) := Rlt_dec x y.
#[global] Instance Rgt_decision (x y : R) : Decision (x > y) := Rgt_dec x y.
#[global] Instance Req_decision : EqDecision R := Req_dec_T.

(** ** Faults and the result monad *)

Inductive Fault : Type :=
| OutOfRange   (* operator[] outside the vector *)
| Unset        (* read of a field that holds no value yet *)
| OutOfFuel.   (* a loop ran past the iteration budget *)

Inductive Res (A : Type) : Type :=
| Ok (a : A)
| Fail (f : Fault).
Arguments Ok {A} a.
Arguments Fail {A} f.

#[global] Instance Res_ret : MRet Res := fun A a => Ok a.
#[global] Instance Res_bind : MBind Res := fun A B k m =>
  match m with Ok a => k a | Fail f => Fail f end.

(** [v[i]] and [v[i] = x] on a vector, with an [int] index. *)
Definition vec_get {A} (v : list A) (i : Z) : Res A :=
  if decide (0 <= i)%Z then
    match v !! Z.to_nat i with Some a => Ok a | None => Fail OutOfRange end
  else Fail OutOfRange.

Definition vec_set {A} (v : list A) (i : Z) (a : A) : Res (list A) :=
  if decide (0 <= i < Z.of_nat (length v))%Z then Ok (<[Z.to_nat i := a]> v)
  else Fail OutOfRange.

(** Reading a field that may not have been assigned. *)
Definition read {A} (o : option A) : Res A :=
  match o with Some a => Ok a | None => Fail Unset end.

(** [for (int i = lo; i < hi; ++i) body], threading the loop state. *)
Fixpoint for_loop {St} (n : nat) (i : Z) (body : Z -> St -> Res St) (s : St)
  : Res St :=
  match n with
  | O => Ok s
  | S n' => s' ← body i s; for_loop n' (i + 1)%Z body s'
  end.

Definition for_range {St} (lo hi : Z) (body : Z -> St -> Res St) (s : St)
  : Res St :=
  for_loop (Z.to_nat (hi - lo)) lo body s.

(** Two results that agree: both values, related by [Rel], or the same
    fault. *)
Definition res_rel {A B} (Rel : A -> B -> Prop) (r1 : Res A) (r2 : Res B)
  : Prop :=
  match r1, r2 with
  | Ok a, Ok b => Rel a b
  | Fail f, Fail g => f = g
  | _, _ => False
  end.

(** ** Library functions of <cmath> *)

(** [int(x)]: conversion of a floating value to [int]. *)
Definition trunc (x : R) : Z :=
  if decide (x < 0) then Zceil x else Zfloor x.

(** [std::atan2(y, x)]: the angle of the vector (x, y), in (-PI, PI]. *)
Definition atan2 (y x : R) : R :=
  if decide (0 < x) then atan (y / x)
  else if decide (x < 0) then
    if decide (y < 0) then atan (y / x) - PI else atan (y / x) + PI
  else if decide (0 < y) then PI / 2
  else if decide (y < 0) then - (PI / 2)
  else 0.

(** ** Binary floating point

    The formats of [float] and [double] (IEEE 754 binary32 and binary64)
    as [SpecFloat] computes them: [SFsub 24 128], [SFdiv 24 128] round to
    nearest even in binary32, [SFsub 53 1024], [SFdiv 53 1024] in
    binary64. *)

(** The real number a finite floating point number stands for (0 for the
    others). *)
Definition SF2R (f : spec_float) : R :=
  match f with
  | S754_finite s m e =>
      if decide (0 <= e)%Z
      then IZR (cond_Zopp s (Z.pos m) * 2 ^ e)
      else IZR (cond_Zopp s (Z.pos m)) / IZR (2 ^ (- e))
  | _ => 0
  end.

(** [int(f)] on a floating point number: truncation toward zero. *)
Definition SFtrunc (f : spec_float) : Z :=
  match f with
  | S754_finite s m e =>
      if decide (0 <= e)%Z
      then (cond_Zopp s (Z.pos m) * 2 ^ e)%Z
      else Z.quot (cond_Zopp s (Z.pos m)) (2 ^ (- e))
  | _ => 0%Z
  end.

(** The conversion of a [double] to [float]. *)
Definition to_f32 (f : spec_float) : spec_float :=
  match f with
  | S754_finite s m e => binary_normalize 24 128 (cond_Zopp s (Z.pos m)) e s
  | _ => f
  end.

(** ** Data *)

Record VPoint : Type := mkVPoint { px : R; py : R; pz : R }.

Module PolarCell.
(** Modelled from the spec: the [PolarCell] declaration is in the header,
    which is not among the sources.  The label is undefined ([NOT_SET])
    until the sweep runs; [FREE], [UNKNOWN], [OCCUPIED] are the names the
    code uses. *)
Inductive Indexes : Type := NOT_SET | FREE | UNKNOWN | OCCUPIED.

#[global] Instance Indexes_eq_dec : EqDecision Indexes.
Proof. solve_decision. Defined.

(** Modelled from the spec: the fields of a cell.  Apart from [count]
    and the label a field holds a value only once it has been assigned
    ([height] is defined only when [count > 0]). *)
Record t : Type := mk
  { count : Z;
    x_min : option R;
    y_min : option R;
    z_min : option R;
    z_max : option R;
    ground : option R;
    height : option R;
    idx : Indexes }.

(** Modelled from the spec: a freshly constructed cell has no point
    ([count = 0]) and none of its other fields holds a value. *)
Definition fresh : t :=
  mk 0 None None None None None None NOT_SET.

Definition set_count (c : t) (n : Z) : t :=
  mk n (x_min c) (y_min c) (z_min c) (z_max c) (ground c) (height c) (idx c).
Definition set_min (c : t) (x y z : R) : t :=
  mk (count c) (Some x) (Some y) (Some z) (z_max c) (ground c) (height c)
     (idx c).
Definition set_z_max (c : t) (z : R) : t :=
  mk (count c) (x_min c) (y_min c) (z_min c) (Some z) (ground c) (height c)
     (idx c).
Definition set_ground (c : t) (g : R) : t :=
  mk (count c) (x_min c) (y_min c) (z_min c) (z_max c) (Some g) (height c)
     (idx c).
Definition set_height (c : t) (h : R) : t :=
  mk (count c) (x_min c) (y_min c) (z_min c) (z_max c) (ground c) (Some h)
     (idx c).
Definition set_idx (c : t) (l : Indexes) : t :=
  mk (count c) (x_min c) (y_min c) (z_min c) (z_max c) (ground c) (height c)
     l.
End PolarCell.
Import PolarCell(NOT_SET, FREE, UNKNOWN, OCCUPIED).

Abbreviation Grid := (list (list PolarCell.t)).

(** [polar_grid_[seg][bin]] read and write-back. *)
Definition grid_get (g : Grid) (seg bin : Z) : Res PolarCell.t :=
  row ← vec_get g seg; vec_get row bin.

Definition grid_set (g : Grid) (seg bin : Z) (c : PolarCell.t) : Res Grid :=
  row ← vec_get g seg; row' ← vec_set row bin c; vec_set g seg row'.

(** The values read from the parameter server (each has a default). *)
Record Config : Type := mkConfig
  { cfg_lidar_height : R;
    cfg_lidar_min_height : R;
    cfg_grid_min_range : R;
    cfg_grid_max_range : R;
    cfg_grid_cell_size : R;
    cfg_grid_min_height : R;
    cfg_grid_segments : Z;
    cfg_ransac_tolerance : R;
    cfg_ransac_iterations : Z }.

(** Modelled from the spec: the struct of [params_] is declared in the
    header, which is not among the sources.  The number of segments and the
    derived sizes (floors in the specification) are [int]s, the iteration
    cap too; the other fields are floating. *)
Record Parameters : Type := mkParameters
  { lidar_height : R;
    lidar_min_height : R;
    lidar_opening_angle : R;
    grid_min_range : R;
    grid_max_range : R;
    grid_cell_size : R;
    grid_min_height : R;
    grid_segments : Z;
    grid_height : Z;
    grid_width : Z;
    grid_bins : Z;
    ransac_tolerance : R;
    ransac_iterations : Z;
    inv_angular_res : R;
    inv_radial_res : R }.

(** Constructor, lines 27-58: parameters and derived quantities. *)
Definition make_params (c : Config) : Parameters :=
  let height := trunc (cfg_grid_max_range c / cfg_grid_cell_size c) in
  {| lidar_height := cfg_lidar_height c;
     lidar_min_height := cfg_lidar_min_height c;
     lidar_opening_angle := PI / 4;
     grid_min_range := cfg_grid_min_range c;
     grid_max_range := cfg_grid_max_range c;
     grid_cell_size := cfg_grid_cell_size c;
     grid_min_height := cfg_grid_min_height c;
     grid_segments := cfg_grid_segments c;
     grid_height := height;
     grid_width := (height * 2)%Z;
     grid_bins :=
       trunc (cfg_grid_max_range c * sqrt 2 / cfg_grid_cell_size c + 1);
     ransac_tolerance := cfg_ransac_tolerance c;
     ransac_iterations := cfg_ransac_iterations c;
     inv_angular_res := IZR (2 * cfg_grid_segments c) / PI;
     inv_radial_res := 1 / cfg_grid_cell_size c |}.

(** ** Grid geometry *)

Definition fromVeloCoordsToPolarCell (p : Parameters) (x y : R) : Z * Z :=
  let mag := sqrt (x * x + y * y) in
  let ang := - atan2 y x in
  let seg := trunc ((ang + lidar_opening_angle p) * inv_angular_res p) in
  let bin := trunc (mag * inv_radial_res p) in
  (* For last segment *)
  let seg := if decide (x = - y) then (grid_segments p - 1)%Z else seg in
  (seg, bin).

Definition fromPolarCellToVeloCoords (p : Parameters) (seg bin : Z) : R * R :=
  let mag := IZR bin / inv_radial_res p in
  let ang := IZR seg / inv_angular_res p - lidar_opening_angle p in
  let y := - sin ang * mag in
  let x := cos ang * mag in
  (x, y).

(** ** The node *)

(** [nav_msgs::OccupancyGrid]: the raster; [data] is row-major,
    [info.width] cells per row. *)
Record OccupancyGrid : Type := mkOccupancyGrid
  { data : list Z;
    info_width : Z;
    info_height : Z }.

Record SensorFusion : Type := mkSensorFusion
  { params_ : Parameters;
    polar_grid_ : Grid;
    occ_grid_ : OccupancyGrid;
    pcl_in_ : list VPoint;
    pcl_ground_plane_ : list VPoint;
    pcl_ground_ : list VPoint;
    pcl_elevated_ : list VPoint;
    pcl_voxel_ground_ : list VPoint;
    pcl_voxel_elevated_ : list VPoint;
    time_frame_ : Z }.

(** [std::vector< std::vector<PolarCell> >(grid_segments,
    std::vector<PolarCell>(grid_bins))] *)
Definition new_polar_grid (p : Parameters) : Grid :=
  replicate (Z.to_nat (grid_segments p))
            (replicate (Z.to_nat (grid_bins p)) PolarCell.fresh).

(** Constructor, lines 90-99: the cells the opening angle never reaches. *)
Definition init_occ_row (p : Parameters) (j : Z) (d : list Z)
  : Res (list Z) :=
  for_range 0 (grid_width p)
    (fun i d =>
       if decide (i < j \/ i >= grid_width p - j)%Z
       then vec_set d (j * grid_width p + i)%Z (-1)%Z
       else Ok d)
    d.

Definition init_occ_data (p : Parameters) (d : list Z) : Res (list Z) :=
  for_range 0 (grid_height p) (init_occ_row p) d.

(** The constructor.  [data.resize(n)] value-initialises the raster to 0. *)
Definition SensorFusion_new (c : Config) : Res SensorFusion :=
  let p := make_params c in
  let grid := new_polar_grid p in
  d ← init_occ_data p
        (replicate (Z.to_nat (grid_width p * grid_height p)) 0%Z);
  Ok {| params_ := p;
        polar_grid_ := grid;
        occ_grid_ :=
          {| data := d;
             info_width := grid_width p;
             info_height := grid_height p |};
        pcl_in_ := [];
        pcl_ground_plane_ := [];
        pcl_ground_ := [];
        pcl_elevated_ := [];
        pcl_voxel_ground_ := [];
        pcl_voxel_elevated_ := [];
        time_frame_ := 0 |}.

(** *** 1. Filter the cloud and fill the polar grid (lines 145-208) *)

(** Lines 179-198: count the point and update the cell's extremes. *)
Definition update_cell (cell : PolarCell.t) (point : VPoint)
  : Res PolarCell.t :=
  let cell := PolarCell.set_count cell (PolarCell.count cell + 1) in
  if decide (PolarCell.count cell = 1%Z) then
    Ok (PolarCell.set_z_max
          (PolarCell.set_min cell (px point) (py point) (pz point))
          (pz point))
  else
    zmin ← read (PolarCell.z_min cell);
    let cell :=
      if decide (pz point < zmin)
      then PolarCell.set_min cell (px point) (py point) (pz point)
      else cell in
    zmax ← read (PolarCell.z_max cell);
    let cell :=
      if decide (pz point > zmax)
      then PolarCell.set_z_max cell (pz point)
      else cell in
    Ok cell.

(** Body of the loop over the input cloud, for the point of index [i]. *)
Definition bin_point (p : Parameters) (i : nat) (point : VPoint)
    (st : list nat * Grid) : Res (list nat * Grid) :=
  let '(inliers, grid) := st in
  let angle := Rabs (atan2 (py point) (px point)) in
  if decide (angle < lidar_opening_angle p) then
    let range := sqrt (px point * px point + py point * py point) in
    if bool_decide (range > grid_min_range p)
       && bool_decide (range < grid_max_range p) then
      if decide (pz point > lidar_min_height p) then
        let inliers := inliers ++ [i] in
        let '(seg, bin) :=
          fromVeloCoordsToPolarCell p (px point) (py point) in
        cell ← grid_get grid seg bin;
        cell ← update_cell cell point;
        grid ← grid_set grid seg bin cell;
        Ok (inliers, grid)
      else Ok st
    else Ok st
  else Ok st.

Fixpoint bin_points (p : Parameters) (i : nat) (cloud : list VPoint)
    (st : list nat * Grid) : Res (list nat * Grid) :=
  match cloud with
  | [] => Ok st
  | point :: rest => st ← bin_point p i point st; bin_points p (S i) rest st
  end.

(** [pcl::ExtractIndices] with [setNegative(false)]: the points at the
    given indices, in the order of the indices. *)
Definition extract_indices (cloud : list VPoint) (indices : list nat)
  : list VPoint :=
  omap (fun i => cloud !! i) indices.

(** *** 2. Ground plane estimation (lines 218-260) *)

(** Lines 222-237: one candidate per flat cell. *)
Definition ground_plane_cell (p : Parameters) (grid : Grid) (i j : Z)
    (acc : list VPoint) : Res (list VPoint) :=
  cell ← grid_get grid i j;
  if decide (PolarCell.count cell > 0)%Z then
    zmax ← read (PolarCell.z_max cell);
    zmin ← read (PolarCell.z_min cell);
    if decide (zmax - zmin < grid_min_height p) then
      x ← read (PolarCell.x_min cell);
      y ← read (PolarCell.y_min cell);
      Ok (acc ++ [mkVPoint x y zmin])
    else Ok acc
  else Ok acc.

Definition ground_plane_candidates (p : Parameters) (grid : Grid)
  : Res (list VPoint) :=
  for_range 0 (grid_segments p)
    (fun i acc => for_range 0 (grid_bins p) (ground_plane_cell p grid i) acc)
    [].

(** [pcl::SACSegmentation::segment], configured with the distance
    threshold and the iteration cap: from the candidate cloud to
    [inliers->indices] and [coefficients->values].  The fit is external
    and randomised; every frame comes with its own outcome function. *)
Definition Segmentation : Type :=
  R -> Z -> list VPoint -> list Z * list R.

(** Lines 253-260: centre ground height and the sanity check; the flag
    tells whether the warning was emitted. *)
Definition ground_height_check (inliers : list Z) (values : list R)
  : Res (R * bool) :=
  v3 ← vec_get values 3;
  v2 ← vec_get values 2;
  let ground_height := - v3 / v2 in
  Ok (ground_height,
      bool_decide (inliers = [])
      || bool_decide (ground_height < -2)
      || bool_decide (ground_height > -1.5)).

(** *** 3. Free, occupied or unknown (lines 280-340) *)

(** Body of the loop over the bins of segment [s]; [hit] is threaded with
    the grid.  [values] is [coefficients->values]. *)
Definition sweep_bin (p : Parameters) (values : list R) (s b : Z)
    (st : bool * Grid) : Res (bool * Grid) :=
  let '(hit, grid) := st in
  cell ← grid_get grid s b;
  let '(x, y) := fromPolarCellToVeloCoords p s b in
  (* Get ground height *)
  v0 ← vec_get values 0;
  v1 ← vec_get values 1;
  v3 ← vec_get values 3;
  v2 ← vec_get values 2;
  let cell := PolarCell.set_ground cell ((- v0 * x - v1 * y - v3) / v2) in
  if decide (PolarCell.count cell = 0%Z) then
    let cell :=
      PolarCell.set_idx cell (if hit then UNKNOWN else FREE) in
    grid ← grid_set grid s b cell;
    Ok (hit, grid)
  else
    zmax ← read (PolarCell.z_max cell);
    g ← read (PolarCell.ground cell);
    let cell := PolarCell.set_height cell (zmax - g) in
    h ← read (PolarCell.height cell);
    if decide (h > grid_min_height p) then
      let cell := PolarCell.set_idx cell OCCUPIED in
      grid ← grid_set grid s b cell;
      Ok (true, grid)
    else
      let cell :=
        PolarCell.set_idx cell (if hit then UNKNOWN else FREE) in
      grid ← grid_set grid s b cell;
      Ok (hit, grid).

Definition sweep_segment (p : Parameters) (values : list R) (s : Z)
    (grid : Grid) : Res Grid :=
  st ← for_range 0 (grid_bins p) (sweep_bin p values s) (false, grid);
  Ok st.2.

Definition sweep (p : Parameters) (values : list R) (grid : Grid)
  : Res Grid :=
  for_range 0 (grid_segments p) (sweep_segment p values) grid.

(** *** Elevated and ground points (lines 343-366) *)

(** The test of line 360, with the short circuit of [&&]. *)
Definition is_elevated (p : Parameters) (cell : PolarCell.t)
    (point : VPoint) : Res bool :=
  g ← read (PolarCell.ground cell);
  if decide (pz point > g) then
    h ← read (PolarCell.height cell);
    Ok (bool_decide (h > grid_min_height p))
  else Ok false.

Definition divide_point (p : Parameters) (grid : Grid) (point : VPoint)
    (st : list VPoint * list VPoint) : Res (list VPoint * list VPoint) :=
  let '(ground, elevated) := st in
  let '(seg, bin) := fromVeloCoordsToPolarCell p (px point) (py point) in
  cell ← grid_get grid seg bin;
  e ← is_elevated p cell point;
  if (e : bool) then Ok (ground, elevated ++ [point])
  else Ok (ground ++ [point], elevated).

Fixpoint divide_points (p : Parameters) (grid : Grid) (cloud : list VPoint)
    (st : list VPoint * list VPoint) : Res (list VPoint * list VPoint) :=
  match cloud with
  | [] => Ok st
  | point :: rest =>
      st ← divide_point p grid point st; divide_points p grid rest st
  end.

(** *** 4. Polar grid to cartesian occupancy grid (lines 382-427) *)

(** The column of elevated voxels, lines 420-424:
    [for(float v = cell.ground; v < cell.z_max; v += grid_cell_size)]. *)
Fixpoint voxel_column (fuel : nat) (p : Parameters) (x y zmax v : R)
    (acc : list VPoint) : Res (list VPoint) :=
  if decide (v < zmax) then
    match fuel with
    | O => Fail OutOfFuel
    | S fuel =>
        voxel_column fuel p x y zmax (v + grid_cell_size p)
                     (acc ++ [mkVPoint x y v])
    end
  else Ok acc.

(** What the walk over the raster builds. *)
Record Raster : Type := mkRaster
  { r_data : list Z;
    r_voxel_ground : list VPoint;
    r_voxel_elevated : list VPoint }.

(** Body of the inner loop, at raster cell [(i, j)] of position [(x, y)]. *)
Definition raster_cell (fuel : nat) (p : Parameters) (grid : Grid)
    (x : R) (j i : Z) (st : R * Raster) : Res (R * Raster) :=
  let '(y, r) := st in
  let '(seg, bin) := fromVeloCoordsToPolarCell p x y in
  cell ← grid_get grid seg bin;
  g ← read (PolarCell.ground cell);
  let vg := r_voxel_ground r ++ [mkVPoint x y g] in
  let cell_index := (j * grid_width p + i)%Z in
  r ← (if decide (PolarCell.idx cell = FREE) then
         d ← vec_set (r_data r) cell_index 0%Z;
         Ok (mkRaster d vg (r_voxel_elevated r))
       else if decide (PolarCell.idx cell = UNKNOWN) then
         d ← vec_set (r_data r) cell_index 50%Z;
         Ok (mkRaster d vg (r_voxel_elevated r))
       else
         d ← vec_set (r_data r) cell_index 100%Z;
         zmax ← read (PolarCell.z_max cell);
         ve ← voxel_column fuel p x y zmax g (r_voxel_elevated r);
         Ok (mkRaster d vg ve));
  Ok (y - grid_cell_size p, r).

Definition raster_row (fuel : nat) (p : Parameters) (grid : Grid) (j : Z)
    (st : R * Raster) : Res (R * Raster) :=
  let '(x, r) := st in
  yr ← for_range j (grid_width p - j) (raster_cell fuel p grid x j) (x, r);
  Ok (x - grid_cell_size p, yr.2).

Definition rasterize (fuel : nat) (p : Parameters) (grid : Grid)
    (d : list Z) : Res Raster :=
  let x := grid_max_range p - grid_cell_size p / 2 in
  xr ← for_range 0 (grid_height p) (raster_row fuel p grid)
         (x, mkRaster d [] []);
  Ok xr.2.

(** The same walk with the format of its loop variables made explicit.
    [float x] and [float y] (lines 386-390) are numbers of [walk_num];
    [walk_R] is the real number one stands for, [walk_start] the first [x]
    ([grid_max_range - grid_cell_size / 2]) and [walk_next] the decrement
    ([x -= grid_cell_size], [y -= grid_cell_size]).  What is done at a
    cell is [raster_cell] at the position the variables stand for. *)
Record WalkArith : Type := mkWalkArith
  { walk_num : Type;
    walk_R : walk_num -> R;
    walk_start : walk_num;
    walk_next : walk_num -> walk_num }.

Definition raster_cell_in (a : WalkArith) (fuel : nat) (p : Parameters)
    (grid : Grid) (x : walk_num a) (j i : Z) (st : walk_num a * Raster)
  : Res (walk_num a * Raster) :=
  let '(y, r) := st in
  yr ← raster_cell fuel p grid (walk_R a x) j i (walk_R a y, r);
  Ok (walk_next a y, yr.2).

Definition raster_row_in (a : WalkArith) (fuel : nat) (p : Parameters)
    (grid : Grid) (j : Z) (st : walk_num a * Raster)
  : Res (walk_num a * Raster) :=
  let '(x, r) := st in
  yr ← for_range j (grid_width p - j) (raster_cell_in a fuel p grid x j)
         (x, r);
  Ok (walk_next a x, yr.2).

Definition rasterize_in (a : WalkArith) (fuel : nat) (p : Parameters)
    (grid : Grid) (d : list Z) : Res Raster :=
  xr ← for_range 0 (grid_height p) (raster_row_in a fuel p grid)
         (walk_start a, mkRaster d [] []);
  Ok xr.2.

(** The variables as exact reals: the walk of [rasterize]. *)
Definition walk_exact (p : Parameters) : WalkArith :=
  {| walk_num := R;
     walk_R := fun v => v;
     walk_start := grid_max_range p - grid_cell_size p / 2;
     walk_next := fun v => v - grid_cell_size p |}.

(** The variables in binary32, the range and the cell size being [float]
    fields: every operation is one of binary32. *)
Definition walk_f32 (max_range cell_size : spec_float) : WalkArith :=
  {| walk_num := spec_float;
     walk_R := SF2R;
     walk_start :=
       SFsub 24 128 max_range
             (SFdiv 24 128 cell_size (S754_finite false 8388608 (-22)));
     walk_next := fun v => SFsub 24 128 v cell_size |}.

(** The variables in binary32, the range and the cell size being [double]
    fields: every operation is one of binary64, and its result is
    converted to [float] when it is stored in [x] or [y]. *)
Definition walk_f64 (max_range cell_size : spec_float) : WalkArith :=
  {| walk_num := spec_float;
     walk_R := SF2R;
     walk_start :=
       to_f32 (SFsub 53 1024 max_range
                 (SFdiv 53 1024 cell_size
                        (S754_finite false 4503599627370496 (-51))));
     walk_next := fun v => to_f32 (SFsub 53 1024 v cell_size) |}.

(** *** The callback *)

(** [process]: one frame.  [fuel] bounds the length of a voxel column,
    [segment] is the outcome of the plane fit on this frame.  The result is
    the node after the frame (its clouds and raster are what is published)
    and whether the ground plane warning was emitted. *)
Definition process (fuel : nat) (segment : Segmentation)
    (this : SensorFusion) (cloud : list VPoint) : Res (SensorFusion * bool) :=
  let p := params_ this in
  (* 1. *)
  let grid := new_polar_grid p in
  '(inliers, grid) ← bin_points p 0 cloud ([], grid);
  let pcl_in := extract_indices cloud inliers in
  (* 2. *)
  pcl_ground_plane ← ground_plane_candidates p grid;
  let '(fit_inliers, values) :=
    segment (ransac_tolerance p) (ransac_iterations p) pcl_ground_plane in
  '(_, warned) ← ground_height_check fit_inliers values;
  (* 3. *)
  grid ← sweep p values grid;
  '(pcl_ground, pcl_elevated) ← divide_points p grid pcl_in ([], []);
  (* 4. *)
  r ← rasterize fuel p grid (data (occ_grid_ this));
  Ok ({| params_ := p;
         polar_grid_ := grid;
         occ_grid_ :=
           {| data := r_data r;
              info_width := info_width (occ_grid_ this);
              info_height := info_height (occ_grid_ this) |};
         pcl_in_ := pcl_in;
         pcl_ground_plane_ := pcl_ground_plane;
         pcl_ground_ := pcl_ground;
         pcl_elevated_ := pcl_elevated;
         pcl_voxel_ground_ := r_voxel_ground r;
         pcl_voxel_elevated_ := r_voxel_elevated r;
         time_frame_ := (time_frame_ this + 1)%Z |},
      warned).

(** A frame as the node receives it: the cloud and the outcome of the plane
    fit on it. *)
Record Frame : Type := mkFrame
  { f_cloud : list VPoint;
    f_segment : Segmentation }.

(** Frames processed one after the other, each to completion. *)
Fixpoint run (fuel : nat) (this : SensorFusion) (frames : list Frame)
  : Res SensorFusion :=
  match frames with
  | [] => Ok this
  | f :: rest =>
      r ← process fuel (f_segment f) this (f_cloud f);
      run fuel r.1 rest
  end.

(** [process] and [run] over the walk whose loop variables have the format
    [a]; for the exact reals they are [process] and [run]. *)
Definition process_in (a : WalkArith) (fuel : nat) (segment : Segmentation)
    (this : SensorFusion) (cloud : list VPoint) : Res (SensorFusion * bool) :=
  let p := params_ this in
  (* 1. *)
  let grid := new_polar_grid p in
  '(inliers, grid) ← bin_points p 0 cloud ([], grid);
  let pcl_in := extract_indices cloud inliers in
  (* 2. *)
  pcl_ground_plane ← ground_plane_candidates p grid;
  let '(fit_inliers, values) :=
    segment (ransac_tolerance p) (ransac_iterations p) pcl_ground_plane in
  '(_, warned) ← ground_height_check fit_inliers values;
  (* 3. *)
  grid ← sweep p values grid;
  '(pcl_ground, pcl_elevated) ← divide_points p grid pcl_in ([], []);
  (* 4. *)
  r ← rasterize_in a fuel p grid (data (occ_grid_ this));
  Ok ({| params_ := p;
         polar_grid_ := grid;
         occ_grid_ :=
           {| data := r_data r;
              info_width := info_width (occ_grid_ this);
              info_height := info_height (occ_grid_ this) |};
         pcl_in_ := pcl_in;
         pcl_ground_plane_ := pcl_ground_plane;
         pcl_ground_ := pcl_ground;
         pcl_elevated_ := pcl_elevated;
         pcl_voxel_ground_ := r_voxel_ground r;
         pcl_voxel_elevated_ := r_voxel_elevated r;
         time_frame_ := (time_frame_ this + 1)%Z |},
      warned).

Fixpoint run_in (a : WalkArith) (fuel : nat) (this : SensorFusion)
    (frames : list Frame) : Res SensorFusion :=
  match frames with
  | [] => Ok this
  | f :: rest =>
      r ← process_in a fuel (f_segment f) this (f_cloud f);
      run_in a fuel r.1 rest
  end.

(** The cell index obtained by going through the cell's representative
    point. *)
Definition round_trip (p : Parameters) (seg bin : Z) : Z * Z :=
  let '(x, y) := fromPolarCellToVeloCoords p seg bin in
  fromVeloCoordsToPolarCell p x y.

(** ** Configurations and contracts *)

(** A valid configuration: positive cell size and range, at least one
    segment. *)
Definition valid_config (c : Config) : Prop :=
  0 < cfg_grid_cell_size c /\ 0 < cfg_grid_max_range c /\
  (1 <= cfg_grid_segments c)%Z.

(** The interface of the plane fit: it returns the four coefficients
    [a, b, c, d] of a plane, whatever the inliers; the plane is not
    vertical ([c <> 0]: the ground height divides by [c]). *)
Definition returns_plane (segment : Segmentation) : Prop :=
  forall tol it cloud,
    (4 <= length (segment tol it cloud).2)%nat /\
    nth 2 (segment tol it cloud).2 0 <> 0.

(** ** Notions of the specification *)

(** The binning gate, as the specification words it. *)
Definition passes_gate (p : Parameters) (pt : VPoint) : Prop :=
  Rabs (atan2 (py pt) (px pt)) < lidar_opening_angle p /\
  (grid_min_range p < sqrt (px pt * px pt + py pt * py pt) /\
   sqrt (px pt * px pt + py pt * py pt) < grid_max_range p) /\
  pz pt > lidar_min_height p.

#[global] Instance passes_gate_dec p pt : Decision (passes_gate p pt).
Proof. unfold passes_gate. apply _. Defined.

(** The polar cell a point is routed to. *)
Definition cell_of (p : Parameters) (pt : VPoint) : Z * Z :=
  fromVeloCoordsToPolarCell p (px pt) (py pt).

(** The points of a cloud that pass the gate and are routed to cell
    [(s, b)], in the order of the cloud. *)
Definition routed (p : Parameters) (cloud : list VPoint) (s b : Z)
  : list VPoint :=
  filter (fun pt => cell_of p pt = (s, b)) (filter (passes_gate p) cloud).

(** A grid of [n] segments of [m] bins. *)
Definition grid_dims (g : Grid) (n m : Z) : Prop :=
  length g = Z.to_nat n /\ Forall (fun row => length row = Z.to_nat m) g.

(** The statistics of a cell that received the points [pts]. *)
Definition cell_stats (pts : list VPoint) (cell : PolarCell.t) : Prop :=
  PolarCell.count cell = Z.of_nat (length pts) /\
  PolarCell.ground cell = None /\ PolarCell.height cell = None /\
  PolarCell.idx cell = NOT_SET /\
  (pts <> [] ->
   exists lo zhi,
     lo ∈ pts /\
     PolarCell.x_min cell = Some (px lo) /\
     PolarCell.y_min cell = Some (py lo) /\
     PolarCell.z_min cell = Some (pz lo) /\
     PolarCell.z_max cell = Some zhi /\
     (exists hi, hi ∈ pts /\ pz hi = zhi) /\
     (forall q, q ∈ pts -> pz lo <= pz q <= zhi)).

(** The grid after the cloud has been binned. *)
Definition binned (p : Parameters) (cloud : list VPoint) (g : Grid) : Prop :=
  grid_dims g (grid_segments p) (grid_bins p) /\
  forall s b,
    (0 <= s < grid_segments p)%Z -> (0 <= b < grid_bins p)%Z ->
    exists cell, grid_get g s b = Ok cell /\
                 cell_stats (routed p cloud s b) cell.

(** The indices collected so far select the gated points seen so far. *)
Definition selects (p : Parameters) (pre : list VPoint) (inl : list nat)
  : Prop :=
  Forall (fun i => (i < length pre)%nat) inl /\
  extract_indices pre inl = filter (passes_gate p) pre.

(** The statistics of every cell that holds a point can be read. *)
Definition stats_ready (g : Grid) : Prop :=
  forall s b cell,
    grid_get g s b = Ok cell -> PolarCell.count cell <> 0%Z ->
    is_Some (PolarCell.x_min cell) /\ is_Some (PolarCell.y_min cell) /\
    is_Some (PolarCell.z_min cell) /\ is_Some (PolarCell.z_max cell).

(** The height of the fitted plane at the representative point of a cell. *)
Definition ground_at (p : Parameters) (values : list R) (s b : Z) : R :=
  let '(x, y) := fromPolarCellToVeloCoords p s b in
  (- nth 0 values 0 * x - nth 1 values 0 * y - nth 3 values 0)
  / nth 2 values 0.

(** A cell that holds a point reaching above the obstacle threshold. *)
Definition obstacle (p : Parameters) (values : list R) (s b : Z)
    (cell : PolarCell.t) : Prop :=
  PolarCell.count cell <> 0%Z /\
  exists zmax, PolarCell.z_max cell = Some zmax /\
               zmax - ground_at p values s b > grid_min_height p.

(** Segment [s] of grid [g] has an obstacle at a bin nearer than [b]. *)
Definition hit_before (p : Parameters) (values : list R) (g : Grid)
    (s b : Z) : Prop :=
  exists b' cell, (0 <= b' < b)%Z /\ grid_get g s b' = Ok cell /\
                  obstacle p values s b' cell.

(** What the sweep makes of cell [c0] at [(s, b)] of grid [g]. *)
Definition swept_cell (p : Parameters) (values : list R) (g : Grid)
    (s b : Z) (c0 c1 : PolarCell.t) : Prop :=
  PolarCell.count c1 = PolarCell.count c0 /\
  PolarCell.x_min c1 = PolarCell.x_min c0 /\
  PolarCell.y_min c1 = PolarCell.y_min c0 /\
  PolarCell.z_min c1 = PolarCell.z_min c0 /\
  PolarCell.z_max c1 = PolarCell.z_max c0 /\
  PolarCell.ground c1 = Some (ground_at p values s b) /\
  (PolarCell.count c0 = 0%Z -> PolarCell.height c1 = PolarCell.height c0) /\
  (PolarCell.count c0 <> 0%Z ->
   exists zmax, PolarCell.z_max c0 = Some zmax /\
                PolarCell.height c1 = Some (zmax - ground_at p values s b)) /\
  (obstacle p values s b c0 /\ PolarCell.idx c1 = OCCUPIED \/
   ~ obstacle p values s b c0 /\ hit_before p values g s b /\
   PolarCell.idx c1 = UNKNOWN \/
   ~ obstacle p values s b c0 /\ ~ hit_before p values g s b /\
   PolarCell.idx c1 = FREE).

(** Grid [g1] is grid [g0] after the sweep. *)
Definition swept (p : Parameters) (values : list R) (g0 g1 : Grid) : Prop :=
  grid_dims g1 (grid_segments p) (grid_bins p) /\
  forall s b,
    (0 <= s < grid_segments p)%Z -> (0 <= b < grid_bins p)%Z ->
    exists c0 c1, grid_get g0 s b = Ok c0 /\ grid_get g1 s b = Ok c1 /\
                  swept_cell p values g0 s b c0 c1.

(** The partition test as the specification words it: the point is above
    the ground of its cell and the cell is higher than the threshold. *)
Definition point_elevated (p : Parameters) (g : Grid) (pt : VPoint) : Prop :=
  match grid_get g (cell_of p pt).1 (cell_of p pt).2 with
  | Ok cell =>
      match PolarCell.ground cell, PolarCell.height cell with
      | Some gr, Some h => pz pt > gr /\ h > grid_min_height p
      | _, _ => False
      end
  | Fail _ => False
  end.

#[global] Instance point_elevated_dec p g pt : Decision (point_elevated p g pt).
Proof.
  unfold point_elevated.
  destruct (grid_get g _ _) as [cell |]; [| apply _].
  destruct (PolarCell.ground cell), (PolarCell.height cell); apply _.
Defined.

(** The cell of the point is in the grid, holds a point, and its ground
    and height have been set. *)
Definition cell_ready (p : Parameters) (g : Grid) (pt : VPoint) : Prop :=
  exists cell gr h,
    (0 <= (cell_of p pt).1 < grid_segments p)%Z /\
    (0 <= (cell_of p pt).2 < grid_bins p)%Z /\
    grid_get g (cell_of p pt).1 (cell_of p pt).2 = Ok cell /\
    (1 <= PolarCell.count cell)%Z /\
    PolarCell.ground cell = Some gr /\ PolarCell.height cell = Some h.

(** The position of raster cell [(i, j)]: the values of the loop
    variables [x] and [y] there. *)
Definition raster_x (p : Parameters) (j : Z) : R :=
  grid_max_range p - grid_cell_size p / 2 - IZR j * grid_cell_size p.

Definition raster_y (p : Parameters) (j i : Z) : R :=
  raster_x p j - IZR (i - j) * grid_cell_size p.

(** The polar cell backing raster cell [(i, j)]. *)
Definition backing (p : Parameters) (j i : Z) : Z * Z :=
  fromVeloCoordsToPolarCell p (raster_x p j) (raster_y p j i).

(** The triangular footprint of the field of view in the raster. *)
Definition in_footprint (p : Parameters) (j i : Z) : Prop :=
  (0 <= j < grid_height p)%Z /\ (j <= i < grid_width p - j)%Z.

(** The raster value of a label, as the specification maps them. *)
Definition label_value (l : PolarCell.Indexes) : option Z :=
  match l with
  | FREE => Some 0%Z
  | UNKNOWN => Some 50%Z
  | OCCUPIED => Some 100%Z
  | NOT_SET => None
  end.

(** The index of raster cell [(i, j)] in [data]. *)
Definition cell_index (p : Parameters) (j i : Z) : nat :=
  Z.to_nat (j * grid_width p + i).

(** Raster cell [(i, j)] of [d] holds the value of its backing cell. *)
Definition written (p : Parameters) (g : Grid) (d : list Z) (j i : Z)
  : Prop :=
  exists cell,
    grid_get g (backing p j i).1 (backing p j i).2 = Ok cell /\
    is_Some (label_value (PolarCell.idx cell)) /\
    d !! cell_index p j i = label_value (PolarCell.idx cell).

(** Every cell has a ground and a label, and the occupied ones a top. *)
Definition raster_ready (g : Grid) : Prop :=
  forall s b cell,
    grid_get g s b = Ok cell ->
    is_Some (PolarCell.ground cell) /\
    PolarCell.idx cell <> NOT_SET /\
    (PolarCell.idx cell = OCCUPIED -> is_Some (PolarCell.z_max cell)).

(** The iterations the voxel column of a cell takes, and their maximum
    over a grid. *)
Definition column_steps (cs : R) (cell : PolarCell.t) : nat :=
  match PolarCell.z_max cell, PolarCell.ground cell with
  | Some z, Some g => Z.to_nat (Zceil ((z - g) / cs))
  | _, _ => O
  end.

Definition grid_fuel (cs : R) (g : Grid) : nat :=
  max_list (column_steps cs <$> mjoin g).

(** The node as the constructor leaves it and every frame keeps it: the
    parameters of the configuration and a raster of the derived size. *)
Definition node_inv (c : Config) (this : SensorFusion) : Prop :=
  params_ this = make_params c /\
  length (data (occ_grid_ this))
  = Z.to_nat (grid_width (make_params c) * grid_height (make_params c)).

(** The ground voxel of raster cell [(i, j)] is in the cloud [vg]. *)
Definition ground_voxel (p : Parameters) (g : Grid) (vg : list VPoint)
    (j i : Z) : Prop :=
  exists cell gr,
    grid_get g (backing p j i).1 (backing p j i).2 = Ok cell /\
    PolarCell.ground cell = Some gr /\
    mkVPoint (raster_x p j) (raster_y p j i) gr ∈ vg.

(** The raster cells the opening angle never reaches (constructor,
    line 95). *)
Definition boundary (p : Parameters) (j i : Z) : Prop :=
  (i < j \/ i >= grid_width p - j)%Z.

(** What a frame makes of the node: [this'] and [warned] describe the
    outcome of [process] on [cloud] from [this], with the plane fit
    [segment]. *)
Definition frame_outcome (c : Config) (segment : Segmentation)
    (this : SensorFusion) (cloud : list VPoint)
    (this' : SensorFusion) (warned : bool) : Prop :=
  let p := make_params c in
  exists g0,
    let fit :=
      segment (ransac_tolerance p) (ransac_iterations p)
              (pcl_ground_plane_ this') in
    binned p cloud g0 /\
    ground_plane_candidates p g0 = Ok (pcl_ground_plane_ this') /\
    swept p fit.2 g0 (polar_grid_ this') /\
    (fit.1 = [] -> warned = true) /\
    params_ this' = p /\
    pcl_in_ this' = filter (passes_gate p) cloud /\
    Forall (cell_ready p (polar_grid_ this')) (pcl_in_ this') /\
    pcl_ground_ this'
    = filter (fun pt => ~ point_elevated p (polar_grid_ this') pt)
             (pcl_in_ this') /\
    pcl_elevated_ this'
    = filter (point_elevated p (polar_grid_ this')) (pcl_in_ this') /\
    length (data (occ_grid_ this')) = length (data (occ_grid_ this)) /\
    (forall j i, in_footprint p j i ->
                 written p (polar_grid_ this') (data (occ_grid_ this')) j i) /\
    (forall k, (forall j i, in_footprint p j i -> k <> cell_index p j i) ->
               data (occ_grid_ this') !! k = data (occ_grid_ this) !! k) /\
    (forall j i, in_footprint p j i ->
                 ground_voxel p (polar_grid_ this')
                              (pcl_voxel_ground_ this') j i) /\
    time_frame_ this' = (time_frame_ this + 1)%Z.

(** The number of points the cells of a grid have counted. *)
Definition sumZ {A} (f : A -> Z) (l : list A) : Z :=
  foldr (fun a acc => (f a + acc)%Z) 0%Z l.

Definition total_count (g : Grid) : Z :=
  sumZ (sumZ PolarCell.count) g.

(** The lowest point of a list of points, and a non-empty list whose
    points span less than the height threshold in [z]. *)
Definition lowest (pts : list VPoint) (lo : VPoint) : Prop :=
  lo ∈ pts /\ forall q, q ∈ pts -> pz lo <= pz q.

Definition flat_cell (p : Parameters) (pts : list VPoint) : Prop :=
  pts <> [] /\
  forall q r, q ∈ pts -> r ∈ pts -> pz r - pz q < grid_min_height p.

(** The raster value the walk writes for a label (lines 404-416: FREE,
    UNKNOWN, and everything else). *)
Definition raster_value (l : PolarCell.Indexes) : Z :=
  match l with
  | FREE => 0%Z
  | UNKNOWN => 50%Z
  | _ => 100%Z
  end.

(** Point [q] is a ground voxel of grid [g]: it has the ground of the
    polar cell of its own position. *)
Definition ground_voxel_of (p : Parameters) (g : Grid) (q : VPoint) : Prop :=
  exists cell,
    grid_get g (cell_of p q).1 (cell_of p q).2 = Ok cell /\
    PolarCell.ground cell = Some (pz q).

(** Point [q] is an elevated voxel of grid [g]: the polar cell of its
    position is neither FREE nor UNKNOWN, and [q] lies below the top of
    that cell (and not below its ground when the cell size is not
    negative). *)
Definition elevated_voxel_of (p : Parameters) (g : Grid) (q : VPoint)
  : Prop :=
  exists cell gr zmax,
    grid_get g (cell_of p q).1 (cell_of p q).2 = Ok cell /\
    PolarCell.idx cell <> FREE /\ PolarCell.idx cell <> UNKNOWN /\
    PolarCell.ground cell = Some gr /\ PolarCell.z_max cell = Some zmax /\
    pz q < zmax /\ (0 <= grid_cell_size p -> gr <= pz q).

(** The loop variables of the walk of format [a] at raster cell [(i, j)]:
    [x] after [j] decrements, [y] after [i - j] decrements from it; and
    the polar cell the walk looks up there, the backing cell of the raster
    cell. *)
Definition walk_x (a : WalkArith) (j : Z) : walk_num a :=
  Nat.iter (Z.to_nat j) (walk_next a) (walk_start a).

Definition walk_y (a : WalkArith) (j i : Z) : walk_num a :=
  Nat.iter (Z.to_nat (i - j)) (walk_next a) (walk_x a j).

Definition backing_in (a : WalkArith) (p : Parameters) (j i : Z) : Z * Z :=
  fromVeloCoordsToPolarCell p (walk_R a (walk_x a j))
                            (walk_R a (walk_y a j i)).

(** What a completed walk leaves at raster cell [(i, j)]: the value of the
    label of its backing cell, a ground voxel at its position with the
    ground of that cell and, when the cell is neither free nor unknown and
    its top is above its ground, an elevated voxel there, the foot of the
    column. *)
Definition walked (a : WalkArith) (p : Parameters) (g : Grid) (d : list Z)
    (vg ve : list VPoint) (j i : Z) : Prop :=
  exists cell gr,
    grid_get g (backing_in a p j i).1 (backing_in a p j i).2 = Ok cell /\
    PolarCell.ground cell = Some gr /\
    mkVPoint (walk_R a (walk_x a j)) (walk_R a (walk_y a j i)) gr ∈ vg /\
    d !! cell_index p j i = Some (raster_value (PolarCell.idx cell)) /\
    (PolarCell.idx cell <> FREE -> PolarCell.idx cell <> UNKNOWN ->
     exists zmax,
       PolarCell.z_max cell = Some zmax /\
       (gr < zmax ->
        mkVPoint (walk_R a (walk_x a j)) (walk_R a (walk_y a j i)) gr ∈ ve)).

(** ** Inputs of the examples *)

(** A configuration for the examples: range 2, cells of size 1, two
    segments. *)
Definition config0 : Config :=
  {| cfg_lidar_height := 173 / 100;
     cfg_lidar_min_height := -2;
     cfg_grid_min_range := 0;
     cfg_grid_max_range := 2;
     cfg_grid_cell_size := 1;
     cfg_grid_min_height := 2 / 10;
     cfg_grid_segments := 2;
     cfg_ransac_tolerance := 2 / 10;
     cfg_ransac_iterations := 50 |}.

(** A cloud of three points: two ahead of the sensor in the same cell,
    one behind it. *)
Definition cloud0 : list VPoint :=
  [mkVPoint 1 0 0; mkVPoint 1 0 1; mkVPoint (-1) 0 0].

(** A node of configuration [config0] with an empty raster of the derived
    size. *)
Definition node0 : SensorFusion :=
  {| params_ := make_params config0;
     polar_grid_ := [];
     occ_grid_ :=
       {| data :=
            replicate
              (Z.to_nat (grid_width (make_params config0)
                         * grid_height (make_params config0))) 0%Z;
          info_width := grid_width (make_params config0);
          info_height := grid_height (make_params config0) |};
     pcl_in_ := [];
     pcl_ground_plane_ := [];
     pcl_ground_ := [];
     pcl_elevated_ := [];
     pcl_voxel_ground_ := [];
     pcl_voxel_elevated_ := [];
     time_frame_ := 0 |}.

(** A fit that finds the horizontal plane [z = -1.73] and no inlier. *)
Definition plane0 : Segmentation :=
  fun _ _ _ => ([], [0; 0; 1; 173 / 100]).

(** A fit that finds no model: no inlier and no coefficient. *)
Definition no_model : Segmentation :=
  fun _ _ _ => ([], []).

(** The scenario of the sweep: parameters of one segment of four bins with
    threshold 0.2, the horizontal plane [z = 0], and a segment whose second
    cell holds one point at height 0.5. *)
Definition sweep_params : Parameters :=
  {| lidar_height := 173 / 100;
     lidar_min_height := -2;
     lidar_opening_angle := PI / 4;
     grid_min_range := 0;
     grid_max_range := 2;
     grid_cell_size := 1;
     grid_min_height := 2 / 10;
     grid_segments := 1;
     grid_height := 2;
     grid_width := 4;
     grid_bins := 4;
     ransac_tolerance := 2 / 10;
     ransac_iterations := 50;
     inv_angular_res := 2 / PI;
     inv_radial_res := 1 |}.

Definition level_plane : list R := [0; 0; 1; 0].

Definition hit_cell : PolarCell.t :=
  PolarCell.mk 1 (Some 1) (Some 0) (Some (5 / 10)) (Some (5 / 10)) None None
               NOT_SET.

Definition sweep_grid : Grid :=
  [[PolarCell.fresh; hit_cell; PolarCell.fresh; PolarCell.fresh]].

(** Two frames, the second with an empty cloud. *)
Definition frames0 : list Frame :=
  [mkFrame cloud0 plane0; mkFrame [] plane0].

(** The grid of the sweep scenario with a second, empty segment, and
    parameters of two segments of four bins. *)
Definition sweep_params2 : Parameters :=
  {| lidar_height := 173 / 100;
     lidar_min_height := -2;
     lidar_opening_angle := PI / 4;
     grid_min_range := 0;
     grid_max_range := 2;
     grid_cell_size := 1;
     grid_min_height := 2 / 10;
     grid_segments := 2;
     grid_height := 2;
     grid_width := 4;
     grid_bins := 4;
     ransac_tolerance := 2 / 10;
     ransac_iterations := 50;
     inv_angular_res := 4 / PI;
     inv_radial_res := 1 |}.

Definition free_row : list PolarCell.t :=
  [PolarCell.fresh; PolarCell.fresh; PolarCell.fresh; PolarCell.fresh].

Definition hit_row : list PolarCell.t :=
  [PolarCell.fresh; hit_cell; PolarCell.fresh; PolarCell.fresh].

(** A cloud of one point just above the plane of [plane0]. *)
Definition cloud1 : list VPoint := [mkVPoint 1 0 (- (17 / 10))].

(** The scenario of the partition: in the parameters of the sweep
    scenario (threshold 0.2), a cell of ground 0 and height 0.05 at
    [(0, 1)], and a point of that cell at [z = 0.1]. *)
Definition scenario_cell : PolarCell.t :=
  PolarCell.mk 1 (Some 1) (Some 0) (Some (5 / 100)) (Some (5 / 100))
               (Some 0) (Some (5 / 100)) FREE.

Definition scenario_grid : Grid :=
  [[PolarCell.fresh; scenario_cell; PolarCell.fresh; PolarCell.fresh]].

Definition scenario_point : VPoint := mkVPoint 1 0 (1 / 10).

(** The configuration of range 2, cell size 0.1 and two segments.  The
    numbers 2 and 0.1 as [float] and as [double] fields. *)
Definition two_f32 : spec_float := S754_finite false 8388608 (-22).
Definition tenth_f32 : spec_float := S754_finite false 13421773 (-27).
Definition two_f64 : spec_float := S754_finite false 4503599627370496 (-51).
Definition tenth_f64 : spec_float :=
  S754_finite false 7205759403792794 (-56).

(** The number 1 as a [float]: the cell size of [config0]. *)
Definition one_f32 : spec_float := S754_finite false 8388608 (-23).

(** The parameters of a node of this configuration, [cs] being the cell
    size as it is stored: [grid_height = int(2 / 0.1) = 20] (the rounded
    quotient is 20), [grid_width = 40], [grid_bins = int(28.28 + 1) = 29]. *)
Definition drift_params (cs : R) : Parameters :=
  {| lidar_height := 173 / 100;
     lidar_min_height := -2;
     lidar_opening_angle := PI / 4;
     grid_min_range := 0;
     grid_max_range := 2;
     grid_cell_size := cs;
     grid_min_height := 2 / 10;
     grid_segments := 2;
     grid_height := 20;
     grid_width := 40;
     grid_bins := 29;
     ransac_tolerance := 2 / 10;
     ransac_iterations := 50;
     inv_angular_res := IZR (2 * 2) / PI;
     inv_radial_res := 1 / cs |}.

(** * Properties

    The first part follows the stages of a frame under a valid
    configuration, every number being an exact real and the parameters
    those of [make_params]: there every index stays in the grid and every
    stage completes.  It provides the frames on which the later properties
    are shown to apply.  The part on stages that complete holds whatever
    the parameters of the node and the format of the loop variables of the
    walk. *)

(** ** Arithmetic of [trunc] *)

Lemma trunc_nonneg (x : R) : 0 <= x -> trunc x = Zfloor x.
Proof. intros Hx. unfold trunc. destruct (decide (x < 0)); [lra | done]. Qed.

Lemma trunc_IZR (z : Z) : trunc (IZR z) = z.
Proof.
  unfold trunc. destruct (decide (IZR z < 0)).
  - unfold Zceil. rewrite ZfloorNZ. lia.
  - apply ZfloorZ.
Qed.

Lemma Zfloor_range (x : R) (n : Z) :
  0 <= x -> x < IZR n -> (0 <= Zfloor x < n)%Z.
Proof.
  intros H0 Hn. split.
  - apply Zfloor_lub. simpl. lra.
  - apply lt_IZR. pose proof (Zfloor_bound x). lra.
Qed.

Lemma trunc_range (x : R) (n : Z) :
  0 <= x -> x < IZR n -> (0 <= trunc x < n)%Z.
Proof. intros H0 Hn. rewrite trunc_nonneg by done. by apply Zfloor_range. Qed.

Lemma trunc_succ (x : R) : 0 <= x -> trunc (x + 1) = (Zfloor x + 1)%Z.
Proof.
  intros Hx. rewrite trunc_nonneg by lra.
  change 1 with (IZR 1). apply Zfloor_addz.
Qed.

(** ** Trigonometry of the field of view *)

Lemma sin_lt_cos (a : R) : - (PI / 4) <= a < PI / 4 -> sin a < cos a.
Proof.
  intros Ha.
  assert (Hc : 0 < cos (a + PI / 4)) by (apply cos_gt_0; lra).
  rewrite cos_plus, cos_PI4, sin_PI4 in Hc.
  assert (Hs : 0 < 1 / sqrt 2).
  { apply Rdiv_lt_0_compat; [lra | apply sqrt_lt_R0; lra]. }
  nra.
Qed.

Lemma atan2_pos (y x : R) : 0 < x -> atan2 y x = atan (y / x).
Proof. intros Hx. unfold atan2. destruct (decide (0 < x)); [done | lra]. Qed.

Lemma atan2_polar (a m : R) :
  - (PI / 2) < a < PI / 2 -> 0 < m ->
  atan2 (- sin a * m) (cos a * m) = - a.
Proof.
  intros Ha Hm.
  assert (Hc : 0 < cos a) by (apply cos_gt_0; lra).
  rewrite atan2_pos by nra.
  replace (- sin a * m / (cos a * m)) with (- tan a).
  - rewrite atan_opp, atan_tan; [done | lra].
  - unfold tan. field. lra.
Qed.

Lemma mag_polar (a m : R) :
  0 <= m ->
  sqrt (cos a * m * (cos a * m) + - sin a * m * (- sin a * m)) = m.
Proof.
  intros Hm.
  replace (cos a * m * (cos a * m) + - sin a * m * (- sin a * m))
    with ((sin a ^ 2 + cos a ^ 2) * (m * m)) by ring.
  replace (sin a ^ 2 + cos a ^ 2) with 1.
  - rewrite Rmult_1_l. by apply sqrt_square.
  - pose proof (sin2_cos2 a) as H. unfold Rsqr in H. lra.
Qed.

(** ** Geometry of a valid configuration *)

Section Geometry.
Variable c : Config.
Hypothesis Hvalid : valid_config c.

Let p := make_params c.
Let cs := cfg_grid_cell_size c.
Let rmax := cfg_grid_max_range c.
Let segs := cfg_grid_segments c.

Lemma cs_pos : 0 < cs.
Proof. apply Hvalid. Qed.

Lemma rmax_pos : 0 < rmax.
Proof. apply Hvalid. Qed.

Lemma segs_pos : (1 <= segs)%Z.
Proof. apply Hvalid. Qed.

Lemma IZR_segs_pos : 1 <= IZR segs.
Proof. apply IZR_le, segs_pos. Qed.

Lemma sqrt2_ge_1 : 1 <= sqrt 2.
Proof. rewrite <- sqrt_1 at 1. apply sqrt_le_1_alt. lra. Qed.

Lemma grid_height_floor : grid_height p = Zfloor (rmax / cs).
Proof.
  pose proof cs_pos. pose proof rmax_pos.
  apply trunc_nonneg. apply Rlt_le, Rdiv_lt_0_compat; done.
Qed.

Lemma grid_bins_floor : grid_bins p = (Zfloor (rmax * sqrt 2 / cs) + 1)%Z.
Proof.
  pose proof cs_pos. pose proof rmax_pos. pose proof sqrt2_ge_1.
  apply trunc_succ. apply Rlt_le, Rdiv_lt_0_compat; [nra | done].
Qed.

Lemma grid_height_nonneg : (0 <= grid_height p)%Z.
Proof.
  pose proof cs_pos. pose proof rmax_pos.
  rewrite grid_height_floor. apply Zfloor_lub. simpl.
  apply Rlt_le, Rdiv_lt_0_compat; done.
Qed.

Lemma grid_height_cells : IZR (grid_height p) * cs <= rmax.
Proof.
  pose proof cs_pos as Hcs. rewrite grid_height_floor.
  pose proof (Zfloor_bound (rmax / cs)) as [Hf _].
  apply (Rmult_le_compat_r cs) in Hf; [| lra].
  replace (rmax / cs * cs) with rmax in Hf by (field; lra). done.
Qed.

Lemma grid_bins_pos : (1 <= grid_bins p)%Z.
Proof.
  pose proof cs_pos. pose proof rmax_pos. pose proof sqrt2_ge_1.
  rewrite grid_bins_floor.
  assert (0 <= Zfloor (rmax * sqrt 2 / cs))%Z; [| lia].
  apply Zfloor_lub. simpl. apply Rlt_le, Rdiv_lt_0_compat; [nra | done].
Qed.

(** The radial index of a point closer than [rmax * sqrt 2]. *)
Lemma bin_in_range (x y : R) :
  sqrt (x * x + y * y) < rmax * sqrt 2 ->
  (0 <= (fromVeloCoordsToPolarCell p x y).2 < grid_bins p)%Z.
Proof.
  intros Hm. pose proof cs_pos as Hcs.
  unfold fromVeloCoordsToPolarCell. cbn [snd].
  change (inv_radial_res p) with (1 / cs).
  set (mag := sqrt (x * x + y * y)) in *.
  assert (H0 : 0 <= mag) by apply sqrt_pos.
  assert (Hq : mag * (1 / cs) = mag / cs) by (field; lra).
  rewrite Hq.
  assert (Hq0 : 0 <= mag / cs).
  { apply Rmult_le_pos; [done |]. apply Rlt_le, Rinv_0_lt_compat, Hcs. }
  rewrite trunc_nonneg by done. rewrite grid_bins_floor.
  split; [apply Zfloor_lub; simpl; lra |].
  assert (Zfloor (mag / cs) <= Zfloor (rmax * sqrt 2 / cs))%Z; [| lia].
  apply Zfloor_le. apply Rmult_le_compat_r; [| lra].
  apply Rlt_le, Rinv_0_lt_compat, Hcs.
Qed.

(** The angular index of a point of the field of view. *)
Lemma seg_in_range (x y : R) :
  x = - y \/ - (PI / 4) < atan2 y x <= PI / 4 ->
  (0 <= (fromVeloCoordsToPolarCell p x y).1 < grid_segments p)%Z.
Proof.
  intros Hxy. pose proof segs_pos as Hs. pose proof IZR_segs_pos as Hs'.
  pose proof PI_RGT_0 as Hpi.
  unfold fromVeloCoordsToPolarCell. cbn [fst].
  change (grid_segments p) with segs.
  change (lidar_opening_angle p) with (PI / 4).
  change (inv_angular_res p) with (IZR (2 * segs) / PI).
  destruct (decide (x = - y)) as [_ | Hne]; [lia |].
  destruct Hxy as [? | Ha]; [done |].
  rewrite mult_IZR.
  set (a := atan2 y x) in *.
  replace ((- a + PI / 4) * (2 * IZR segs / PI))
    with ((PI / 4 - a) / (PI / 2) * IZR segs) by (field; lra).
  assert (Hq : 0 <= (PI / 4 - a) / (PI / 2) < 1).
  { split.
    - apply Rmult_le_pos; [lra |]. apply Rlt_le, Rinv_0_lt_compat. lra.
    - apply (Rmult_lt_reg_r (PI / 2)); [lra |].
      replace ((PI / 4 - a) / (PI / 2) * (PI / 2)) with (PI / 4 - a)
        by (field; lra).
      lra. }
  apply trunc_range; nra.
Qed.

(** In exact arithmetic a cell's representative point comes back to the
    cell, origin apart. *)
Lemma round_trip_cell (seg bin : Z) :
  (0 <= seg < segs)%Z -> (1 <= bin)%Z ->
  round_trip p seg bin = (seg, bin).
Proof.
  intros Hseg Hbin. pose proof cs_pos as Hcs. pose proof PI_RGT_0 as Hpi.
  assert (Hs : 1 <= IZR segs) by apply IZR_segs_pos.
  assert (Hb : 1 <= IZR bin) by (by apply IZR_le).
  assert (Hs0 : 0 <= IZR seg) by (apply IZR_le; lia).
  assert (Hs1 : IZR seg < IZR segs) by (apply IZR_lt; lia).
  unfold round_trip, fromPolarCellToVeloCoords, fromVeloCoordsToPolarCell.
  simpl. fold cs segs. rewrite mult_IZR.
  set (m := IZR bin / (1 / cs)).
  set (a := IZR seg / (2 * IZR segs / PI) - PI / 4).
  assert (Hm : m = IZR bin * cs) by (unfold m; field; lra).
  assert (Hm0 : 0 < m) by nra.
  assert (Hq : 0 <= IZR seg / IZR segs < 1).
  { split.
    - apply Rmult_le_pos; [done |]. apply Rlt_le, Rinv_0_lt_compat. lra.
    - apply (Rmult_lt_reg_r (IZR segs)); [lra |].
      replace (IZR seg / IZR segs * IZR segs) with (IZR seg)
        by (field; lra).
      lra. }
  assert (Ha : a = IZR seg / IZR segs * (PI / 2) - PI / 4)
    by (unfold a; field; lra).
  assert (Ha' : - (PI / 4) <= a < PI / 4) by nra.
  pose proof (sin_lt_cos a Ha') as Hsc.
  rewrite atan2_polar by (done || lra).
  rewrite mag_polar by lra.
  destruct (decide (cos a * m = - (- sin a * m))) as [He | _]; [nra |].
  f_equal.
  - replace ((- - a + PI / 4) * (2 * IZR segs / PI)) with (IZR seg).
    + apply trunc_IZR.
    + rewrite Ha. field. lra.
  - replace (m * (1 / cs)) with (IZR bin).
    + apply trunc_IZR.
    + rewrite Hm. field. lra.
Qed.

(** Every cell of bin 0 has the origin as representative point, which is
    on the line [x = -y]: it comes back as the last segment. *)
Lemma round_trip_origin (seg : Z) :
  round_trip p seg 0 = ((segs - 1)%Z, 0%Z).
Proof.
  unfold round_trip, fromPolarCellToVeloCoords, fromVeloCoordsToPolarCell.
  simpl. fold cs segs.
  set (a := IZR seg / _ - _).
  replace (0 / (1 / cs)) with 0 by (unfold Rdiv; ring).
  rewrite !Rmult_0_r.
  destruct (decide (0 = - 0)) as [_ | Hne]; [| lra].
  f_equal. rewrite Rplus_0_r, sqrt_0, Rmult_0_l.
  apply (trunc_IZR 0).
Qed.
End Geometry.

(** ** The result monad, vectors and loops *)

Lemma bind_Ok {A B} (m : Res A) (k : A -> Res B) (b : B) :
  (a ← m; k a) = Ok b <-> exists a, m = Ok a /\ k a = Ok b.
Proof.
  destruct m as [a | f]; simpl; split.
  - intros H. by exists a.
  - by intros (a' & [= <-] & H).
  - done.
  - by intros (a' & [=] & _).
Qed.

Lemma vec_get_Ok {A} (v : list A) (i : Z) (a : A) :
  vec_get v i = Ok a <-> (0 <= i)%Z /\ v !! Z.to_nat i = Some a.
Proof.
  unfold vec_get. destruct (decide (0 <= i)%Z); [| by split; [| lia]].
  destruct (v !! Z.to_nat i) as [a' |]; split.
  - by intros [= <-].
  - by intros [_ [= <-]].
  - done.
  - by intros [_ [=]].
Qed.

Lemma vec_get_in_range {A} (v : list A) (i : Z) :
  (0 <= i < Z.of_nat (length v))%Z -> exists a, vec_get v i = Ok a.
Proof.
  intros Hi. destruct (lookup_lt_is_Some_2 v (Z.to_nat i)) as [a Ha]; [lia |].
  exists a. apply vec_get_Ok. split; [lia | done].
Qed.

Lemma vec_get_bound {A} (v : list A) (i : Z) (a : A) :
  vec_get v i = Ok a -> (0 <= i < Z.of_nat (length v))%Z.
Proof.
  intros [Hi Hl]%vec_get_Ok. apply lookup_lt_Some in Hl. lia.
Qed.

Lemma vec_set_Ok {A} (v : list A) (i : Z) (a : A) :
  (0 <= i < Z.of_nat (length v))%Z ->
  vec_set v i a = Ok (<[Z.to_nat i := a]> v).
Proof. intros Hi. unfold vec_set. by rewrite decide_True. Qed.

Lemma vec_get_set_eq {A} (v : list A) (i : Z) (a : A) :
  (0 <= i < Z.of_nat (length v))%Z ->
  vec_get (<[Z.to_nat i := a]> v) i = Ok a.
Proof.
  intros Hi. apply vec_get_Ok. split; [lia |].
  apply list_lookup_insert_eq. lia.
Qed.

Lemma vec_get_set_ne {A} (v : list A) (i j : Z) (a : A) :
  (0 <= i)%Z -> i <> j ->
  vec_get (<[Z.to_nat i := a]> v) j = vec_get v j.
Proof.
  intros Hi Hne. unfold vec_get.
  destruct (decide (0 <= j)%Z); [| done].
  rewrite list_lookup_insert_ne; [done | lia].
Qed.

(** The invariant rule of the [for] loop: the loop completes and the
    invariant holds at its upper bound. *)
Lemma for_loop_inv {St} (Inv : Z -> St -> Prop) (body : Z -> St -> Res St)
    (n : nat) (lo : Z) (s : St) :
  Inv lo s ->
  (forall i s, (lo <= i < lo + Z.of_nat n)%Z -> Inv i s ->
               exists s', body i s = Ok s' /\ Inv (i + 1)%Z s') ->
  exists s', for_loop n lo body s = Ok s' /\ Inv (lo + Z.of_nat n)%Z s'.
Proof.
  revert lo s. induction n as [| n IH]; intros lo s H0 Hstep.
  - exists s. split; [done |]. by replace (lo + Z.of_nat 0)%Z with lo by lia.
  - destruct (Hstep lo s) as (s1 & Hb & H1); [lia | done |].
    destruct (IH (lo + 1)%Z s1) as (s' & Hl & H'); [done | |].
    + intros i t Hi. apply Hstep. lia.
    + exists s'. simpl. rewrite Hb. simpl. split; [done |].
      by replace (lo + Z.of_nat (S n))%Z with (lo + 1 + Z.of_nat n)%Z by lia.
Qed.

Lemma for_range_inv {St} (Inv : Z -> St -> Prop) (body : Z -> St -> Res St)
    (lo hi : Z) (s : St) :
  (lo <= hi)%Z ->
  Inv lo s ->
  (forall i s, (lo <= i < hi)%Z -> Inv i s ->
               exists s', body i s = Ok s' /\ Inv (i + 1)%Z s') ->
  exists s', for_range lo hi body s = Ok s' /\ Inv hi s'.
Proof.
  intros Hle H0 Hstep. unfold for_range.
  destruct (for_loop_inv Inv body (Z.to_nat (hi - lo)) lo s) as (s' & Hl & H');
    [done | |].
  - intros i t Hi. apply Hstep. lia.
  - exists s'. split; [done |].
    by replace (lo + Z.of_nat (Z.to_nat (hi - lo)))%Z with hi in H' by lia.
Qed.

(** ** The polar grid as a table *)

Lemma grid_get_in_range (g : Grid) (n m s b : Z) :
  grid_dims g n m -> (0 <= s < n)%Z -> (0 <= b < m)%Z ->
  exists cell, grid_get g s b = Ok cell.
Proof.
  intros [Hn Hm] Hs Hb. unfold grid_get.
  destruct (vec_get_in_range g s) as [row Hrow]; [lia |].
  rewrite Hrow. simpl.
  apply vec_get_in_range.
  apply vec_get_Ok in Hrow as [_ Hrow].
  rewrite Forall_lookup in Hm. rewrite (Hm _ _ Hrow). lia.
Qed.

Lemma grid_get_bound (g : Grid) (n m s b : Z) (cell : PolarCell.t) :
  grid_dims g n m -> grid_get g s b = Ok cell ->
  (0 <= s < n)%Z /\ (0 <= b < m)%Z.
Proof.
  intros [Hn Hm] (row & Hrow & Hcell)%bind_Ok.
  pose proof (vec_get_bound _ _ _ Hrow). pose proof (vec_get_bound _ _ _ Hcell).
  apply vec_get_Ok in Hrow as [_ Hrow].
  rewrite Forall_lookup in Hm. rewrite (Hm _ _ Hrow) in *. lia.
Qed.

(** Writing a cell back: the write succeeds, the cell reads as written,
    every other cell and the dimensions are as before. *)
Lemma grid_set_spec (g : Grid) (s b : Z) (old cell : PolarCell.t) :
  grid_get g s b = Ok old ->
  exists g',
    grid_set g s b cell = Ok g' /\
    grid_get g' s b = Ok cell /\
    (forall s' b', (s', b') <> (s, b) ->
                   grid_get g' s' b' = grid_get g s' b') /\
    (forall n m, grid_dims g n m -> grid_dims g' n m).
Proof.
  intros (row & Hrow & Hold)%bind_Ok.
  pose proof (vec_get_bound _ _ _ Hrow) as Hs.
  pose proof (vec_get_bound _ _ _ Hold) as Hb.
  exists (<[Z.to_nat s := <[Z.to_nat b := cell]> row]> g).
  unfold grid_set. rewrite Hrow. simpl.
  rewrite vec_set_Ok by done. simpl. rewrite vec_set_Ok by done.
  split; [done |]. split; [| split].
  - unfold grid_get. rewrite vec_get_set_eq by done. simpl.
    by apply vec_get_set_eq.
  - intros s' b' Hne. unfold grid_get.
    destruct (decide (s = s')) as [<- | Hs'].
    + rewrite vec_get_set_eq by done. rewrite Hrow. simpl.
      apply vec_get_set_ne; [lia | congruence].
    + by rewrite vec_get_set_ne by (lia || done).
  - intros n m [Hn Hm]. split; [by rewrite length_insert |].
    apply Forall_insert; [done |]. rewrite length_insert.
    apply vec_get_Ok in Hrow as [_ Hrow].
    rewrite Forall_lookup in Hm. by apply (Hm _ _ Hrow).
Qed.

Lemma new_polar_grid_dims (p : Parameters) :
  grid_dims (new_polar_grid p) (grid_segments p) (grid_bins p).
Proof.
  split; [apply length_replicate |].
  apply Forall_replicate. apply length_replicate.
Qed.

Lemma new_polar_grid_get (p : Parameters) (s b : Z) (cell : PolarCell.t) :
  grid_get (new_polar_grid p) s b = Ok cell -> cell = PolarCell.fresh.
Proof.
  intros (row & Hrow & Hcell)%bind_Ok.
  apply vec_get_Ok in Hrow as [_ Hrow]. apply vec_get_Ok in Hcell as [_ Hcell].
  apply lookup_replicate in Hrow as [-> _].
  by apply lookup_replicate in Hcell as [-> _].
Qed.

(** ** 1. Filtering and binning *)

(** The nested tests of the loop body are the gate. *)
Lemma bin_point_gate (p : Parameters) (i : nat) (pt : VPoint)
    (inliers : list nat) (grid : Grid) :
  bin_point p i pt (inliers, grid) =
  if decide (passes_gate p pt) then
    cell ← grid_get grid (cell_of p pt).1 (cell_of p pt).2;
    cell ← update_cell cell pt;
    grid ← grid_set grid (cell_of p pt).1 (cell_of p pt).2 cell;
    Ok (inliers ++ [i], grid)
  else Ok (inliers, grid).
Proof.
  unfold bin_point, passes_gate, cell_of.
  destruct (fromVeloCoordsToPolarCell p (px pt) (py pt)) as [seg bin].
  destruct (decide (Rabs _ < _)) as [Ha | Ha].
  - destruct (bool_decide (_ > _)) eqn:Hlo;
      [apply bool_decide_eq_true in Hlo | apply bool_decide_eq_false in Hlo];
      (destruct (bool_decide (_ < grid_max_range p)) eqn:Hhi;
       [apply bool_decide_eq_true in Hhi | apply bool_decide_eq_false in Hhi]);
      simpl.
    + destruct (decide (pz pt > _)) as [Hz | Hz].
      * rewrite decide_True; [done | unfold Rgt in *; tauto].
      * rewrite decide_False; [done | tauto].
    + rewrite decide_False; [done | tauto].
    + rewrite decide_False; [done | unfold Rgt in *; tauto].
    + rewrite decide_False; [done | tauto].
  - rewrite decide_False; [done | tauto].
Qed.

Ltac elem_tac :=
  first [ by apply list_elem_of_singleton
        | by apply elem_of_app; left
        | by apply elem_of_app; right; apply list_elem_of_singleton ].

(** Counting one more point keeps the statistics of the cell. *)
Lemma update_cell_stats (pts : list VPoint) (cell : PolarCell.t)
    (pt : VPoint) :
  cell_stats pts cell ->
  exists cell', update_cell cell pt = Ok cell' /\
                cell_stats (pts ++ [pt]) cell'.
Proof.
  intros (Hcount & Hg & Hh & Hi & Hst). unfold update_cell. simpl.
  rewrite Hcount.
  assert (Hlen : Z.of_nat (length (pts ++ [pt]))
                 = (Z.of_nat (length pts) + 1)%Z).
  { rewrite length_app. simpl. lia. }
  destruct (decide (Z.of_nat (length pts) + 1 = 1)%Z) as [H1 | H1].
  - assert (pts = []) as -> by (apply length_zero_iff_nil; lia).
    eexists. split; [done |]. do 4 (split; [done |]).
    intros _. exists pt, (pz pt). simpl.
    split; [elem_tac |]. do 4 (split; [done |]).
    split; [exists pt; split; [elem_tac | done] |].
    intros q ->%list_elem_of_singleton. lra.
  - assert (Hne : pts <> []) by (intros ->; simpl in H1; lia).
    destruct (Hst Hne) as (lo & zhi & Hlo & Hx & Hy & Hz & Hzm & Hhi & Hall).
    destruct Hhi as (hi & Hhi & Hzhi).
    pose proof (Hall _ Hlo) as Hlohi.
    rewrite Hz. simpl.
    destruct (decide (pz pt < pz lo)) as [Hlt | Hge]; simpl;
      rewrite Hzm; simpl;
      (destruct (decide (pz pt > zhi)) as [Hgt | Hle]);
      eexists; (split; [done |]);
      (split; [simpl; lia |]); (do 3 (split; [done |])); intros _; simpl.
    + lra.
    + exists pt, zhi.
      split; [elem_tac |]. do 4 (split; [done |]).
      split; [exists hi; split; [elem_tac | done] |].
      intros q [Hq | ->%list_elem_of_singleton]%elem_of_app;
        [pose proof (Hall _ Hq) |]; lra.
    + exists lo, (pz pt).
      split; [elem_tac |]. do 4 (split; [done |]).
      split; [exists pt; split; [elem_tac | done] |].
      intros q [Hq | ->%list_elem_of_singleton]%elem_of_app;
        [pose proof (Hall _ Hq) |]; lra.
    + exists lo, zhi.
      split; [elem_tac |]. do 4 (split; [done |]).
      split; [exists hi; split; [elem_tac | done] |].
      intros q [Hq | ->%list_elem_of_singleton]%elem_of_app;
        [pose proof (Hall _ Hq) |]; lra.
Qed.

Lemma routed_snoc (p : Parameters) (pre : list VPoint) (pt : VPoint)
    (s b : Z) :
  routed p (pre ++ [pt]) s b =
  routed p pre s b ++
  (if decide (passes_gate p pt /\ cell_of p pt = (s, b)) then [pt] else []).
Proof.
  unfold routed. rewrite filter_app, filter_cons, filter_nil.
  destruct (decide (passes_gate p pt)) as [Hg | Hg].
  - rewrite filter_app, filter_cons, filter_nil.
    destruct (decide (cell_of p pt = (s, b))) as [Hc | Hc].
    + by rewrite decide_True.
    + rewrite decide_False; [done | tauto].
  - rewrite filter_app, filter_nil. rewrite decide_False; [done | tauto].
Qed.

Lemma extract_indices_app_l (pre rest : list VPoint) (inl : list nat) :
  Forall (fun i => (i < length pre)%nat) inl ->
  extract_indices (pre ++ rest) inl = extract_indices pre inl.
Proof.
  unfold extract_indices. induction 1 as [| i inl Hi _ IH]; [done |].
  simpl. rewrite lookup_app_l by done. unfold omap in IH. by rewrite IH.
Qed.

Lemma extract_indices_snoc (cloud : list VPoint) (inl : list nat) (i : nat)
    (pt : VPoint) :
  cloud !! i = Some pt ->
  extract_indices cloud (inl ++ [i]) = extract_indices cloud inl ++ [pt].
Proof.
  intros Hi. unfold extract_indices. rewrite omap_app. simpl. by rewrite Hi.
Qed.

Lemma selects_snoc (p : Parameters) (pre : list VPoint) (inl : list nat)
    (pt : VPoint) :
  selects p pre inl ->
  selects p (pre ++ [pt])
    (if decide (passes_gate p pt) then inl ++ [length pre] else inl).
Proof.
  intros [Hlt Hex].
  assert (Hlt' : Forall (fun i => (i < length (pre ++ [pt]))%nat) inl).
  { eapply Forall_impl; [done |]. intros i Hi. rewrite length_app.
    simpl in *. lia. }
  unfold selects. rewrite filter_app, filter_cons, filter_nil.
  destruct (decide (passes_gate p pt)); split.
  - apply Forall_app. split; [done |]. apply Forall_singleton.
    rewrite length_app. simpl. lia.
  - rewrite (extract_indices_snoc _ _ _ pt).
    + by rewrite extract_indices_app_l, Hex.
    + by apply list_lookup_middle.
  - done.
  - by rewrite extract_indices_app_l, Hex, app_nil_r.
Qed.

Section Binning.
Variable c : Config.
Hypothesis Hvalid : valid_config c.

Let p := make_params c.

(** A point that passes the gate is routed to a cell of the grid. *)
Lemma gate_in_range (pt : VPoint) :
  passes_gate p pt ->
  (0 <= (cell_of p pt).1 < grid_segments p)%Z /\
  (0 <= (cell_of p pt).2 < grid_bins p)%Z.
Proof.
  intros (Ha & [_ Hr] & _). unfold cell_of. split.
  - apply seg_in_range; [done |]. right.
    change (lidar_opening_angle p) with (PI / 4) in Ha.
    apply Rabs_def2 in Ha. lra.
  - apply bin_in_range; [done |].
    change (grid_max_range p) with (cfg_grid_max_range c) in Hr.
    pose proof sqrt2_ge_1. pose proof (rmax_pos c Hvalid).
    pose proof (sqrt_pos (px pt * px pt + py pt * py pt)). nra.
Qed.

Lemma bin_point_step (pre : list VPoint) (i : nat) (pt : VPoint)
    (inl : list nat) (grid : Grid) :
  binned p pre grid ->
  exists grid',
    bin_point p i pt (inl, grid)
    = Ok (if decide (passes_gate p pt) then inl ++ [i] else inl, grid') /\
    binned p (pre ++ [pt]) grid'.
Proof.
  intros [Hdims Hcells]. rewrite bin_point_gate.
  destruct (decide (passes_gate p pt)) as [Hg | Hg].
  - destruct (gate_in_range pt Hg) as [Hs Hb].
    destruct (cell_of p pt) as [s b] eqn:Hcell. simpl in *.
    destruct (Hcells s b Hs Hb) as (cell & Hget & Hstats).
    destruct (update_cell_stats _ _ pt Hstats) as (cell' & Hup & Hstats').
    destruct (grid_set_spec grid s b cell cell' Hget)
      as (grid' & Hset & Hget' & Hother & Hdims').
    exists grid'. rewrite Hget. simpl. rewrite Hup. simpl. rewrite Hset.
    split; [done |]. split; [by apply Hdims' |].
    intros s' b' Hs' Hb'. rewrite routed_snoc.
    destruct (decide ((s', b') = (s, b))) as [[= -> ->] | Hne].
    + exists cell'. split; [done |].
      rewrite decide_True; [done | by rewrite Hcell].
    + rewrite decide_False, app_nil_r;
        [| rewrite Hcell; intros [_ Heq]; congruence].
      rewrite Hother by done. by apply Hcells.
  - exists grid. split; [done |]. split; [done |].
    intros s b Hs Hb. rewrite routed_snoc.
    rewrite decide_False, app_nil_r by tauto. by apply Hcells.
Qed.

Lemma bin_points_from (cloud pre : list VPoint) (inl : list nat)
    (grid : Grid) :
  binned p pre grid -> selects p pre inl ->
  exists inl' grid',
    bin_points p (length pre) cloud (inl, grid) = Ok (inl', grid') /\
    binned p (pre ++ cloud) grid' /\ selects p (pre ++ cloud) inl'.
Proof.
  revert pre inl grid.
  induction cloud as [| pt cloud IH]; intros pre inl grid Hb Hs.
  - exists inl, grid. by rewrite app_nil_r.
  - destruct (bin_point_step pre (length pre) pt inl grid Hb)
      as (grid1 & Hstep & Hb1).
    pose proof (selects_snoc p pre inl pt Hs) as Hs1.
    destruct (IH (pre ++ [pt]) _ grid1 Hb1 Hs1) as (inl' & grid' & HI & ?).
    exists inl', grid'. cbn [bin_points]. rewrite Hstep. cbn [mbind Res_bind].
    rewrite length_app in HI. simpl in HI.
    replace (length pre + 1)%nat with (S (length pre)) in HI by lia.
    by rewrite <- app_assoc in *.
Qed.

Lemma binned_new : binned p [] (new_polar_grid p).
Proof.
  split; [apply new_polar_grid_dims |].
  intros s b Hs Hb.
  destruct (grid_get_in_range _ _ _ s b (new_polar_grid_dims p) Hs Hb)
    as [cell Hget].
  exists cell. split; [done |].
  apply new_polar_grid_get in Hget as ->.
  by repeat split.
Qed.

(** The first stage completes; it selects the gated points and fills the
    grid with their statistics. *)
Lemma bin_points_spec (cloud : list VPoint) :
  exists inl grid,
    bin_points p 0 cloud ([], new_polar_grid p) = Ok (inl, grid) /\
    binned p cloud grid /\
    extract_indices cloud inl = filter (passes_gate p) cloud.
Proof.
  destruct (bin_points_from cloud [] [] (new_polar_grid p))
    as (inl & grid & Hb & Hbin & Hsel).
  - apply binned_new.
  - by split.
  - exists inl, grid. simpl in *. split; [done |]. split; [done |].
    apply Hsel.
Qed.
End Binning.

(** ** 2. Ground plane candidates *)

Lemma binned_stats_ready (p : Parameters) (cloud : list VPoint) (g : Grid) :
  binned p cloud g -> stats_ready g.
Proof.
  intros [Hdims Hcells] s b cell Hget Hcount.
  destruct (grid_get_bound _ _ _ _ _ _ Hdims Hget) as [Hs Hb].
  destruct (Hcells s b Hs Hb) as (cell' & Hget' & Hst).
  rewrite Hget in Hget'. injection Hget' as <-.
  destruct Hst as (Hc & _ & _ & _ & Hpts).
  destruct Hpts as (lo & zhi & _ & -> & -> & -> & -> & _).
  - intros Hnil. rewrite Hnil in Hc. simpl in Hc. lia.
  - by repeat split.
Qed.

Lemma ground_plane_cell_ok (p : Parameters) (g : Grid) (i j : Z)
    (acc : list VPoint) :
  grid_dims g (grid_segments p) (grid_bins p) -> stats_ready g ->
  (0 <= i < grid_segments p)%Z -> (0 <= j < grid_bins p)%Z ->
  exists acc', ground_plane_cell p g i j acc = Ok acc'.
Proof.
  intros Hdims Hready Hi Hj.
  destruct (grid_get_in_range _ _ _ i j Hdims Hi Hj) as [cell Hget].
  unfold ground_plane_cell. rewrite Hget. simpl.
  destruct (decide (PolarCell.count cell > 0)%Z) as [Hc | Hc]; [| by eexists].
  destruct (Hready i j cell Hget) as ([x ->] & [y ->] & [zl ->] & [zh ->]);
    [lia |].
  simpl. destruct (decide (zh - zl < grid_min_height p)); by eexists.
Qed.

Lemma ground_plane_candidates_ok (p : Parameters) (g : Grid) :
  grid_dims g (grid_segments p) (grid_bins p) -> stats_ready g ->
  (0 <= grid_segments p)%Z -> (0 <= grid_bins p)%Z ->
  exists cands, ground_plane_candidates p g = Ok cands.
Proof.
  intros Hdims Hready Hs Hb. unfold ground_plane_candidates.
  destruct (for_range_inv (fun _ _ => True)
              (fun i acc => for_range 0 (grid_bins p)
                              (ground_plane_cell p g i) acc)
              0 (grid_segments p) []) as (cands & Hc & _); [done | done | |].
  - intros i acc Hi _.
    destruct (for_range_inv (fun _ _ => True) (ground_plane_cell p g i)
                0 (grid_bins p) acc) as (acc' & Ha & _); [done | done | |].
    + intros j acc1 Hj _.
      destruct (ground_plane_cell_ok p g i j acc1) as [acc2 H2]; try done.
      by exists acc2.
    + by exists acc'.
  - by exists cands.
Qed.

(** ** 3. The sweep *)

Lemma values_get (values : list R) (k : nat) :
  (k < length values)%nat ->
  vec_get values (Z.of_nat k) = Ok (nth k values 0).
Proof.
  intros Hk. apply vec_get_Ok. split; [lia |].
  rewrite Nat2Z.id.
  destruct (lookup_lt_is_Some_2 values k Hk) as [x Hx].
  by rewrite (nth_lookup_Some _ _ 0 _ Hx).
Qed.

Lemma hit_before_succ (p : Parameters) (values : list R) (g : Grid)
    (s b : Z) (cell : PolarCell.t) :
  (0 <= b)%Z -> grid_get g s b = Ok cell ->
  hit_before p values g s (b + 1) <->
  hit_before p values g s b \/ obstacle p values s b cell.
Proof.
  intros Hb Hget. split.
  - intros (b' & cell' & Hb' & Hget' & Hobs).
    destruct (decide (b' = b)) as [-> | Hne].
    + right. rewrite Hget in Hget'. by injection Hget' as <-.
    + left. exists b', cell'. split; [lia | done].
  - intros [(b' & cell' & Hb' & Hget' & Hobs) | Hobs].
    + exists b', cell'. split; [lia | done].
    + exists b, cell. split; [lia | done].
Qed.

(** The body of the sweep, once the cell and the coefficients are read. *)
Lemma sweep_bin_eq (p : Parameters) (values : list R) (s b : Z)
    (hit : bool) (g : Grid) (c0 : PolarCell.t) :
  (4 <= length values)%nat ->
  grid_get g s b = Ok c0 ->
  sweep_bin p values s b (hit, g) =
  let gr := ground_at p values s b in
  let label := if hit then UNKNOWN else FREE in
  if decide (PolarCell.count c0 = 0%Z) then
    g' ← grid_set g s b
           (PolarCell.set_idx (PolarCell.set_ground c0 gr) label);
    Ok (hit, g')
  else
    zmax ← read (PolarCell.z_max c0);
    let c1 := PolarCell.set_height (PolarCell.set_ground c0 gr) (zmax - gr) in
    if decide (zmax - gr > grid_min_height p) then
      g' ← grid_set g s b (PolarCell.set_idx c1 OCCUPIED); Ok (true, g')
    else
      g' ← grid_set g s b (PolarCell.set_idx c1 label); Ok (hit, g').
Proof.
  intros Hlen Hget.
  assert (H0 : vec_get values 0 = Ok (nth 0 values 0))
    by (apply (values_get values 0); lia).
  assert (H1 : vec_get values 1 = Ok (nth 1 values 0))
    by (apply (values_get values 1); lia).
  assert (H2 : vec_get values 2 = Ok (nth 2 values 0))
    by (apply (values_get values 2); lia).
  assert (H3 : vec_get values 3 = Ok (nth 3 values 0))
    by (apply (values_get values 3); lia).
  unfold sweep_bin, ground_at. rewrite Hget. cbn [mbind Res_bind].
  destruct (fromPolarCellToVeloCoords p s b) as [x y].
  rewrite H0, H1, H2, H3. cbn [mbind Res_bind].
  cbn [PolarCell.count PolarCell.set_ground].
  destruct (decide (PolarCell.count c0 = 0%Z)); [done |].
  cbn [PolarCell.z_max PolarCell.set_ground].
  by destruct (PolarCell.z_max c0).
Qed.

(** One step of the sweep of a segment; [H] is what [hit] stands for. *)
Lemma sweep_bin_step (p : Parameters) (values : list R) (s b : Z)
    (hit : bool) (g : Grid) (c0 : PolarCell.t) (H : Prop) :
  (4 <= length values)%nat ->
  grid_get g s b = Ok c0 ->
  (PolarCell.count c0 <> 0%Z -> is_Some (PolarCell.z_max c0)) ->
  (hit = true <-> H) ->
  exists hit' g' c1,
    sweep_bin p values s b (hit, g) = Ok (hit', g') /\
    grid_get g' s b = Ok c1 /\
    (forall s' b', (s', b') <> (s, b) ->
                   grid_get g' s' b' = grid_get g s' b') /\
    (forall n m, grid_dims g n m -> grid_dims g' n m) /\
    (hit' = true <-> H \/ obstacle p values s b c0) /\
    PolarCell.count c1 = PolarCell.count c0 /\
    PolarCell.x_min c1 = PolarCell.x_min c0 /\
    PolarCell.y_min c1 = PolarCell.y_min c0 /\
    PolarCell.z_min c1 = PolarCell.z_min c0 /\
    PolarCell.z_max c1 = PolarCell.z_max c0 /\
    PolarCell.ground c1 = Some (ground_at p values s b) /\
    (PolarCell.count c0 = 0%Z -> PolarCell.height c1 = PolarCell.height c0) /\
    (PolarCell.count c0 <> 0%Z ->
     exists zmax, PolarCell.z_max c0 = Some zmax /\
                  PolarCell.height c1 = Some (zmax - ground_at p values s b)) /\
    (obstacle p values s b c0 /\ PolarCell.idx c1 = OCCUPIED \/
     ~ obstacle p values s b c0 /\ H /\ PolarCell.idx c1 = UNKNOWN \/
     ~ obstacle p values s b c0 /\ ~ H /\ PolarCell.idx c1 = FREE).
Proof.
  intros Hlen Hget Hzmax Hhit.
  rewrite (sweep_bin_eq p values s b hit g c0 Hlen Hget). cbn zeta.
  set (gr := ground_at p values s b).
  assert (Hflag : H /\ (if hit then UNKNOWN else FREE) = UNKNOWN \/
                  ~ H /\ (if hit then UNKNOWN else FREE) = FREE).
  { destruct hit; [left | right]; (split; [| done]).
    - by apply Hhit.
    - intros HH. by apply Hhit in HH. }
  destruct (decide (PolarCell.count c0 = 0%Z)) as [Hc | Hc].
  - assert (Hno : ~ obstacle p values s b c0) by (by intros [? _]).
    destruct (grid_set_spec g s b c0
                (PolarCell.set_idx (PolarCell.set_ground c0 gr)
                   (if hit then UNKNOWN else FREE)) Hget)
      as (g' & Hset & Hget' & Hother & Hdims).
    rewrite Hset. cbn [mbind Res_bind].
    eexists hit, g', _. split; [done |]. split; [exact Hget' |].
    split; [done |]. split; [done |].
    split; [rewrite Hhit; tauto |].
    cbn. do 6 (split; [done |]). split; [done |].
    split; [done |]. tauto.
  - destruct (Hzmax Hc) as [zmax Hz]. rewrite Hz. cbn [read mbind Res_bind].
    destruct (decide (zmax - gr > grid_min_height p)) as [Hh | Hh].
    + assert (Hyes : obstacle p values s b c0) by (split; eauto).
      destruct (grid_set_spec g s b c0
                  (PolarCell.set_idx
                     (PolarCell.set_height (PolarCell.set_ground c0 gr)
                        (zmax - gr)) OCCUPIED) Hget)
        as (g' & Hset & Hget' & Hother & Hdims).
      rewrite Hset. cbn [mbind Res_bind].
      eexists true, g', _. split; [done |]. split; [exact Hget' |].
      split; [done |]. split; [done |].
      split; [tauto |].
      cbn. do 6 (split; [done |]). split; [done |].
      split; [intros _; eauto |].
      by left.
    + assert (Hno : ~ obstacle p values s b c0).
      { intros (_ & z & Hz' & Hgt). rewrite Hz in Hz'.
        injection Hz' as <-. done. }
      destruct (grid_set_spec g s b c0
                  (PolarCell.set_idx
                     (PolarCell.set_height (PolarCell.set_ground c0 gr)
                        (zmax - gr))
                     (if hit then UNKNOWN else FREE)) Hget)
        as (g' & Hset & Hget' & Hother & Hdims).
      rewrite Hset. cbn [mbind Res_bind].
      eexists hit, g', _. split; [done |]. split; [exact Hget' |].
      split; [done |]. split; [done |].
      split; [rewrite Hhit; tauto |].
      cbn. do 6 (split; [done |]). split; [done |].
      split; [intros _; eauto |].
      tauto.
Qed.

Lemma hit_before_ext (p : Parameters) (values : list R) (g g' : Grid)
    (s b : Z) :
  (forall b', grid_get g' s b' = grid_get g s b') ->
  hit_before p values g' s b <-> hit_before p values g s b.
Proof.
  intros Heq. unfold hit_before.
  split; intros (b' & cell & Hb & Hget & Hobs); exists b', cell;
    (split; [done |]); (split; [| done]); by rewrite ?Heq in *.
Qed.

Lemma swept_cell_ext (p : Parameters) (values : list R) (g g' : Grid)
    (s b : Z) (c0 c1 : PolarCell.t) :
  (forall b', grid_get g' s b' = grid_get g s b') ->
  swept_cell p values g' s b c0 c1 -> swept_cell p values g s b c0 c1.
Proof.
  intros Heq. unfold swept_cell.
  rewrite (hit_before_ext p values g g' s b Heq). tauto.
Qed.

Lemma sweep_segment_spec (p : Parameters) (values : list R) (s : Z)
    (g : Grid) :
  (4 <= length values)%nat ->
  grid_dims g (grid_segments p) (grid_bins p) ->
  (forall b cell, grid_get g s b = Ok cell -> PolarCell.count cell <> 0%Z ->
                  is_Some (PolarCell.z_max cell)) ->
  (0 <= s < grid_segments p)%Z -> (0 <= grid_bins p)%Z ->
  exists g',
    sweep_segment p values s g = Ok g' /\
    grid_dims g' (grid_segments p) (grid_bins p) /\
    (forall s' b', s' <> s -> grid_get g' s' b' = grid_get g s' b') /\
    forall b, (0 <= b < grid_bins p)%Z ->
      exists c0 c1, grid_get g s b = Ok c0 /\ grid_get g' s b = Ok c1 /\
                    swept_cell p values g s b c0 c1.
Proof.
  intros Hlen Hdims Hready Hs Hbins.
  pose (Inv := fun (b : Z) (st : bool * Grid) =>
    grid_dims st.2 (grid_segments p) (grid_bins p) /\
    (forall s' b', s' <> s \/ (b <= b')%Z ->
                   grid_get st.2 s' b' = grid_get g s' b') /\
    (forall b', (0 <= b' < b)%Z ->
       exists c0 c1, grid_get g s b' = Ok c0 /\ grid_get st.2 s b' = Ok c1 /\
                     swept_cell p values g s b' c0 c1) /\
    (st.1 = true <-> hit_before p values g s b)).
  destruct (for_range_inv Inv (sweep_bin p values s) 0 (grid_bins p)
              (false, g)) as ([hit g'] & Hloop & Hd & Hoth & Hcells & _).
  - done.
  - split; [done |]. split; [done |]. split; [intros b' Hb'; lia |].
    split; [done |]. intros (b' & _ & Hb' & _). lia.
  - intros b [hit g1] Hb (Hd1 & Hoth1 & Hcells1 & Hhit1). simpl in *.
    destruct (grid_get_in_range _ _ _ s b Hdims Hs Hb) as [c0 Hget0].
    assert (Hget1 : grid_get g1 s b = Ok c0).
    { rewrite Hoth1; [done | right; lia]. }
    destruct (sweep_bin_step p values s b hit g1 c0
                (hit_before p values g s b) Hlen Hget1)
      as (hit' & g2 & c1 & Hstep & Hget2 & Hoth2 & Hd2 & Hhit2 & Hc1);
      [by apply (Hready b) | done |].
    exists (hit', g2). split; [done |]. simpl.
    split; [by apply Hd2 |]. split; [| split].
    + intros s' b' Hsb. rewrite Hoth2; [apply Hoth1; lia |].
      intros [= -> ->]. lia.
    + intros b' Hb'. destruct (decide (b' = b)) as [-> | Hne].
      * exists c0, c1. split; [done |]. split; [done |]. exact Hc1.
      * destruct (Hcells1 b') as (d0 & d1 & Hg0 & Hg1 & Hsw); [lia |].
        exists d0, d1. split; [done |]. split; [| done].
        rewrite Hoth2; [done | intros [= ->]; done].
    + rewrite Hhit2. symmetry. apply hit_before_succ; [lia | done].
  - exists g'. unfold sweep_segment. rewrite Hloop. cbn [mbind Res_bind].
    simpl in *. split; [done |]. split; [done |].
    split; [intros s' b' Hne; apply Hoth; by left | done].
Qed.

(** The sweep completes, and every cell of the grid is swept. *)
Lemma sweep_spec (p : Parameters) (values : list R) (g0 : Grid) :
  (4 <= length values)%nat ->
  grid_dims g0 (grid_segments p) (grid_bins p) -> stats_ready g0 ->
  (0 <= grid_segments p)%Z -> (0 <= grid_bins p)%Z ->
  exists g1, sweep p values g0 = Ok g1 /\ swept p values g0 g1.
Proof.
  intros Hlen Hdims Hready Hsegs Hbins.
  pose (Inv := fun (s : Z) (g1 : Grid) =>
    grid_dims g1 (grid_segments p) (grid_bins p) /\
    (forall s' b', (s <= s')%Z -> grid_get g1 s' b' = grid_get g0 s' b') /\
    (forall s' b', (0 <= s' < s)%Z -> (0 <= b' < grid_bins p)%Z ->
       exists c0 c1, grid_get g0 s' b' = Ok c0 /\ grid_get g1 s' b' = Ok c1 /\
                     swept_cell p values g0 s' b' c0 c1)).
  destruct (for_range_inv Inv (sweep_segment p values) 0 (grid_segments p) g0)
    as (g1 & Hloop & Hd & _ & Hcells).
  - done.
  - split; [done |]. split; [done |]. intros s' b' Hs'. lia.
  - intros s g1 Hs (Hd1 & Hsame & Hdone).
    destruct (sweep_segment_spec p values s g1 Hlen Hd1)
      as (g2 & Hseg & Hd2 & Hoth & Hrow); [| done | done |].
    + intros b cell Hget. rewrite Hsame in Hget by lia. by apply (Hready s b).
    + exists g2. split; [done |]. split; [done |]. split.
      * intros s' b' Hs'. rewrite Hoth by lia. apply Hsame. lia.
      * intros s' b' Hs' Hb'. destruct (decide (s' = s)) as [-> | Hne].
        -- destruct (Hrow b' Hb') as (c0 & c1 & Hg0 & Hg1 & Hsw).
           exists c0, c1. rewrite Hsame in Hg0 by lia.
           split; [done |]. split; [done |].
           apply (swept_cell_ext p values g0 g1); [| done].
           intros b''. apply Hsame. lia.
        -- destruct (Hdone s' b') as (c0 & c1 & Hg0 & Hg1 & Hsw);
             [lia | done |].
           exists c0, c1. split; [done |]. split; [| done].
           by rewrite Hoth.
  - exists g1. split; [done |]. split; [done |]. done.
Qed.

(** ** Elevated and ground points *)

Lemma divide_point_ready (p : Parameters) (g : Grid) (pt : VPoint)
    (gnd elv : list VPoint) :
  cell_ready p g pt ->
  divide_point p g pt (gnd, elv) =
  Ok (if decide (point_elevated p g pt)
      then (gnd, elv ++ [pt]) else (gnd ++ [pt], elv)).
Proof.
  intros (cell & gr & h & _ & _ & Hget & _ & Hgr & Hh).
  assert (Hiff : point_elevated p g pt <->
                 pz pt > gr /\ h > grid_min_height p).
  { unfold point_elevated. by rewrite Hget, Hgr, Hh. }
  unfold divide_point. unfold cell_of in Hget.
  destruct (fromVeloCoordsToPolarCell p (px pt) (py pt)) as [s b].
  simpl in Hget. rewrite Hget. cbn [mbind Res_bind].
  unfold is_elevated. rewrite Hgr, Hh. cbn [read mbind Res_bind].
  destruct (decide (pz pt > gr)) as [Hz | Hz]; cbn [read mbind Res_bind].
  - destruct (decide (h > grid_min_height p)) as [Hgt | Hle].
    + rewrite bool_decide_eq_true_2 by done.
      rewrite decide_True; [done | tauto].
    + rewrite bool_decide_eq_false_2 by done.
      rewrite decide_False; [done | tauto].
  - rewrite decide_False; [done | tauto].
Qed.

(** The partition completes on points whose cells are ready and splits
    them in order. *)
Lemma divide_points_spec (p : Parameters) (g : Grid) (pts : list VPoint)
    (gnd elv : list VPoint) :
  Forall (cell_ready p g) pts ->
  divide_points p g pts (gnd, elv) =
  Ok (gnd ++ filter (fun pt => ~ point_elevated p g pt) pts,
      elv ++ filter (point_elevated p g) pts).
Proof.
  intros Hall. revert gnd elv.
  induction Hall as [| pt pts Hpt _ IH]; intros gnd elv.
  - by rewrite !filter_nil, !app_nil_r.
  - cbn [divide_points]. rewrite (divide_point_ready p g pt gnd elv Hpt).
    cbn [mbind Res_bind]. rewrite !filter_cons.
    destruct (decide (point_elevated p g pt)) as [He | He].
    + rewrite IH. rewrite decide_False by tauto.
      by rewrite <- app_assoc.
    + rewrite IH. rewrite decide_True by done.
      by rewrite <- app_assoc.
Qed.

Section Partition.
Variable c : Config.
Hypothesis Hvalid : valid_config c.

Let p := make_params c.

(** Every filtered point finds its cell ready after the sweep. *)
Lemma filtered_cell_ready (cloud : list VPoint) (values : list R)
    (g0 g1 : Grid) (pt : VPoint) :
  binned p cloud g0 -> swept p values g0 g1 ->
  pt ∈ filter (passes_gate p) cloud ->
  cell_ready p g1 pt /\
  pt ∈ routed p cloud (cell_of p pt).1 (cell_of p pt).2.
Proof.
  intros [_ Hbin] [_ Hsw] Hpt.
  assert (Hgate : passes_gate p pt).
  { by apply list_elem_of_filter in Hpt as [? _]. }
  destruct (gate_in_range c Hvalid pt Hgate) as [Hs Hb]. fold p in Hs, Hb.
  assert (Hrouted : pt ∈ routed p cloud (cell_of p pt).1 (cell_of p pt).2).
  { unfold routed. apply list_elem_of_filter. split; [| done].
    by destruct (cell_of p pt). }
  split; [| done].
  destruct (Hbin _ _ Hs Hb) as (c0 & Hget0 & Hst).
  destruct (Hsw _ _ Hs Hb) as (c0' & c1 & Hget0' & Hget1 & Hcell).
  rewrite Hget0 in Hget0'. injection Hget0' as <-.
  destruct Hst as (Hcount & _).
  assert (Hpos : (1 <= PolarCell.count c0)%Z).
  { rewrite Hcount. destruct (routed p cloud _ _); [| simpl; lia].
    by apply elem_of_nil in Hrouted. }
  destruct Hcell as (Hc1 & _ & _ & _ & _ & Hgr & _ & Hh & _).
  destruct Hh as (zmax & _ & Hh); [lia |].
  exists c1, (ground_at p values (cell_of p pt).1 (cell_of p pt).2),
    (zmax - ground_at p values (cell_of p pt).1 (cell_of p pt).2).
  repeat split; try done; lia.
Qed.
End Partition.

(** ** 4. The raster *)

Lemma voxel_column_ok (p : Parameters) (x y zmax : R) (fuel : nat) :
  0 < grid_cell_size p ->
  forall (v : R) (acc : list VPoint),
    zmax - v <= INR fuel * grid_cell_size p ->
    exists acc', voxel_column fuel p x y zmax v acc = Ok acc'.
Proof.
  intros Hcs. induction fuel as [| fuel IH]; intros v acc Hb.
  - simpl in *. destruct (decide (v < zmax)); [lra | by eexists].
  - rewrite S_INR in Hb. simpl.
    destruct (decide (v < zmax)); [| by eexists].
    apply IH. lra.
Qed.

Lemma voxel_column_mono (p : Parameters) (x y zmax : R) (fuel fuel' : nat) :
  (fuel <= fuel')%nat ->
  forall (v : R) (acc acc' : list VPoint),
    voxel_column fuel p x y zmax v acc = Ok acc' ->
    voxel_column fuel' p x y zmax v acc = Ok acc'.
Proof.
  intros Hle. revert fuel' Hle.
  induction fuel as [| fuel IH]; intros fuel' Hle v acc acc' Hv.
  - simpl in Hv. destruct (decide (v < zmax)) as [Hlt | Hge]; [done |].
    destruct fuel'; simpl; by rewrite decide_False.
  - destruct fuel' as [| fuel']; [lia |]. simpl in *.
    destruct (decide (v < zmax)); [| done].
    apply IH; [lia | done].
Qed.

Lemma column_steps_bound (cs z g : R) (cell : PolarCell.t) :
  0 < cs ->
  PolarCell.z_max cell = Some z -> PolarCell.ground cell = Some g ->
  z - g <= INR (column_steps cs cell) * cs.
Proof.
  intros Hcs Hz Hg. unfold column_steps. rewrite Hz, Hg.
  pose proof (Zceil_bound ((z - g) / cs)) as [_ Hc].
  set (n := Zceil ((z - g) / cs)) in *.
  assert (Hn : IZR n <= INR (Z.to_nat n)).
  { rewrite INR_IZR_INZ. apply IZR_le. lia. }
  assert (Hq : (z - g) / cs * cs = z - g) by (field; lra).
  rewrite <- Hq. apply Rmult_le_compat_r; lra.
Qed.

Lemma grid_fuel_bound (cs : R) (g : Grid) (s b : Z) (cell : PolarCell.t) :
  grid_get g s b = Ok cell -> (column_steps cs cell <= grid_fuel cs g)%nat.
Proof.
  intros (row & Hrow & Hcell)%bind_Ok.
  apply vec_get_Ok in Hrow as [_ Hrow]. apply vec_get_Ok in Hcell as [_ Hcell].
  apply max_list_elem_of_le. apply list_elem_of_fmap.
  exists cell. split; [done |]. apply list_elem_of_join.
  exists row. split; by eapply list_elem_of_lookup_2.
Qed.

Lemma for_loop_mono {St} (body body' : Z -> St -> Res St) (n : nat) :
  (forall i s s', body i s = Ok s' -> body' i s = Ok s') ->
  forall lo s s', for_loop n lo body s = Ok s' ->
                  for_loop n lo body' s = Ok s'.
Proof.
  intros Hb. induction n as [| n IH]; intros lo s s' Hl; [done |].
  simpl in *. apply bind_Ok in Hl as (s1 & H1 & H2).
  rewrite (Hb _ _ _ H1). simpl. by apply IH.
Qed.

Lemma swept_raster_ready (p : Parameters) (values : list R) (g0 g1 : Grid) :
  swept p values g0 g1 -> raster_ready g1.
Proof.
  intros [Hdims Hcells] s b cell Hget.
  destruct (grid_get_bound _ _ _ _ _ _ Hdims Hget) as [Hs Hb].
  destruct (Hcells s b Hs Hb) as (c0 & c1 & _ & Hget1 & Hsw).
  rewrite Hget in Hget1. injection Hget1 as <-.
  destruct Hsw as (_ & _ & _ & _ & Hz & Hgr & _ & _ & Hlabel).
  split; [by rewrite Hgr |].
  destruct Hlabel as [[Hobs Hl] | [(_ & _ & Hl) | (_ & _ & Hl)]];
    rewrite Hl; (split; [done |]); [| done | done].
  intros _. rewrite Hz. destruct Hobs as (_ & zmax & -> & _). done.
Qed.

Lemma cell_index_inj (p : Parameters) (j i j' i' : Z) :
  (0 <= j)%Z -> (0 <= j')%Z ->
  (0 <= i < grid_width p)%Z -> (0 <= i' < grid_width p)%Z ->
  cell_index p j i = cell_index p j' i' -> j = j' /\ i = i'.
Proof.
  unfold cell_index. intros Hj Hj' Hi Hi' Heq.
  assert (j * grid_width p + i = j' * grid_width p + i')%Z as Hz by nia.
  assert (j = j') by nia. split; [done | nia].
Qed.

Section Raster.
Variable c : Config.
Hypothesis Hvalid : valid_config c.

Let p := make_params c.
Let cs := cfg_grid_cell_size c.
Let rmax := cfg_grid_max_range c.

Lemma grid_width_double : grid_width p = (grid_height p * 2)%Z.
Proof. done. Qed.

Lemma footprint_bounds (j i : Z) :
  in_footprint p j i ->
  (0 <= i < grid_width p)%Z /\
  (0 <= j * grid_width p + i < grid_width p * grid_height p)%Z.
Proof.
  unfold in_footprint. rewrite grid_width_double. intros [Hj Hi]. nia.
Qed.

(** Inside the footprint the position is in the quarter plane of the
    field of view, nearer than the maximal range along [x]. *)
Lemma raster_position (j i : Z) :
  in_footprint p j i ->
  0 < raster_x p j < rmax /\
  - raster_x p j <= raster_y p j i <= raster_x p j.
Proof.
  unfold in_footprint. rewrite grid_width_double. intros [Hj Hi].
  pose proof (cs_pos c Hvalid) as Hcs. fold cs in Hcs.
  pose proof (grid_height_cells c Hvalid) as Hh. fold p cs rmax in Hh.
  unfold raster_y, raster_x.
  change (grid_max_range p) with rmax. change (grid_cell_size p) with cs.
  assert (H0 : 0 <= IZR j) by (apply IZR_le; lia).
  assert (H1 : IZR j + 1 <= IZR (grid_height p)).
  { rewrite <- plus_IZR. apply IZR_le. lia. }
  assert (H2 : 0 <= IZR (i - j)) by (apply IZR_le; lia).
  assert (H3 : IZR (i - j) + 1 <= 2 * IZR (grid_height p) - 2 * IZR j).
  { rewrite <- !mult_IZR, <- minus_IZR, <- plus_IZR. apply IZR_le. lia. }
  nra.
Qed.

Lemma backing_in_range (j i : Z) :
  in_footprint p j i ->
  (0 <= (backing p j i).1 < grid_segments p)%Z /\
  (0 <= (backing p j i).2 < grid_bins p)%Z.
Proof.
  intros Hf. destruct (raster_position j i Hf) as [Hx Hy].
  set (x := raster_x p j) in *. set (y := raster_y p j i) in *.
  unfold backing. fold x y. split.
  - apply seg_in_range; [done |].
    destruct (decide (x = - y)) as [He | Hne]; [by left | right].
    rewrite atan2_pos by lra.
    assert (Hq : -1 < y / x <= 1).
    { split.
      - apply (Rmult_lt_reg_r x); [lra |].
        replace (y / x * x) with y by (field; lra). lra.
      - apply (Rmult_le_reg_r x); [lra |].
        replace (y / x * x) with y by (field; lra). lra. }
    rewrite <- atan_1. split.
    + rewrite <- atan_opp. apply atan_increasing. lra.
    + destruct Hq as [_ [Hlt | ->]]; [| lra].
      apply Rlt_le. by apply atan_increasing.
  - apply bin_in_range; [done |]. fold rmax.
    pose proof sqrt2_ge_1 as Hs2.
    assert (Hsq : sqrt 2 * sqrt 2 = 2) by (apply sqrt_sqrt; lra).
    rewrite <- (sqrt_square (rmax * sqrt 2)) by nra.
    apply sqrt_lt_1_alt. split; [nra |].
    replace (rmax * sqrt 2 * (rmax * sqrt 2))
      with (rmax * rmax * (sqrt 2 * sqrt 2)) by ring.
    rewrite Hsq. nra.
Qed.

Variable grid : Grid.
Hypothesis Hdims : grid_dims grid (grid_segments p) (grid_bins p).
Hypothesis Hready : raster_ready grid.
Variable fuel : nat.
Hypothesis Hfuel : (grid_fuel cs grid <= fuel)%nat.

(** One raster cell: the value of the backing label is stored at the
    index of the cell, and [y] moves on by one cell. *)
Lemma raster_cell_step (j i : Z) (r : Raster) :
  in_footprint p j i ->
  length (r_data r) = Z.to_nat (grid_width p * grid_height p) ->
  exists r' cell v gr,
    raster_cell fuel p grid (raster_x p j) j i (raster_y p j i, r)
    = Ok (raster_y p j (i + 1), r') /\
    grid_get grid (backing p j i).1 (backing p j i).2 = Ok cell /\
    label_value (PolarCell.idx cell) = Some v /\
    r_data r' = <[cell_index p j i := v]> (r_data r) /\
    PolarCell.ground cell = Some gr /\
    r_voxel_ground r'
    = r_voxel_ground r ++ [mkVPoint (raster_x p j) (raster_y p j i) gr].
Proof.
  intros Hf Hlen.
  destruct (backing_in_range j i Hf) as [Hs Hb].
  destruct (footprint_bounds j i Hf) as [_ Hix].
  destruct (grid_get_in_range _ _ _ _ _ Hdims Hs Hb) as [cell Hget].
  destruct (Hready _ _ _ Hget) as ([gr Hgr] & Hset & Hocc).
  assert (Hy : raster_y p j i - grid_cell_size p = raster_y p j (i + 1)).
  { unfold raster_y. replace (i + 1 - j)%Z with (i - j + 1)%Z by lia.
    rewrite plus_IZR. ring. }
  assert (Hstore : forall v, vec_set (r_data r) (j * grid_width p + i) v
                             = Ok (<[cell_index p j i := v]> (r_data r))).
  { intros v. apply vec_set_Ok. rewrite Hlen. lia. }
  unfold raster_cell. unfold backing in Hget.
  destruct (fromVeloCoordsToPolarCell p (raster_x p j) (raster_y p j i))
    as [seg bin] eqn:Hback.
  cbn [fst snd] in Hget. rewrite Hget. cbn [mbind Res_bind].
  rewrite Hgr. cbn [read mbind Res_bind]. rewrite Hy.
  destruct (decide (PolarCell.idx cell = FREE)) as [Hl | Hl1].
  { rewrite Hstore. cbn [mbind Res_bind].
    eexists _, cell, 0%Z, gr. unfold backing. rewrite Hback, Hl. done. }
  destruct (decide (PolarCell.idx cell = UNKNOWN)) as [Hl | Hl2].
  { rewrite Hstore. cbn [mbind Res_bind].
    eexists _, cell, 50%Z, gr. unfold backing. rewrite Hback, Hl. done. }
  assert (Hl : PolarCell.idx cell = OCCUPIED)
    by (by destruct (PolarCell.idx cell)).
  destruct (Hocc Hl) as [zmax Hzmax].
  rewrite Hstore, Hzmax. cbn [read mbind Res_bind].
  destruct (voxel_column_ok p (raster_x p j) (raster_y p j i) zmax fuel
              (cs_pos c Hvalid) gr (r_voxel_elevated r)) as [ve Hve].
  { pose proof (column_steps_bound cs zmax gr cell (cs_pos c Hvalid)
                  Hzmax Hgr) as Hsteps.
    pose proof (grid_fuel_bound cs grid _ _ cell Hget) as Hgf.
    assert (Hle : INR (column_steps cs cell) <= INR fuel)
      by (apply le_INR; lia).
    pose proof (cs_pos c Hvalid) as Hcs.
    change (grid_cell_size p) with cs. fold cs in Hcs. nra. }
  rewrite Hve. cbn [mbind Res_bind].
  eexists _, cell, 100%Z, gr. unfold backing. rewrite Hback, Hl. done.
Qed.
End Raster.

Lemma written_ext (p : Parameters) (g : Grid) (d d' : list Z) (j i : Z) :
  d' !! cell_index p j i = d !! cell_index p j i ->
  written p g d j i -> written p g d' j i.
Proof.
  intros Heq (cell & Hget & Hsome & Hd). exists cell. by rewrite Heq.
Qed.

Section RasterWalk.
Variable c : Config.
Hypothesis Hvalid : valid_config c.

Let p := make_params c.
Let cs := cfg_grid_cell_size c.
Let size := Z.to_nat (grid_width p * grid_height p).

Variable grid : Grid.
Hypothesis Hdims : grid_dims grid (grid_segments p) (grid_bins p).
Hypothesis Hready : raster_ready grid.
Variable fuel : nat.
Hypothesis Hfuel : (grid_fuel cs grid <= fuel)%nat.

(** One row of the footprint. *)
Lemma raster_row_spec (j : Z) (r : Raster) :
  (0 <= j < grid_height p)%Z ->
  length (r_data r) = size ->
  exists r',
    raster_row fuel p grid j (raster_x p j, r)
    = Ok (raster_x p (j + 1), r') /\
    length (r_data r') = size /\
    (forall i, (j <= i < grid_width p - j)%Z ->
               written p grid (r_data r') j i) /\
    (forall k, (forall i, (j <= i < grid_width p - j)%Z ->
                          k <> cell_index p j i) ->
               r_data r' !! k = r_data r !! k) /\
    (forall i, (j <= i < grid_width p - j)%Z ->
               ground_voxel p grid (r_voxel_ground r') j i) /\
    (forall pt, pt ∈ r_voxel_ground r -> pt ∈ r_voxel_ground r').
Proof.
  intros Hj Hlen.
  assert (Hwd : grid_width p = (grid_height p * 2)%Z) by done.
  pose (Inv := fun (i : Z) (st : R * Raster) =>
    st.1 = raster_y p j i /\
    length (r_data st.2) = size /\
    (forall i', (j <= i' < i)%Z -> written p grid (r_data st.2) j i') /\
    (forall k, (forall i', (j <= i' < i)%Z -> k <> cell_index p j i') ->
               r_data st.2 !! k = r_data r !! k) /\
    (forall i', (j <= i' < i)%Z ->
                ground_voxel p grid (r_voxel_ground st.2) j i') /\
    (forall pt, pt ∈ r_voxel_ground r -> pt ∈ r_voxel_ground st.2)).
  destruct (for_range_inv Inv (raster_cell fuel p grid (raster_x p j) j)
              j (grid_width p - j) (raster_x p j, r))
    as ([y r'] & Hloop & _ & Hlen' & Hw & Hframe & Hvox & Hkeep).
  - lia.
  - split; [| split; [done | split; [| split; [| split]]]]; cbn [fst snd].
    + unfold raster_y. rewrite Z.sub_diag. lra.
    + intros i' Hi'. lia.
    + done.
    + intros i' Hi'. lia.
    + done.
  - intros i [y r1] Hi (Hy & Hlen1 & Hw1 & Hf1 & Hv1 & Hk1).
    cbn [fst snd] in *. subst y.
    assert (Hfoot : in_footprint p j i) by done.
    destruct (raster_cell_step c Hvalid grid Hdims Hready fuel Hfuel
                j i r1 Hfoot Hlen1)
      as (r2 & cell & v & gr & Hstep & Hget & Hv & Hd & Hgr & Hvg).
    destruct (footprint_bounds c j i Hfoot) as [Hi0 Hix].
    fold p in Hstep, Hget, Hd, Hi0, Hix, Hvg.
    exists (raster_y p j (i + 1), r2). split; [done |].
    unfold Inv. cbn [fst snd].
    split; [done |]. rewrite Hd, Hvg.
    split; [by rewrite length_insert |].
    split; [| split; [| split]]; cycle 2.
    { intros i' Hi'. destruct (decide (i' = i)) as [-> | Hne].
      - exists cell, gr. split; [done |]. split; [done |]. elem_tac.
      - destruct (Hv1 i') as (cell' & gr' & ? & ? & ?); [lia |].
        exists cell', gr'. split; [done |]. split; [done |]. elem_tac. }
    { intros pt Hpt. apply elem_of_app. left. by apply Hk1. }
    + intros i' Hi'. destruct (decide (i' = i)) as [-> | Hne].
      * exists cell. split; [done |]. split; [by rewrite Hv |].
        rewrite Hv. apply list_lookup_insert_eq.
        unfold cell_index. rewrite Hlen1. unfold size. lia.
      * apply (written_ext p grid (r_data r1)); [| apply Hw1; lia].
        apply list_lookup_insert_ne. intros Heq.
        apply cell_index_inj in Heq as [_ ?]; [done | lia | lia | done |].
        lia.
    + intros k Hk. rewrite list_lookup_insert_ne.
      * apply Hf1. intros i' Hi'. apply Hk. lia.
      * intros Heq. symmetry in Heq. revert Heq. apply Hk. lia.
  - exists r'. unfold raster_row. rewrite Hloop. cbn [mbind Res_bind].
    cbn [fst snd] in *. split; [| done].
    f_equal. f_equal. unfold raster_x. rewrite plus_IZR. ring.
Qed.

(** The walk over the raster completes; it writes every cell of the
    footprint from its backing cell and no other cell. *)
Lemma rasterize_spec (d : list Z) :
  length d = size ->
  exists r,
    rasterize fuel p grid d = Ok r /\
    length (r_data r) = size /\
    (forall j i, in_footprint p j i -> written p grid (r_data r) j i) /\
    (forall k, (forall j i, in_footprint p j i -> k <> cell_index p j i) ->
               r_data r !! k = d !! k) /\
    (forall j i, in_footprint p j i ->
                 ground_voxel p grid (r_voxel_ground r) j i).
Proof.
  intros Hlen.
  assert (Hwd : grid_width p = (grid_height p * 2)%Z) by done.
  pose (Inv := fun (j : Z) (st : R * Raster) =>
    st.1 = raster_x p j /\
    length (r_data st.2) = size /\
    (forall j' i', (0 <= j' < j)%Z -> (j' <= i' < grid_width p - j')%Z ->
                   written p grid (r_data st.2) j' i') /\
    (forall k, (forall j' i', (0 <= j' < j)%Z ->
                              (j' <= i' < grid_width p - j')%Z ->
                              k <> cell_index p j' i') ->
               r_data st.2 !! k = d !! k) /\
    (forall j' i', (0 <= j' < j)%Z -> (j' <= i' < grid_width p - j')%Z ->
                   ground_voxel p grid (r_voxel_ground st.2) j' i')).
  destruct (for_range_inv Inv (raster_row fuel p grid) 0 (grid_height p)
              (grid_max_range p - grid_cell_size p / 2, mkRaster d [] []))
    as ([x r] & Hloop & _ & Hlen' & Hw & Hframe & Hvox).
  - apply (grid_height_nonneg c Hvalid).
  - split; [| split; [done | split; [| split]]]; cbn [fst snd r_data].
    + unfold raster_x. lra.
    + intros j' i' Hj'. lia.
    + done.
    + intros j' i' Hj'. lia.
  - intros j [x r1] Hj (Hx & Hlen1 & Hw1 & Hf1 & Hv1). cbn [fst snd] in *.
    subst x.
    destruct (raster_row_spec j r1 Hj Hlen1)
      as (r2 & Hrow & Hlen2 & Hw2 & Hf2 & Hv2 & Hk2).
    exists (raster_x p (j + 1), r2). split; [done |].
    unfold Inv. cbn [fst snd].
    split; [done |]. split; [done |].
    split; [| split]; cycle 2.
    { intros j' i' Hj' Hi'. destruct (decide (j' = j)) as [-> | Hne].
      - by apply Hv2.
      - destruct (Hv1 j' i') as (cell' & gr' & ? & ? & ?); [lia | done |].
        exists cell', gr'. split; [done |]. split; [done |]. by apply Hk2. }
    + intros j' i' Hj' Hi'. destruct (decide (j' = j)) as [-> | Hne].
      * by apply Hw2.
      * apply (written_ext p grid (r_data r1)); [| apply Hw1; [lia | done]].
        apply Hf2. intros i Hi Heq.
        apply cell_index_inj in Heq as [? _]; [done | lia | lia | lia | lia].
    + intros k Hk. rewrite Hf2.
      * apply Hf1. intros j' i' Hj' Hi'. apply Hk; [lia | done].
      * intros i Hi. apply Hk; [lia | done].
  - exists r. unfold rasterize. rewrite Hloop. cbn [mbind Res_bind].
    cbn [fst snd] in *. split; [done |]. split; [done |].
    split; [| split].
    + intros j i [Hj Hi]. by apply Hw.
    + intros k Hk. apply Hframe. intros j' i' Hj' Hi'. by apply Hk.
    + intros j i [Hj Hi]. by apply Hvox.
Qed.
End RasterWalk.

(** ** Fuel: more never changes a result *)

Lemma raster_cell_mono (fuel fuel' : nat) (p : Parameters) (grid : Grid)
    (x : R) (j i : Z) (st st' : R * Raster) :
  (fuel <= fuel')%nat ->
  raster_cell fuel p grid x j i st = Ok st' ->
  raster_cell fuel' p grid x j i st = Ok st'.
Proof.
  intros Hle. unfold raster_cell. destruct st as [y r].
  destruct (fromVeloCoordsToPolarCell p x y) as [seg bin].
  intros (cell & -> & H1)%bind_Ok. cbn [mbind Res_bind].
  apply bind_Ok in H1 as (g & -> & H1). cbn [mbind Res_bind].
  destruct (decide (PolarCell.idx cell = FREE)); [done |].
  destruct (decide (PolarCell.idx cell = UNKNOWN)); [done |].
  apply bind_Ok in H1 as (r' & H1 & H2).
  apply bind_Ok in H1 as (d & -> & H1). cbn [mbind Res_bind].
  apply bind_Ok in H1 as (zmax & -> & H1). cbn [mbind Res_bind].
  apply bind_Ok in H1 as (ve & Hve & H1).
  rewrite (voxel_column_mono p x y zmax fuel fuel' Hle _ _ _ Hve).
  cbn [mbind Res_bind]. injection H1 as <-. exact H2.
Qed.

Lemma raster_row_mono (fuel fuel' : nat) (p : Parameters) (grid : Grid)
    (j : Z) (st st' : R * Raster) :
  (fuel <= fuel')%nat ->
  raster_row fuel p grid j st = Ok st' ->
  raster_row fuel' p grid j st = Ok st'.
Proof.
  intros Hle. unfold raster_row. destruct st as [x r].
  intros (yr & Hl & H1)%bind_Ok.
  unfold for_range in *.
  rewrite (for_loop_mono (raster_cell fuel p grid x j)
             (raster_cell fuel' p grid x j) _
             (fun i s s' => raster_cell_mono fuel fuel' p grid x j i s s' Hle)
             _ _ _ Hl).
  done.
Qed.

Lemma rasterize_mono (fuel fuel' : nat) (p : Parameters) (grid : Grid)
    (d : list Z) (r : Raster) :
  (fuel <= fuel')%nat ->
  rasterize fuel p grid d = Ok r -> rasterize fuel' p grid d = Ok r.
Proof.
  intros Hle. unfold rasterize.
  intros (xr & Hl & H1)%bind_Ok.
  unfold for_range in *.
  rewrite (for_loop_mono (raster_row fuel p grid) (raster_row fuel' p grid) _
             (fun j s s' => raster_row_mono fuel fuel' p grid j s s' Hle)
             _ _ _ Hl).
  done.
Qed.

(** ** One frame *)

Lemma ground_height_check_ok (inliers : list Z) (values : list R) :
  (4 <= length values)%nat ->
  exists gh warned,
    ground_height_check inliers values = Ok (gh, warned) /\
    (inliers = [] -> warned = true).
Proof.
  intros Hlen. unfold ground_height_check.
  assert (H2 : vec_get values 2 = Ok (nth 2 values 0))
    by (apply (values_get values 2); lia).
  assert (H3 : vec_get values 3 = Ok (nth 3 values 0))
    by (apply (values_get values 3); lia).
  rewrite H3, H2. cbn [mbind Res_bind].
  eexists _, _. split; [done |]. intros ->.
  by rewrite bool_decide_eq_true_2.
Qed.

Section Frame.
Variable c : Config.
Hypothesis Hvalid : valid_config c.

Let p := make_params c.
Let cs := cfg_grid_cell_size c.

(** A frame runs to completion from any node that satisfies the
    invariant, provided the fit returns a plane; the outcome is the one
    [frame_outcome] describes, and the node satisfies the invariant
    again. *)
Lemma process_spec (segment : Segmentation) (this : SensorFusion)
    (cloud : list VPoint) :
  node_inv c this -> returns_plane segment ->
  exists this' warned,
    frame_outcome c segment this cloud this' warned /\
    node_inv c this' /\
    forall fuel, (grid_fuel cs (polar_grid_ this') <= fuel)%nat ->
                 process fuel segment this cloud = Ok (this', warned).
Proof.
  intros [Hparams Hlen] Hplane.
  pose proof (segs_pos c Hvalid) as Hsegs.
  pose proof (grid_bins_pos c Hvalid) as Hbins. fold p in Hbins.
  destruct (bin_points_spec c Hvalid cloud) as (inl & g0 & Hbin & Hb & Hex).
  fold p in Hbin, Hb, Hex.
  pose proof (binned_stats_ready p cloud g0 Hb) as Hstats.
  destruct Hb as [Hdims0 Hcells0].
  destruct (ground_plane_candidates_ok p g0 Hdims0 Hstats) as [cands Hcands];
    [simpl; lia | lia |].
  destruct (segment (ransac_tolerance p) (ransac_iterations p) cands)
    as [fit_inliers values] eqn:Hfit.
  assert (Hvalues : (4 <= length values)%nat).
  { destruct (Hplane (ransac_tolerance p) (ransac_iterations p) cands)
      as [Hfour _].
    by rewrite Hfit in Hfour. }
  destruct (ground_height_check_ok fit_inliers values Hvalues)
    as (gh & warned & Hcheck & Hwarn).
  destruct (sweep_spec p values g0 Hvalues Hdims0 Hstats)
    as (g1 & Hsweep & Hsw);
    [simpl; lia | lia |].
  assert (Hreadys : Forall (cell_ready p g1) (filter (passes_gate p) cloud)).
  { apply Forall_forall. intros pt Hpt.
    by apply (filtered_cell_ready c Hvalid cloud values g0 g1 pt). }
  pose proof (divide_points_spec p g1 _ [] [] Hreadys) as Hdiv.
  pose proof (swept_raster_ready p values g0 g1 Hsw) as Hrr.
  destruct Hsw as [Hdims1 Hcells1].
  destruct (rasterize_spec c Hvalid g1 Hdims1 Hrr (grid_fuel cs g1)
              (le_n _) (data (occ_grid_ this)) Hlen)
    as (r & Hras & Hlenr & Hwritten & Hframe & Hvox).
  fold p in Hras, Hlenr, Hwritten, Hframe, Hvox.
  exists {| params_ := p;
            polar_grid_ := g1;
            occ_grid_ :=
              {| data := r_data r;
                 info_width := info_width (occ_grid_ this);
                 info_height := info_height (occ_grid_ this) |};
            pcl_in_ := filter (passes_gate p) cloud;
            pcl_ground_plane_ := cands;
            pcl_ground_ :=
              filter (fun pt => ~ point_elevated p g1 pt)
                     (filter (passes_gate p) cloud);
            pcl_elevated_ :=
              filter (point_elevated p g1) (filter (passes_gate p) cloud);
            pcl_voxel_ground_ := r_voxel_ground r;
            pcl_voxel_elevated_ := r_voxel_elevated r;
            time_frame_ := (time_frame_ this + 1)%Z |}, warned.
  split; [| split].
  - exists g0. cbn [polar_grid_ pcl_ground_plane_ params_ pcl_in_ pcl_ground_
                    pcl_elevated_ occ_grid_ data pcl_voxel_ground_
                    time_frame_].
    fold p. rewrite Hfit. cbn [fst snd].
    split; [done |]. split; [exact Hcands |]. split; [done |].
    split; [exact Hwarn |].
    split; [reflexivity |]. split; [reflexivity |]. split; [exact Hreadys |].
    split; [reflexivity |]. split; [reflexivity |].
    split; [by rewrite Hlenr, Hlen |].
    split; [exact Hwritten |]. split; [exact Hframe |].
    split; [exact Hvox | reflexivity].
  - split; [reflexivity |]. cbn [occ_grid_ data]. exact Hlenr.
  - intros fuel Hfuel. cbn [polar_grid_] in Hfuel.
    unfold process. rewrite Hparams. fold p.
    rewrite Hbin. cbn [mbind Res_bind]. rewrite Hcands. cbn [mbind Res_bind].
    rewrite Hfit, Hcheck. cbn [mbind Res_bind].
    rewrite Hsweep. cbn [mbind Res_bind].
    rewrite Hex, Hdiv. cbn [mbind Res_bind app].
    rewrite (rasterize_mono _ fuel _ _ _ _ Hfuel Hras). cbn [mbind Res_bind].
    reflexivity.
Qed.
End Frame.

(** ** The constructor *)

Section Constructor.
Variable c : Config.
Hypothesis Hvalid : valid_config c.

Let p := make_params c.
Let size := Z.to_nat (grid_width p * grid_height p).

Lemma init_occ_row_spec (j : Z) (d : list Z) :
  (0 <= j < grid_height p)%Z -> length d = size ->
  exists d',
    init_occ_row p j d = Ok d' /\ length d' = size /\
    (forall i, (0 <= i < grid_width p)%Z -> boundary p j i ->
               d' !! cell_index p j i = Some (-1)%Z) /\
    (forall k, (forall i, (0 <= i < grid_width p)%Z -> boundary p j i ->
                          k <> cell_index p j i) ->
               d' !! k = d !! k).
Proof.
  intros Hj Hlen.
  assert (Hwd : grid_width p = (grid_height p * 2)%Z) by done.
  pose (body := fun (i : Z) (d : list Z) =>
    if decide (i < j \/ i >= grid_width p - j)%Z
    then vec_set d (j * grid_width p + i)%Z (-1)%Z else Ok d).
  pose (Inv := fun (i : Z) (d1 : list Z) =>
    length d1 = size /\
    (forall i', (0 <= i' < i)%Z -> boundary p j i' ->
                d1 !! cell_index p j i' = Some (-1)%Z) /\
    (forall k, (forall i', (0 <= i' < i)%Z -> boundary p j i' ->
                           k <> cell_index p j i') ->
               d1 !! k = d !! k)).
  destruct (for_range_inv Inv body 0 (grid_width p) d)
    as (d' & Hloop & Hlen' & Hset & Hframe).
  - lia.
  - split; [done |]. split; [intros i' Hi'; lia | done].
  - intros i d1 Hi (Hlen1 & Hset1 & Hf1). unfold body.
    destruct (decide (i < j \/ i >= grid_width p - j)%Z) as [Hb | Hb].
    + rewrite vec_set_Ok by (rewrite Hlen1; unfold size; nia).
      eexists. split; [done |]. split; [by rewrite length_insert |]. split.
      * intros i' Hi' Hb'. destruct (decide (i' = i)) as [-> | Hne].
        -- apply list_lookup_insert_eq. rewrite Hlen1. unfold size. nia.
        -- rewrite list_lookup_insert_ne; [apply Hset1; [lia | done] |].
           intros Heq. apply cell_index_inj in Heq as [_ ?]; lia.
      * intros k Hk. rewrite list_lookup_insert_ne.
        -- apply Hf1. intros i' Hi'. apply Hk. lia.
        -- intros Heq. symmetry in Heq. revert Heq. apply Hk; [lia | done].
    + exists d1. split; [done |]. split; [done |]. split.
      * intros i' Hi' Hb'. apply Hset1; [| done].
        destruct (decide (i' = i)) as [-> | Hne]; [done | lia].
      * intros k Hk. apply Hf1. intros i' Hi'. apply Hk. lia.
  - by exists d'.
Qed.

Lemma init_occ_data_spec (d : list Z) :
  length d = size ->
  exists d',
    init_occ_data p d = Ok d' /\ length d' = size /\
    (forall j i, (0 <= j < grid_height p)%Z -> (0 <= i < grid_width p)%Z ->
                 boundary p j i -> d' !! cell_index p j i = Some (-1)%Z).
Proof.
  intros Hlen.
  pose (Inv := fun (j : Z) (d1 : list Z) =>
    length d1 = size /\
    (forall j' i, (0 <= j' < j)%Z -> (0 <= i < grid_width p)%Z ->
                  boundary p j' i -> d1 !! cell_index p j' i = Some (-1)%Z)).
  destruct (for_range_inv Inv (init_occ_row p) 0 (grid_height p) d)
    as (d' & Hloop & Hlen' & Hset).
  - apply (grid_height_nonneg c Hvalid).
  - split; [done |]. intros j' i Hj'. lia.
  - intros j d1 Hj (Hlen1 & Hset1).
    destruct (init_occ_row_spec j d1 Hj Hlen1)
      as (d2 & Hrow & Hlen2 & Hset2 & Hf2).
    exists d2. split; [done |]. split; [done |].
    intros j' i Hj' Hi Hb. destruct (decide (j' = j)) as [-> | Hne].
    + by apply Hset2.
    + rewrite Hf2; [apply Hset1; [lia | done | done] |].
      intros i' Hi' _ Heq. apply cell_index_inj in Heq as [? _]; lia.
  - exists d'. split; [done |]. split; [done |]. done.
Qed.

(** The constructor completes: the node satisfies the invariant and
    the cells outside the footprint hold -1. *)
Lemma SensorFusion_new_spec :
  exists this,
    SensorFusion_new c = Ok this /\ node_inv c this /\
    forall j i, (0 <= j < grid_height p)%Z -> (0 <= i < grid_width p)%Z ->
                boundary p j i ->
                data (occ_grid_ this) !! cell_index p j i = Some (-1)%Z.
Proof.
  destruct (init_occ_data_spec (replicate size 0%Z))
    as (d & Hinit & Hlen & Hset); [apply length_replicate |].
  eexists. unfold SensorFusion_new. fold p size. rewrite Hinit.
  cbn [mbind Res_bind]. split; [reflexivity |]. split; [| exact Hset].
  split; [reflexivity | exact Hlen].
Qed.
End Constructor.

(** ** Frame after frame *)

Section Run.
Variable c : Config.
Hypothesis Hvalid : valid_config c.

Let p := make_params c.

(** Any number of frames run to completion; the parameters and the
    raster cells outside the footprint are as before. *)
Lemma run_spec (frames : list Frame) :
  Forall (fun f => returns_plane (f_segment f)) frames ->
  forall this, node_inv c this ->
  exists n0 this',
    (forall fuel, (n0 <= fuel)%nat -> run fuel this frames = Ok this') /\
    node_inv c this' /\
    forall k, (forall j i, in_footprint p j i -> k <> cell_index p j i) ->
              data (occ_grid_ this') !! k = data (occ_grid_ this) !! k.
Proof.
  induction 1 as [| f frames Hf _ IH]; intros this Hinv.
  - exists O, this. split; [done |]. split; done.
  - destruct (process_spec c Hvalid (f_segment f) this (f_cloud f) Hinv Hf)
      as (this1 & warned & Hout & Hinv1 & Hproc).
    destruct (IH this1 Hinv1) as (n2 & this' & Hrun & Hinv' & Hkeep).
    set (n1 := grid_fuel (cfg_grid_cell_size c) (polar_grid_ this1)) in *.
    exists (n1 `max` n2)%nat, this'. split; [| split; [done |]].
    + intros fuel Hfuel. cbn [run].
      rewrite Hproc by lia. cbn [mbind Res_bind fst]. apply Hrun. lia.
    + intros k Hk. rewrite Hkeep by done.
      destruct Hout as (g0 & Hout). fold p in Hout.
      by apply Hout.
Qed.
End Run.

(** * Stages that complete

    The properties of this part are about a stage, a frame or a run that
    has completed, whatever the parameters of the node: they take no stand
    on whether it completes.  The lookups of the code are unchecked; a
    stage of the model completes when every index it computed was in the
    grid. *)

(** The rule of the [for] loop for a loop that is known to complete. *)
Lemma for_loop_partial {St} (Inv : Z -> St -> Prop)
    (body : Z -> St -> Res St) (n : nat) :
  forall (lo : Z) (s s' : St),
    Inv lo s ->
    (forall i t t', (lo <= i < lo + Z.of_nat n)%Z -> Inv i t ->
                    body i t = Ok t' -> Inv (i + 1)%Z t') ->
    for_loop n lo body s = Ok s' -> Inv (lo + Z.of_nat n)%Z s'.
Proof.
  induction n as [| n IH]; intros lo s s' H0 Hstep Hl.
  - injection Hl as <-. by replace (lo + Z.of_nat 0)%Z with lo by lia.
  - cbn [for_loop] in Hl. apply bind_Ok in Hl as (s1 & Hb & Hl).
    replace (lo + Z.of_nat (S n))%Z with (lo + 1 + Z.of_nat n)%Z by lia.
    apply (IH (lo + 1)%Z s1 s'); [| | done].
    + apply (Hstep lo s s1); [lia | done | done].
    + intros i t t' Hi. apply Hstep. lia.
Qed.

Lemma for_range_partial {St} (Inv : Z -> St -> Prop)
    (body : Z -> St -> Res St) (lo hi : Z) (s s' : St) :
  (lo <= hi)%Z ->
  Inv lo s ->
  (forall i t t', (lo <= i < hi)%Z -> Inv i t ->
                  body i t = Ok t' -> Inv (i + 1)%Z t') ->
  for_range lo hi body s = Ok s' -> Inv hi s'.
Proof.
  intros Hle H0 Hstep Hl. unfold for_range in Hl.
  replace hi with (lo + Z.of_nat (Z.to_nat (hi - lo)))%Z at 1 by lia.
  apply (for_loop_partial Inv body _ lo s s'); [done | | done].
  intros i t t' Hi. apply Hstep. lia.
Qed.

Lemma for_range_empty {St} (body : Z -> St -> Res St) (lo hi : Z) (s : St) :
  (hi <= lo)%Z -> for_range lo hi body s = Ok s.
Proof.
  intros Hle. unfold for_range.
  by replace (Z.to_nat (hi - lo)) with O by lia.
Qed.

Lemma filter_Forall_id {A} (P : A -> Prop) `{!forall x, Decision (P x)}
    (l : list A) :
  Forall P l -> filter P l = l.
Proof.
  induction 1 as [| x l Hx _ IH]; [done |].
  rewrite filter_cons_True by done. by f_equal.
Qed.

Lemma filter_Forall_nil {A} (P : A -> Prop) `{!forall x, Decision (P x)}
    (l : list A) :
  Forall (fun x => ~ P x) l -> filter P l = [].
Proof.
  induction 1 as [| x l Hx _ IH]; [done |].
  by rewrite filter_cons_False.
Qed.

(** ** Binning that completes *)

(** Whatever the parameters, when the first stage completes its indices
    select the gated points. *)
Lemma bin_points_selects (p : Parameters) (cloud pre : list VPoint)
    (inl inl' : list nat) (grid grid' : Grid) :
  selects p pre inl ->
  bin_points p (length pre) cloud (inl, grid) = Ok (inl', grid') ->
  selects p (pre ++ cloud) inl'.
Proof.
  revert pre inl grid.
  induction cloud as [| pt cloud IH]; intros pre inl grid Hs Hb.
  - injection Hb as <- <-. by rewrite app_nil_r.
  - cbn [bin_points] in Hb. apply bind_Ok in Hb as ([inl1 grid1] & Hstep & Hb).
    assert (Hinl1 : inl1 = if decide (passes_gate p pt)
                           then inl ++ [length pre] else inl).
    { rewrite bin_point_gate in Hstep.
      destruct (decide (passes_gate p pt)); [| by injection Hstep as <- _].
      apply bind_Ok in Hstep as (? & _ & Hstep).
      apply bind_Ok in Hstep as (? & _ & Hstep).
      apply bind_Ok in Hstep as (? & _ & Hstep).
      by injection Hstep as <- _. }
    pose proof (selects_snoc p pre inl pt Hs) as Hs1. rewrite <- Hinl1 in Hs1.
    rewrite (app_assoc pre [pt] cloud : pre ++ pt :: cloud = _).
    apply (IH (pre ++ [pt]) inl1 grid1 Hs1).
    rewrite length_app. simpl.
    by replace (length pre + 1)%nat with (S (length pre)) by lia.
Qed.

Lemma binned_fresh (p : Parameters) : binned p [] (new_polar_grid p).
Proof.
  split; [apply new_polar_grid_dims |].
  intros s b Hs Hb.
  destruct (grid_get_in_range _ _ _ s b (new_polar_grid_dims p) Hs Hb)
    as [cell Hget].
  exists cell. split; [done |].
  apply new_polar_grid_get in Hget as ->.
  by repeat split.
Qed.

(** A point that was binned found its cell in the grid. *)
Lemma bin_point_complete (p : Parameters) (pre : list VPoint) (i : nat)
    (pt : VPoint) (inl inl' : list nat) (grid grid' : Grid) :
  binned p pre grid ->
  bin_point p i pt (inl, grid) = Ok (inl', grid') ->
  binned p (pre ++ [pt]) grid' /\
  (passes_gate p pt ->
   (0 <= (cell_of p pt).1 < grid_segments p)%Z /\
   (0 <= (cell_of p pt).2 < grid_bins p)%Z).
Proof.
  intros [Hdims Hcells] Hstep. rewrite bin_point_gate in Hstep.
  destruct (decide (passes_gate p pt)) as [Hg | Hg].
  - apply bind_Ok in Hstep as (cell & Hget & Hstep).
    apply bind_Ok in Hstep as (cell' & Hup & Hstep).
    apply bind_Ok in Hstep as (grid1 & Hset & [= <- <-]).
    destruct (grid_get_bound _ _ _ _ _ _ Hdims Hget) as [Hs Hb].
    split; [| done].
    destruct (cell_of p pt) as [s b] eqn:Hcell. cbn [fst snd] in *.
    destruct (Hcells s b Hs Hb) as (cell0 & Hget0 & Hstats).
    rewrite Hget in Hget0. injection Hget0 as <-.
    destruct (update_cell_stats _ _ pt Hstats) as (cell'' & Hup' & Hstats').
    rewrite Hup in Hup'. injection Hup' as <-.
    destruct (grid_set_spec grid s b cell cell' Hget)
      as (grid'' & Hset' & Hget' & Hother & Hdims').
    rewrite Hset in Hset'. injection Hset' as <-.
    split; [by apply Hdims' |].
    intros s' b' Hs' Hb'. rewrite routed_snoc.
    destruct (decide ((s', b') = (s, b))) as [[= -> ->] | Hne].
    + exists cell'. split; [done |].
      rewrite decide_True; [done | by rewrite Hcell].
    + rewrite decide_False, app_nil_r;
        [| rewrite Hcell; intros [_ Heq]; congruence].
      rewrite Hother by done. by apply Hcells.
  - injection Hstep as <- <-. split; [| done]. split; [done |].
    intros s b Hs Hb. rewrite routed_snoc.
    rewrite decide_False, app_nil_r by tauto. by apply Hcells.
Qed.

Lemma bin_points_complete_from (p : Parameters) (cloud pre : list VPoint)
    (i : nat) (inl inl' : list nat) (grid grid' : Grid) :
  binned p pre grid ->
  bin_points p i cloud (inl, grid) = Ok (inl', grid') ->
  binned p (pre ++ cloud) grid' /\
  forall pt, pt ∈ cloud -> passes_gate p pt ->
             (0 <= (cell_of p pt).1 < grid_segments p)%Z /\
             (0 <= (cell_of p pt).2 < grid_bins p)%Z.
Proof.
  revert pre i inl grid.
  induction cloud as [| pt cloud IH]; intros pre i inl grid Hb Hrun.
  - injection Hrun as <- <-. rewrite app_nil_r. split; [done |].
    by intros pt ?%elem_of_nil.
  - cbn [bin_points] in Hrun.
    apply bind_Ok in Hrun as ([inl1 grid1] & Hstep & Hrun).
    destruct (bin_point_complete p pre i pt inl inl1 grid grid1 Hb Hstep)
      as [Hb1 Hin].
    destruct (IH (pre ++ [pt]) (S i) inl1 grid1 Hb1 Hrun) as [Hb' Hall].
    rewrite <- app_assoc in Hb'. split; [done |].
    intros q [-> | Hq]%elem_of_cons; [done | by apply Hall].
Qed.

(** The binning stage, when it completes: the grid holds the statistics
    of the gated points, the indices select them, and each of them was
    routed to a cell of the grid. *)
Lemma bin_points_complete (p : Parameters) (cloud : list VPoint)
    (inl : list nat) (g : Grid) :
  bin_points p 0 cloud ([], new_polar_grid p) = Ok (inl, g) ->
  binned p cloud g /\
  extract_indices cloud inl = filter (passes_gate p) cloud /\
  forall pt, pt ∈ cloud -> passes_gate p pt ->
             (0 <= (cell_of p pt).1 < grid_segments p)%Z /\
             (0 <= (cell_of p pt).2 < grid_bins p)%Z.
Proof.
  intros Hrun.
  destruct (bin_points_complete_from p cloud [] 0 [] inl _ g (binned_fresh p)
              Hrun) as [Hb Hin].
  split; [done |]. split; [| done].
  apply (bin_points_selects p cloud [] [] inl _ g) in Hrun; [| by split].
  apply Hrun.
Qed.

(** ** A sweep that completes *)

(** On a grid with a cell, the sweep reads the four plane coefficients. *)
Lemma sweep_needs_plane (p : Parameters) (values : list R) (g0 g1 : Grid) :
  sweep p values g0 = Ok g1 ->
  (1 <= grid_segments p)%Z -> (1 <= grid_bins p)%Z ->
  (4 <= length values)%nat.
Proof.
  unfold sweep, for_range. intros Hsweep Hs Hb.
  destruct (Z.to_nat (grid_segments p - 0)) as [| n] eqn:Hn; [lia |].
  cbn [for_loop] in Hsweep. apply bind_Ok in Hsweep as (g' & Hseg & _).
  unfold sweep_segment, for_range in Hseg.
  apply bind_Ok in Hseg as (st & Hloop & _).
  destruct (Z.to_nat (grid_bins p - 0)) as [| m] eqn:Hm; [lia |].
  cbn [for_loop] in Hloop. apply bind_Ok in Hloop as (st1 & Hbin & _).
  unfold sweep_bin in Hbin.
  apply bind_Ok in Hbin as (cell & _ & Hbin).
  destruct (fromPolarCellToVeloCoords p 0 0) as [x y].
  apply bind_Ok in Hbin as (v0 & _ & Hbin).
  apply bind_Ok in Hbin as (v1 & _ & Hbin).
  apply bind_Ok in Hbin as (v3 & Hv3 & _).
  apply vec_get_Ok in Hv3 as [_ Hv3].
  apply lookup_lt_Some in Hv3. change (Z.to_nat 3) with 3%nat in Hv3. lia.
Qed.

(** The sweep, when it completes on a grid with readable statistics. *)
Lemma sweep_complete (p : Parameters) (values : list R) (g0 g1 : Grid) :
  sweep p values g0 = Ok g1 ->
  grid_dims g0 (grid_segments p) (grid_bins p) -> stats_ready g0 ->
  (4 <= length values)%nat ->
  swept p values g0 g1.
Proof.
  intros Hsweep Hdims Hready Hlen.
  destruct (decide (0 <= grid_segments p)%Z) as [Hs | Hs].
  - destruct (decide (0 <= grid_bins p)%Z) as [Hb | Hb].
    + destruct (sweep_spec p values g0 Hlen Hdims Hready Hs Hb)
        as (g1' & Hsweep' & Hsw).
      rewrite Hsweep in Hsweep'. by injection Hsweep' as <-.
    + assert (Hsame : g1 = g0).
      { unfold sweep in Hsweep.
        apply (for_range_partial (fun _ g => g = g0) (sweep_segment p values)
                 0 (grid_segments p) g0 g1); [done | done | | done].
        intros s g g' _ -> Hseg. unfold sweep_segment in Hseg.
        rewrite for_range_empty in Hseg by lia. by injection Hseg as <-. }
      subst g1. split; [done |]. intros s b _ Hb'. lia.
  - assert (Hsame : g1 = g0).
    { unfold sweep in Hsweep. rewrite for_range_empty in Hsweep by lia.
      by injection Hsweep as <-. }
    subst g1. split; [done |]. intros s b Hs'. lia.
Qed.

(** ** The cell of a filtered point after the sweep *)

Lemma gated_cell_ready (p : Parameters) (cloud : list VPoint)
    (values : list R) (g0 g1 : Grid) (pt : VPoint) :
  binned p cloud g0 -> swept p values g0 g1 ->
  pt ∈ filter (passes_gate p) cloud ->
  (0 <= (cell_of p pt).1 < grid_segments p)%Z ->
  (0 <= (cell_of p pt).2 < grid_bins p)%Z ->
  cell_ready p g1 pt /\
  pt ∈ routed p cloud (cell_of p pt).1 (cell_of p pt).2 /\
  exists cell,
    grid_get g1 (cell_of p pt).1 (cell_of p pt).2 = Ok cell /\
    PolarCell.count cell
    = Z.of_nat (length (routed p cloud (cell_of p pt).1 (cell_of p pt).2)).
Proof.
  intros [_ Hbin] [_ Hsw] Hpt Hs Hb.
  assert (Hrouted : pt ∈ routed p cloud (cell_of p pt).1 (cell_of p pt).2).
  { unfold routed. apply list_elem_of_filter. split; [| done].
    by destruct (cell_of p pt). }
  destruct (Hbin _ _ Hs Hb) as (c0 & Hget0 & Hst).
  destruct (Hsw _ _ Hs Hb) as (c0' & c1 & Hget0' & Hget1 & Hcell).
  rewrite Hget0 in Hget0'. injection Hget0' as <-.
  destruct Hst as (Hcount & _).
  assert (Hpos : (1 <= PolarCell.count c0)%Z).
  { rewrite Hcount. destruct (routed p cloud _ _); [| simpl; lia].
    by apply elem_of_nil in Hrouted. }
  destruct Hcell as (Hc1 & _ & _ & _ & _ & Hgr & _ & Hh & _).
  destruct Hh as (zmax & _ & Hh); [lia |].
  split; [| split; [done |]].
  - exists c1, (ground_at p values (cell_of p pt).1 (cell_of p pt).2),
      (zmax - ground_at p values (cell_of p pt).1 (cell_of p pt).2).
    repeat split; try done; lia.
  - exists c1. split; [done |]. by rewrite Hc1.
Qed.

(** ** A partition that completes *)

Lemma divide_point_complete (p : Parameters) (g : Grid) (pt : VPoint)
    (gnd elv gnd' elv' : list VPoint) :
  divide_point p g pt (gnd, elv) = Ok (gnd', elv') ->
  (point_elevated p g pt /\ gnd' = gnd /\ elv' = elv ++ [pt]) \/
  (~ point_elevated p g pt /\ gnd' = gnd ++ [pt] /\ elv' = elv).
Proof.
  unfold divide_point, point_elevated, cell_of.
  destruct (fromVeloCoordsToPolarCell p (px pt) (py pt)) as [s b].
  cbn [fst snd].
  intros (cell & Hget & H)%bind_Ok. rewrite Hget.
  apply bind_Ok in H as (e & He & H). unfold is_elevated in He.
  apply bind_Ok in He as (gr & Hgr & He).
  destruct (PolarCell.ground cell) as [gr' |]; [| done].
  injection Hgr as ->.
  destruct (decide (pz pt > gr)) as [Hz | Hz].
  - apply bind_Ok in He as (h & Hh & [= <-]).
    destruct (PolarCell.height cell) as [h' |]; [| done].
    injection Hh as ->.
    destruct (decide (h > grid_min_height p)) as [Hhigh | Hlow].
    + rewrite bool_decide_eq_true_2 in H by done. injection H as <- <-.
      by left.
    + rewrite bool_decide_eq_false_2 in H by done. injection H as <- <-.
      right. split; [tauto | done].
  - injection He as <-. injection H as <- <-.
    right. split; [| done]. destruct (PolarCell.height cell); tauto.
Qed.

Lemma divide_points_complete (p : Parameters) (g : Grid)
    (pts : list VPoint) :
  forall gnd elv gnd' elv',
    divide_points p g pts (gnd, elv) = Ok (gnd', elv') ->
    gnd' = gnd ++ filter (fun pt => ~ point_elevated p g pt) pts /\
    elv' = elv ++ filter (point_elevated p g) pts.
Proof.
  induction pts as [| pt pts IH]; intros gnd elv gnd' elv' Hdiv.
  - injection Hdiv as <- <-. by rewrite !app_nil_r.
  - cbn [divide_points] in Hdiv.
    apply bind_Ok in Hdiv as ([gnd1 elv1] & Hpt & Hdiv).
    apply divide_point_complete in Hpt. apply IH in Hdiv as [-> ->].
    destruct Hpt as [(He & -> & ->) | (He & -> & ->)].
    + rewrite filter_cons_False by tauto. rewrite filter_cons_True by done.
      by rewrite <- app_assoc.
    + rewrite filter_cons_True by done. rewrite filter_cons_False by done.
      by rewrite <- app_assoc.
Qed.

(** ** A raster walk that completes *)

Lemma voxel_column_complete (p : Parameters) (x y zmax : R) (fuel : nat) :
  forall (v : R) (acc acc' : list VPoint),
    voxel_column fuel p x y zmax v acc = Ok acc' ->
    exists col,
      acc' = acc ++ col /\
      Forall (fun q => px q = x /\ py q = y /\ pz q < zmax /\
                       (0 <= grid_cell_size p -> v <= pz q)) col /\
      (v < zmax -> mkVPoint x y v ∈ col).
Proof.
  induction fuel as [| fuel IH]; intros v acc acc' Hv; simpl in Hv.
  - destruct (decide (v < zmax)); [done |]. injection Hv as <-.
    exists []. rewrite app_nil_r. split; [done |]. split; [constructor | done].
  - destruct (decide (v < zmax)) as [Hlt | Hge].
    + apply IH in Hv as (col & -> & Hcol & _).
      exists (mkVPoint x y v :: col). split; [by rewrite <- app_assoc |].
      split; [| intros _; apply list_elem_of_here].
      constructor.
      * simpl. repeat split; [done | lra].
      * eapply Forall_impl; [exact Hcol |].
        intros q (Hx & Hy & Hz & Hq). repeat split; try done.
        intros Hcs. specialize (Hq Hcs). lra.
    + injection Hv as <-. exists []. rewrite app_nil_r.
      split; [done |]. split; [constructor | done].
Qed.

(** What one raster cell does, when its lookup is in the grid. *)
Lemma raster_cell_complete (fuel : nat) (p : Parameters) (grid : Grid)
    (x : R) (j i : Z) (y y' : R) (r r' : Raster) :
  raster_cell fuel p grid x j i (y, r) = Ok (y', r') ->
  exists cell gr col,
    grid_get grid (fromVeloCoordsToPolarCell p x y).1
                  (fromVeloCoordsToPolarCell p x y).2 = Ok cell /\
    PolarCell.ground cell = Some gr /\
    (0 <= j * grid_width p + i < Z.of_nat (length (r_data r)))%Z /\
    r_data r'
    = <[Z.to_nat (j * grid_width p + i)
        := raster_value (PolarCell.idx cell)]> (r_data r) /\
    r_voxel_ground r' = r_voxel_ground r ++ [mkVPoint x y gr] /\
    r_voxel_elevated r' = r_voxel_elevated r ++ col /\
    Forall (fun q =>
              px q = x /\ py q = y /\
              PolarCell.idx cell <> FREE /\ PolarCell.idx cell <> UNKNOWN /\
              exists zmax, PolarCell.z_max cell = Some zmax /\
                           pz q < zmax /\
                           (0 <= grid_cell_size p -> gr <= pz q)) col /\
    (PolarCell.idx cell <> FREE -> PolarCell.idx cell <> UNKNOWN ->
     exists zmax, PolarCell.z_max cell = Some zmax /\
                  (gr < zmax -> mkVPoint x y gr ∈ col)).
Proof.
  unfold raster_cell.
  destruct (fromVeloCoordsToPolarCell p x y) as [seg bin]. cbn [fst snd].
  intros (cell & Hget & H1)%bind_Ok.
  apply bind_Ok in H1 as (gr & Hgr & H1).
  apply bind_Ok in H1 as (r1 & Hr1 & [= <- <-]).
  destruct (PolarCell.ground cell) as [gr' |] eqn:Hground; [| done].
  injection Hgr as ->.
  assert (Hset : forall v d',
            vec_set (r_data r) (j * grid_width p + i) v = Ok d' ->
            (0 <= j * grid_width p + i < Z.of_nat (length (r_data r)))%Z /\
            d' = <[Z.to_nat (j * grid_width p + i) := v]> (r_data r)).
  { intros v d'. unfold vec_set.
    destruct (decide (0 <= j * grid_width p + i
                      < Z.of_nat (length (r_data r)))%Z); [| done].
    by intros [= <-]. }
  destruct (decide (PolarCell.idx cell = FREE)) as [Hl | Hl1].
  { apply bind_Ok in Hr1 as (d' & [Hidx ->]%Hset & [= <-]).
    exists cell, gr, []. rewrite Hl, app_nil_r.
    do 6 (split; [done |]). split; [constructor | done]. }
  destruct (decide (PolarCell.idx cell = UNKNOWN)) as [Hl | Hl2].
  { apply bind_Ok in Hr1 as (d' & [Hidx ->]%Hset & [= <-]).
    exists cell, gr, []. rewrite Hl, app_nil_r.
    do 6 (split; [done |]). split; [constructor | done]. }
  apply bind_Ok in Hr1 as (d' & [Hidx ->]%Hset & Hr1).
  apply bind_Ok in Hr1 as (zmax & Hz & Hr1).
  apply bind_Ok in Hr1 as (ve & Hve & [= <-]).
  destruct (PolarCell.z_max cell) as [zmax' |] eqn:Hzmax; [| done].
  injection Hz as ->.
  apply voxel_column_complete in Hve as (col & -> & Hcol & Hfoot).
  exists cell, gr, col. cbn [r_data r_voxel_ground r_voxel_elevated].
  split; [done |]. split; [done |]. split; [done |]. split.
  { f_equal. by destruct (PolarCell.idx cell). }
  split; [done |]. split; [done |]. split; [| by exists zmax].
  eapply Forall_impl; [exact Hcol |].
  intros q (Hx & Hy & Hlt & Hge). repeat split; try done. by exists zmax.
Qed.

Section WalkCompletes.
Variable a : WalkArith.
Variable fuel : nat.
Variable p : Parameters.
Variable grid : Grid.

(** A row of the walk. *)
Lemma raster_row_in_complete (j : Z) (x' : walk_num a) (r r' : Raster) :
  (0 <= j)%Z ->
  raster_row_in a fuel p grid j (walk_x a j, r) = Ok (x', r') ->
  x' = walk_x a (j + 1) /\
  length (r_data r') = length (r_data r) /\
  (forall k, (forall i, (j <= i < grid_width p - j)%Z ->
                        k <> cell_index p j i) ->
             r_data r' !! k = r_data r !! k) /\
  (forall i, (j <= i < grid_width p - j)%Z ->
             walked a p grid (r_data r') (r_voxel_ground r')
                    (r_voxel_elevated r') j i) /\
  (forall q, q ∈ r_voxel_ground r -> q ∈ r_voxel_ground r') /\
  (forall q, q ∈ r_voxel_elevated r -> q ∈ r_voxel_elevated r') /\
  Z.of_nat (length (r_voxel_ground r'))
  = (Z.of_nat (length (r_voxel_ground r))
     + Z.max 0 (grid_width p - 2 * j))%Z /\
  (forall q, q ∈ r_voxel_ground r' ->
             q ∈ r_voxel_ground r \/ ground_voxel_of p grid q) /\
  (forall q, q ∈ r_voxel_elevated r' ->
             q ∈ r_voxel_elevated r \/ elevated_voxel_of p grid q).
Proof.
  intros Hj. unfold raster_row_in.
  intros (yr & Hloop & [= <- <-])%bind_Ok.
  assert (Hx' : walk_next a (walk_x a j) = walk_x a (j + 1)).
  { unfold walk_x. by replace (Z.to_nat (j + 1)) with (S (Z.to_nat j)) by lia. }
  split; [done |].
  destruct (decide (j <= grid_width p - j)%Z) as [Hle | Hgt]; cycle 1.
  { rewrite for_range_empty in Hloop by lia. injection Hloop as <-.
    cbn [snd]. split; [done |]. split; [done |].
    split; [intros i Hi; lia |]. split; [done |]. split; [done |].
    split; [lia |]. split; intros q Hq; by left. }
  pose (Inv := fun (i : Z) (st : walk_num a * Raster) =>
    st.1 = walk_y a j i /\
    length (r_data st.2) = length (r_data r) /\
    (forall k, (forall i', (j <= i' < i)%Z -> k <> cell_index p j i') ->
               r_data st.2 !! k = r_data r !! k) /\
    (forall i', (j <= i' < i)%Z ->
                walked a p grid (r_data st.2) (r_voxel_ground st.2)
                       (r_voxel_elevated st.2) j i') /\
    (forall q, q ∈ r_voxel_ground r -> q ∈ r_voxel_ground st.2) /\
    (forall q, q ∈ r_voxel_elevated r -> q ∈ r_voxel_elevated st.2) /\
    Z.of_nat (length (r_voxel_ground st.2))
    = (Z.of_nat (length (r_voxel_ground r)) + (i - j))%Z /\
    (forall q, q ∈ r_voxel_ground st.2 ->
               q ∈ r_voxel_ground r \/ ground_voxel_of p grid q) /\
    (forall q, q ∈ r_voxel_elevated st.2 ->
               q ∈ r_voxel_elevated r \/ elevated_voxel_of p grid q)).
  assert (HInv : Inv (grid_width p - j)%Z yr).
  { apply (for_range_partial Inv (raster_cell_in a fuel p grid (walk_x a j) j)
             j (grid_width p - j) (walk_x a j, r) yr); [done | | | done].
    - unfold Inv. cbn [fst snd].
      split; [unfold walk_y; by replace (j - j)%Z with 0%Z by lia |].
      split; [done |]. split; [done |].
      split; [intros i' Hi'; lia |]. split; [done |]. split; [done |].
      split; [lia |]. split; intros q Hq; by left.
    - intros i [y r1] [y' r2]. unfold Inv. cbn [fst snd].
      intros Hi (Hy & Hlen & Hframe & Hw & Hkeep & Hkeepe & Hcount & Hvg
                 & Hve) Hcell.
      unfold raster_cell_in in Hcell.
      apply bind_Ok in Hcell as ([y1 r3] & Hcell & [= <- <-]).
      apply raster_cell_complete in Hcell
        as (cell & gr & col & Hget & Hgr & Hidx & Hd & Hvg2 & Hve2 & Hcol
            & Hfoot).
      cbn [snd] in *. subst y.
      assert (Hq : ground_voxel_of p grid
                     (mkVPoint (walk_R a (walk_x a j))
                               (walk_R a (walk_y a j i)) gr)).
      { exists cell. unfold cell_of. cbn [px py pz]. done. }
      split.
      { unfold walk_y.
        by replace (Z.to_nat (i + 1 - j)) with (S (Z.to_nat (i - j))) by lia. }
      split; [by rewrite Hd, length_insert |]. split.
      { intros k Hk. rewrite Hd, list_lookup_insert_ne.
        - apply Hframe. intros i' Hi'. apply Hk. lia.
        - intros Heq. symmetry in Heq. revert Heq. apply Hk. lia. }
      split.
      { intros i' Hi'. destruct (decide (i' = i)) as [-> | Hne].
        - exists cell, gr. unfold backing_in.
          split; [done |]. split; [done |].
          split; [rewrite Hvg2; apply elem_of_app; right;
                  by apply list_elem_of_singleton |].
          split.
          { rewrite Hd. apply list_lookup_insert_eq. rewrite Hlen in *. lia. }
          intros Hl1 Hl2. destruct (Hfoot Hl1 Hl2) as (zmax & Hz & Hin).
          exists zmax. split; [done |]. intros Hlt.
          rewrite Hve2. apply elem_of_app. right. by apply Hin.
        - destruct (Hw i') as (cell' & gr' & Hget' & Hgr' & Hin & Hv & Hft);
            [lia |].
          exists cell', gr'. split; [done |]. split; [done |].
          split; [rewrite Hvg2; apply elem_of_app; by left |].
          split.
          { rewrite Hd, list_lookup_insert_ne; [done |].
            unfold cell_index. intros Heq.
            assert (0 <= j * grid_width p)%Z by nia. lia. }
          intros Hl1 Hl2. destruct (Hft Hl1 Hl2) as (zmax & Hz & Hin').
          exists zmax. split; [done |]. intros Hlt.
          rewrite Hve2. apply elem_of_app. left. by apply Hin'. }
      split.
      { intros q Hin. rewrite Hvg2. apply elem_of_app. left. by apply Hkeep. }
      split.
      { intros q Hin. rewrite Hve2. apply elem_of_app. left.
        by apply Hkeepe. }
      split; [rewrite Hvg2, length_app; simpl; lia |]. split.
      { intros q. rewrite Hvg2.
        intros [Hin | ->%list_elem_of_singleton]%elem_of_app;
          [by apply Hvg | by right]. }
      intros q. rewrite Hve2. intros [Hin | Hin]%elem_of_app; [by apply Hve |].
      right. rewrite Forall_forall in Hcol.
      destruct (Hcol q Hin) as (Hx & Hy & Hl1 & Hl2 & zmax & Hz & Hlt & Hge).
      exists cell, gr, zmax. unfold cell_of. rewrite Hx, Hy. done. }
  destruct HInv as (_ & Hlen & Hframe & Hw & Hkeep & Hkeepe & Hcount & Hvg
                    & Hve).
  cbn [snd]. split; [done |]. split; [done |]. split; [done |].
  split; [done |]. split; [done |]. split; [lia |]. split; done.
Qed.

(** The whole walk. *)
Lemma rasterize_in_complete (d : list Z) (r : Raster) :
  rasterize_in a fuel p grid d = Ok r ->
  length (r_data r) = length d /\
  (forall k, (forall j i, in_footprint p j i -> k <> cell_index p j i) ->
             r_data r !! k = d !! k) /\
  (forall j i, in_footprint p j i ->
               walked a p grid (r_data r) (r_voxel_ground r)
                      (r_voxel_elevated r) j i) /\
  (grid_width p = (2 * grid_height p)%Z -> (0 <= grid_height p)%Z ->
   Z.of_nat (length (r_voxel_ground r))
   = (grid_height p * (grid_height p + 1))%Z) /\
  (forall q, q ∈ r_voxel_ground r -> ground_voxel_of p grid q) /\
  (forall q, q ∈ r_voxel_elevated r -> elevated_voxel_of p grid q).
Proof.
  unfold rasterize_in. intros (xr & Hloop & [= <-])%bind_Ok.
  destruct (decide (0 <= grid_height p)%Z) as [Hh | Hh]; cycle 1.
  { rewrite for_range_empty in Hloop by lia. injection Hloop as <-.
    cbn [snd r_data r_voxel_ground r_voxel_elevated].
    split; [done |]. split; [done |].
    split; [intros j i [Hj _]; lia |]. split; [intros _ ?; lia |].
    split; intros q ?%elem_of_nil; done. }
  pose (Inv := fun (j : Z) (st : walk_num a * Raster) =>
    st.1 = walk_x a j /\
    length (r_data st.2) = length d /\
    (forall k, (forall j' i, (0 <= j' < j)%Z ->
                             (j' <= i < grid_width p - j')%Z ->
                             k <> cell_index p j' i) ->
               r_data st.2 !! k = d !! k) /\
    (forall j' i, (0 <= j' < j)%Z -> (j' <= i < grid_width p - j')%Z ->
                  walked a p grid (r_data st.2) (r_voxel_ground st.2)
                         (r_voxel_elevated st.2) j' i) /\
    (grid_width p = (2 * grid_height p)%Z ->
     Z.of_nat (length (r_voxel_ground st.2))
     = (j * (grid_width p - j + 1))%Z) /\
    (forall q, q ∈ r_voxel_ground st.2 -> ground_voxel_of p grid q) /\
    (forall q, q ∈ r_voxel_elevated st.2 -> elevated_voxel_of p grid q)).
  assert (HInv : Inv (grid_height p) xr).
  { apply (for_range_partial Inv (raster_row_in a fuel p grid) 0
             (grid_height p) (walk_start a, mkRaster d [] []) xr);
      [done | | | done].
    - unfold Inv. cbn [fst snd r_data r_voxel_ground r_voxel_elevated].
      split; [done |]. split; [done |]. split; [done |].
      split; [intros j' i Hj'; lia |]. split; [intros _; simpl; lia |].
      split; intros q ?%elem_of_nil; done.
    - intros j [x r1] [x' r2]. unfold Inv. cbn [fst snd].
      intros Hj (Hx & Hlen & Hframe & Hw & Hcount & Hvg & Hve) Hrow.
      subst x.
      apply raster_row_in_complete in Hrow
        as (Hx' & Hlen2 & Hframe2 & Hw2 & Hkeep2 & Hkeepe2 & Hcount2 & Hvg2
            & Hve2);
        [| lia].
      split; [done |]. split; [congruence |]. split.
      { intros k Hk. rewrite Hframe2.
        - apply Hframe. intros j' i Hj' Hi. apply Hk; [lia | done].
        - intros i Hi. apply Hk; [lia | done]. }
      split.
      { intros j' i Hj' Hi. destruct (decide (j' = j)) as [-> | Hne].
        - by apply Hw2.
        - destruct (Hw j' i) as (cell & gr & Hget & Hgr & Hin & Hv & Hft);
            [lia | done |].
          exists cell, gr. split; [done |]. split; [done |].
          split; [by apply Hkeep2 |]. split.
          { rewrite Hframe2; [done |]. intros i' Hi' Heq.
            apply cell_index_inj in Heq as [? _]; lia. }
          intros Hl1 Hl2. destruct (Hft Hl1 Hl2) as (zmax & Hz & Hin').
          exists zmax. split; [done |]. intros Hlt. by apply Hkeepe2, Hin'. }
      split.
      { intros Hwd. rewrite Hcount2, (Hcount Hwd). nia. }
      split.
      { intros q Hq. destruct (Hvg2 q Hq) as [Hin | Hg]; [by apply Hvg | done]. }
      intros q Hq. destruct (Hve2 q Hq) as [Hin | He]; [by apply Hve | done]. }
  destruct HInv as (_ & Hlen & Hframe & Hw & Hcount & Hvg & Hve).
  cbn [snd] in *.
  split; [done |]. split.
  { intros k Hk. apply Hframe. intros j i Hj Hi. by apply Hk. }
  split; [by intros j i [Hj Hi]; apply Hw |].
  split; [intros Hwd _; rewrite (Hcount Hwd); nia |]. done.
Qed.
End WalkCompletes.

(** [rasterize] is the walk whose variables are exact reals. *)
Lemma for_loop_ext {St} (body body' : Z -> St -> Res St) (n : nat) :
  (forall i s, body i s = body' i s) ->
  forall lo s, for_loop n lo body s = for_loop n lo body' s.
Proof.
  intros Hext. induction n as [| n IH]; intros lo s; [done |].
  cbn [for_loop]. rewrite Hext. destruct (body' lo s); [apply IH | done].
Qed.

Lemma raster_cell_exact (fuel : nat) (p : Parameters) (grid : Grid) (x : R)
    (j i : Z) (st : R * Raster) :
  raster_cell fuel p grid x j i st
  = raster_cell_in (walk_exact p) fuel p grid x j i st.
Proof.
  destruct st as [y r]. unfold raster_cell_in, raster_cell.
  cbn [walk_R walk_exact walk_next].
  destruct (fromVeloCoordsToPolarCell p x y) as [seg bin].
  destruct (grid_get grid seg bin) as [cell |]; [| done]. cbn [mbind Res_bind].
  destruct (read (PolarCell.ground cell)) as [g |]; [| done].
  cbn [mbind Res_bind].
  match goal with
  | |- mbind _ ?m = _ => destruct m; done
  end.
Qed.

Lemma rasterize_exact (fuel : nat) (p : Parameters) (grid : Grid)
    (d : list Z) :
  rasterize fuel p grid d = rasterize_in (walk_exact p) fuel p grid d.
Proof.
  unfold rasterize, rasterize_in, for_range. cbn [walk_start walk_exact].
  rewrite (for_loop_ext (raster_row fuel p grid)
             (raster_row_in (walk_exact p) fuel p grid)); [done |].
  intros j [x r]. unfold raster_row, raster_row_in, for_range.
  rewrite (for_loop_ext (raster_cell fuel p grid x j)
             (raster_cell_in (walk_exact p) fuel p grid x j)); [done |].
  intros i st. apply raster_cell_exact.
Qed.


(** ** The raster of the constructor *)

Section InitRaster.
Variable p : Parameters.
Hypothesis Hheight : (0 <= grid_height p)%Z.
Hypothesis Hwidth : (0 <= grid_width p)%Z.

Let size := Z.to_nat (grid_width p * grid_height p).

Lemma init_occ_row_any (j : Z) (d : list Z) :
  (0 <= j < grid_height p)%Z -> length d = size ->
  exists d',
    init_occ_row p j d = Ok d' /\ length d' = size /\
    (forall i, (0 <= i < grid_width p)%Z -> boundary p j i ->
               d' !! cell_index p j i = Some (-1)%Z) /\
    (forall k, (forall i, (0 <= i < grid_width p)%Z -> boundary p j i ->
                          k <> cell_index p j i) ->
               d' !! k = d !! k).
Proof.
  intros Hj Hlen.
  pose (body := fun (i : Z) (d : list Z) =>
    if decide (i < j \/ i >= grid_width p - j)%Z
    then vec_set d (j * grid_width p + i)%Z (-1)%Z else Ok d).
  pose (Inv := fun (i : Z) (d1 : list Z) =>
    length d1 = size /\
    (forall i', (0 <= i' < i)%Z -> boundary p j i' ->
                d1 !! cell_index p j i' = Some (-1)%Z) /\
    (forall k, (forall i', (0 <= i' < i)%Z -> boundary p j i' ->
                           k <> cell_index p j i') ->
               d1 !! k = d !! k)).
  destruct (for_range_inv Inv body 0 (grid_width p) d)
    as (d' & Hloop & Hlen' & Hset & Hframe).
  - done.
  - split; [done |]. split; [intros i' Hi'; lia | done].
  - intros i d1 Hi (Hlen1 & Hset1 & Hf1). unfold body.
    destruct (decide (i < j \/ i >= grid_width p - j)%Z) as [Hb | Hb].
    + rewrite vec_set_Ok by (rewrite Hlen1; unfold size; nia).
      eexists. split; [done |]. split; [by rewrite length_insert |]. split.
      * intros i' Hi' Hb'. destruct (decide (i' = i)) as [-> | Hne].
        -- apply list_lookup_insert_eq. rewrite Hlen1. unfold size. nia.
        -- rewrite list_lookup_insert_ne; [apply Hset1; [lia | done] |].
           intros Heq. apply cell_index_inj in Heq as [_ ?]; lia.
      * intros k Hk. rewrite list_lookup_insert_ne.
        -- apply Hf1. intros i' Hi'. apply Hk. lia.
        -- intros Heq. symmetry in Heq. revert Heq. apply Hk; [lia | done].
    + exists d1. split; [done |]. split; [done |]. split.
      * intros i' Hi' Hb'. apply Hset1; [| done].
        destruct (decide (i' = i)) as [-> | Hne]; [done | lia].
      * intros k Hk. apply Hf1. intros i' Hi'. apply Hk. lia.
  - by exists d'.
Qed.

(** The loop of lines 91-99 on a raster of [width * height] cells: it
    completes, writes -1 to the cells outside the footprint and leaves
    the others. *)
Lemma init_occ_data_any (d : list Z) :
  length d = size ->
  exists d',
    init_occ_data p d = Ok d' /\ length d' = size /\
    (forall j i, (0 <= j < grid_height p)%Z -> (0 <= i < grid_width p)%Z ->
                 boundary p j i -> d' !! cell_index p j i = Some (-1)%Z) /\
    (forall k, (forall j i, (0 <= j < grid_height p)%Z ->
                            (0 <= i < grid_width p)%Z ->
                            boundary p j i -> k <> cell_index p j i) ->
               d' !! k = d !! k).
Proof.
  intros Hlen.
  pose (Inv := fun (j : Z) (d1 : list Z) =>
    length d1 = size /\
    (forall j' i, (0 <= j' < j)%Z -> (0 <= i < grid_width p)%Z ->
                  boundary p j' i -> d1 !! cell_index p j' i = Some (-1)%Z) /\
    (forall k, (forall j' i, (0 <= j' < j)%Z -> (0 <= i < grid_width p)%Z ->
                             boundary p j' i -> k <> cell_index p j' i) ->
               d1 !! k = d !! k)).
  destruct (for_range_inv Inv (init_occ_row p) 0 (grid_height p) d)
    as (d' & Hloop & Hlen' & Hset & Hframe).
  - done.
  - split; [done |]. split; [intros j' i Hj'; lia | done].
  - intros j d1 Hj (Hlen1 & Hset1 & Hf1).
    destruct (init_occ_row_any j d1 Hj Hlen1)
      as (d2 & Hrow & Hlen2 & Hset2 & Hf2).
    exists d2. split; [done |]. split; [done |]. split.
    + intros j' i Hj' Hi Hb. destruct (decide (j' = j)) as [-> | Hne].
      * by apply Hset2.
      * rewrite Hf2; [apply Hset1; [lia | done | done] |].
        intros i' Hi' _ Heq. apply cell_index_inj in Heq as [? _]; lia.
    + intros k Hk. rewrite Hf2.
      * apply Hf1. intros j' i Hj' Hi Hb. apply Hk; [lia | done | done].
      * intros i Hi Hb. apply Hk; [lia | done | done].
  - by exists d'.
Qed.
End InitRaster.

(** A cell outside the footprint is none of the cells the walk writes. *)
Lemma boundary_not_footprint (p : Parameters) (j i j' i' : Z) :
  (0 <= j)%Z -> (0 <= i < grid_width p)%Z -> boundary p j i ->
  in_footprint p j' i' ->
  cell_index p j i <> cell_index p j' i'.
Proof.
  unfold boundary, in_footprint. intros Hj Hi Hb [Hj' Hi'] Heq.
  apply cell_index_inj in Heq as [-> ->]; lia.
Qed.

(** ** A frame that completes *)

(** The stages of a completed frame. *)
Lemma process_stages (a : WalkArith) (fuel : nat) (segment : Segmentation)
    (this this' : SensorFusion) (cloud : list VPoint) (warned : bool) :
  process_in a fuel segment this cloud = Ok (this', warned) ->
  let p := params_ this in
  exists inl g0 gh r,
    let fit :=
      segment (ransac_tolerance p) (ransac_iterations p)
              (pcl_ground_plane_ this') in
    bin_points p 0 cloud ([], new_polar_grid p) = Ok (inl, g0) /\
    pcl_in_ this' = extract_indices cloud inl /\
    ground_plane_candidates p g0 = Ok (pcl_ground_plane_ this') /\
    ground_height_check fit.1 fit.2 = Ok (gh, warned) /\
    sweep p fit.2 g0 = Ok (polar_grid_ this') /\
    divide_points p (polar_grid_ this') (pcl_in_ this') ([], [])
    = Ok (pcl_ground_ this', pcl_elevated_ this') /\
    rasterize_in a fuel p (polar_grid_ this') (data (occ_grid_ this))
    = Ok r /\
    data (occ_grid_ this') = r_data r /\
    pcl_voxel_ground_ this' = r_voxel_ground r /\
    pcl_voxel_elevated_ this' = r_voxel_elevated r /\
    params_ this' = p /\
    info_width (occ_grid_ this') = info_width (occ_grid_ this) /\
    info_height (occ_grid_ this') = info_height (occ_grid_ this) /\
    time_frame_ this' = (time_frame_ this + 1)%Z.
Proof.
  unfold process_in.
  intros ([inl g0] & Hbin & H1)%bind_Ok.
  apply bind_Ok in H1 as (cands & Hcands & H1).
  destruct (segment _ _ cands) as [fit_inliers values] eqn:Hfit.
  apply bind_Ok in H1 as ([gh w] & Hcheck & H1).
  apply bind_Ok in H1 as (g1 & Hsweep & H1).
  apply bind_Ok in H1 as ([gnd elv] & Hdiv & H1).
  apply bind_Ok in H1 as (r & Hr & [= <- <-]).
  cbn [pcl_in_ pcl_ground_plane_ polar_grid_ pcl_ground_ pcl_elevated_
       occ_grid_ data pcl_voxel_ground_ pcl_voxel_elevated_ params_
       info_width info_height time_frame_].
  exists inl, g0, gh, r. rewrite Hfit. cbn [fst snd]. done.
Qed.

Lemma process_values_only (a : WalkArith) (fuel : nat)
    (segment segment' : Segmentation)
    (this this' : SensorFusion) (cloud : list VPoint) (warned : bool) :
  (forall tol it cands,
     (segment' tol it cands).2 = (segment tol it cands).2) ->
  process_in a fuel segment this cloud = Ok (this', warned) ->
  exists warned',
    process_in a fuel segment' this cloud = Ok (this', warned').
Proof.
  intros Heq. unfold process_in.
  intros ([inl g0] & -> & H1)%bind_Ok. cbn [mbind Res_bind].
  apply bind_Ok in H1 as (cands & -> & H1). cbn [mbind Res_bind].
  specialize (Heq (ransac_tolerance (params_ this))
                  (ransac_iterations (params_ this)) cands).
  destruct (segment _ _ cands) as [fit_inliers values].
  destruct (segment' _ _ cands) as [fit_inliers' values'].
  cbn [snd] in Heq. subst values'.
  apply bind_Ok in H1 as ([gh w] & Hcheck & H1).
  unfold ground_height_check in *.
  apply bind_Ok in Hcheck as (v3 & -> & Hcheck).
  apply bind_Ok in Hcheck as (v2 & -> & [= <- <-]). cbn [mbind Res_bind].
  apply bind_Ok in H1 as (g1 & -> & H1). cbn [mbind Res_bind].
  apply bind_Ok in H1 as ([gnd elv] & -> & H1). cbn [mbind Res_bind].
  apply bind_Ok in H1 as (r & -> & [= <- <-]). cbn [mbind Res_bind].
  by eexists.
Qed.

(** What a completed frame has computed, stage by stage. *)
Lemma process_complete (a : WalkArith) (fuel : nat) (segment : Segmentation)
    (this this' : SensorFusion) (cloud : list VPoint) (warned : bool) :
  process_in a fuel segment this cloud = Ok (this', warned) ->
  let p := params_ this in
  let fit :=
    segment (ransac_tolerance p) (ransac_iterations p)
            (pcl_ground_plane_ this') in
  exists g0,
    binned p cloud g0 /\
    (4 <= length fit.2)%nat /\
    swept p fit.2 g0 (polar_grid_ this') /\
    pcl_in_ this' = filter (passes_gate p) cloud /\
    Forall (cell_ready p (polar_grid_ this')) (pcl_in_ this') /\
    pcl_ground_ this'
    = filter (fun pt => ~ point_elevated p (polar_grid_ this') pt)
             (pcl_in_ this') /\
    pcl_elevated_ this'
    = filter (point_elevated p (polar_grid_ this')) (pcl_in_ this').
Proof.
  intros Hproc p fit.
  destruct (process_stages a fuel segment this this' cloud warned Hproc)
    as (inl & g0 & gh & r & Hbin & Hin & _ & Hcheck & Hsweep & Hdiv & _).
  fold p in Hbin, Hcheck, Hsweep, Hdiv. fold fit in Hcheck, Hsweep.
  destruct (bin_points_complete p cloud inl g0 Hbin) as (Hb & Hex & Hrange).
  assert (Hlen : (4 <= length fit.2)%nat).
  { unfold ground_height_check in Hcheck.
    apply bind_Ok in Hcheck as (v3 & Hv3 & _).
    apply vec_get_Ok in Hv3 as [_ Hv3]. apply lookup_lt_Some in Hv3.
    change (Z.to_nat 3) with 3%nat in Hv3. lia. }
  pose proof (sweep_complete p fit.2 g0 (polar_grid_ this') Hsweep
                (proj1 Hb) (binned_stats_ready p cloud g0 Hb) Hlen) as Hsw.
  assert (Hpts : pcl_in_ this' = filter (passes_gate p) cloud)
    by (by rewrite Hin).
  assert (Hready : Forall (cell_ready p (polar_grid_ this')) (pcl_in_ this')).
  { apply Forall_forall. intros pt Hpt. rewrite Hpts in Hpt.
    pose proof Hpt as [Hgate Hcloud]%list_elem_of_filter.
    destruct (Hrange pt Hcloud Hgate) as [Hs Hbn].
    by apply (gated_cell_ready p cloud fit.2 g0). }
  rewrite (divide_points_spec p _ _ [] [] Hready) in Hdiv.
  injection Hdiv as Hgnd Helv.
  exists g0. by repeat (split; [done |]).
Qed.

(** A completed frame writes the raster inside the footprint only, and
    keeps the parameters and the size of the raster. *)
Lemma process_frame (a : WalkArith) (fuel : nat) (segment : Segmentation)
    (this this' : SensorFusion) (cloud : list VPoint) (warned : bool) :
  process_in a fuel segment this cloud = Ok (this', warned) ->
  params_ this' = params_ this /\
  length (data (occ_grid_ this')) = length (data (occ_grid_ this)) /\
  forall k,
    (forall j i, in_footprint (params_ this) j i ->
                 k <> cell_index (params_ this) j i) ->
    data (occ_grid_ this') !! k = data (occ_grid_ this) !! k.
Proof.
  intros Hproc.
  destruct (process_stages a fuel segment this this' cloud warned Hproc)
    as (inl & g0 & gh & r & _ & _ & _ & _ & _ & _ & Hr & Hdata & _ & _ & Hp
        & _).
  destruct (rasterize_in_complete a fuel _ _ _ r Hr) as (Hlen & Hframe & _).
  rewrite Hdata. done.
Qed.

Lemma run_frame (a : WalkArith) (fuel : nat) (frames : list Frame) :
  forall this this',
    run_in a fuel this frames = Ok this' ->
    params_ this' = params_ this /\
    length (data (occ_grid_ this')) = length (data (occ_grid_ this)) /\
    forall k,
      (forall j i, in_footprint (params_ this) j i ->
                   k <> cell_index (params_ this) j i) ->
      data (occ_grid_ this') !! k = data (occ_grid_ this) !! k.
Proof.
  induction frames as [| f frames IH]; intros this this' Hrun.
  - by injection Hrun as <-.
  - cbn [run_in] in Hrun.
    apply bind_Ok in Hrun as ([this1 w] & Hproc & Hrun).
    cbn [fst] in Hrun.
    destruct (process_frame _ _ _ _ _ _ _ Hproc) as (Hp1 & Hlen1 & Hk1).
    destruct (IH this1 this' Hrun) as (Hp & Hlen & Hk).
    rewrite Hp1 in Hp, Hk.
    split; [done |]. split; [congruence |].
    intros k Hnot. rewrite Hk by done. by apply Hk1.
Qed.

(** The raster and the voxel clouds of a completed frame. *)
Lemma process_raster (a : WalkArith) (fuel : nat) (segment : Segmentation)
    (this this' : SensorFusion) (cloud : list VPoint) (warned : bool) :
  process_in a fuel segment this cloud = Ok (this', warned) ->
  let p := params_ this in
  (forall j i, in_footprint p j i ->
     walked a p (polar_grid_ this') (data (occ_grid_ this'))
            (pcl_voxel_ground_ this') (pcl_voxel_elevated_ this') j i) /\
  (grid_width p = (2 * grid_height p)%Z -> (0 <= grid_height p)%Z ->
   Z.of_nat (length (pcl_voxel_ground_ this'))
   = (grid_height p * (grid_height p + 1))%Z) /\
  (forall q, q ∈ pcl_voxel_ground_ this' ->
             ground_voxel_of p (polar_grid_ this') q) /\
  (forall q, q ∈ pcl_voxel_elevated_ this' ->
             elevated_voxel_of p (polar_grid_ this') q).
Proof.
  intros Hproc p.
  destruct (process_stages a fuel segment this this' cloud warned Hproc)
    as (inl & g0 & gh & r & _ & _ & _ & _ & _ & _ & Hr & Hdata & Hvg & Hve
        & _).
  destruct (rasterize_in_complete a fuel _ _ _ r Hr)
    as (_ & _ & Hw & Hcount & Hg & He).
  rewrite Hdata, Hvg, Hve. done.
Qed.

(** A cell of a swept grid: its index is in range, its ground is the
    height of the plane at its representative point, and its label is
    OCCUPIED exactly when the binned cell is an obstacle. *)
Lemma swept_get (p : Parameters) (values : list R) (g0 g1 : Grid) (s b : Z)
    (c1 : PolarCell.t) :
  swept p values g0 g1 -> grid_get g1 s b = Ok c1 ->
  (0 <= s < grid_segments p)%Z /\ (0 <= b < grid_bins p)%Z /\
  PolarCell.ground c1 = Some (ground_at p values s b) /\
  (PolarCell.idx c1 = FREE \/ PolarCell.idx c1 = UNKNOWN \/
   PolarCell.idx c1 = OCCUPIED) /\
  exists c0,
    grid_get g0 s b = Ok c0 /\
    PolarCell.z_max c1 = PolarCell.z_max c0 /\
    (PolarCell.idx c1 = OCCUPIED <-> obstacle p values s b c0).
Proof.
  intros [Hdims Hcells] Hget.
  destruct (grid_get_bound _ _ _ _ _ _ Hdims Hget) as [Hs Hb].
  destruct (Hcells s b Hs Hb) as (c0 & c1' & Hget0 & Hget1 & Hsw).
  rewrite Hget in Hget1. injection Hget1 as <-.
  destruct Hsw as (_ & _ & _ & _ & Hz & Hgr & _ & _ & Hlabel).
  split; [done |]. split; [done |]. split; [done |]. split.
  { destruct Hlabel as [[_ ->] | [(_ & _ & ->) | (_ & _ & ->)]]; tauto. }
  exists c0. split; [done |]. split; [done |].
  destruct Hlabel as [[Hob ->] | [(Hno & _ & ->) | (Hno & _ & ->)]];
    (split; [done || tauto | done || tauto]).
Qed.

(** [process] and [run] are the frame and the run over the walk in exact
    reals. *)
Lemma process_exact (fuel : nat) (segment : Segmentation)
    (this : SensorFusion) (cloud : list VPoint) :
  process fuel segment this cloud
  = process_in (walk_exact (params_ this)) fuel segment this cloud.
Proof.
  unfold process, process_in.
  destruct (bin_points _ _ _ _) as [[inl g0] |]; [| done].
  cbn [mbind Res_bind].
  destruct (ground_plane_candidates _ _) as [cands |]; [| done].
  cbn [mbind Res_bind].
  destruct (segment _ _ cands) as [fit_inliers values].
  destruct (ground_height_check _ _) as [[gh w] |]; [| done].
  cbn [mbind Res_bind].
  destruct (sweep _ _ _) as [g1 |]; [| done]. cbn [mbind Res_bind].
  destruct (divide_points _ _ _ _) as [[gnd elv] |]; [| done].
  cbn [mbind Res_bind]. by rewrite rasterize_exact.
Qed.

Lemma run_exact (fuel : nat) (frames : list Frame) :
  forall this,
    run fuel this frames = run_in (walk_exact (params_ this)) fuel this frames.
Proof.
  induction frames as [| f frames IH]; intros this; [done |].
  cbn [run run_in]. rewrite process_exact.
  destruct (process_in _ _ _ _ _) as [[this1 w] |] eqn:Hproc; [| done].
  cbn [mbind Res_bind fst].
  destruct (process_frame _ _ _ _ _ _ _ Hproc) as (<- & _).
  apply IH.
Qed.

(** ** Walks through the same positions *)

(** Two loops whose bodies keep their states related run to related
    results. *)
Lemma for_loop_sim {S1 S2} (Rel : Z -> S1 -> S2 -> Prop)
    (body1 : Z -> S1 -> Res S1) (body2 : Z -> S2 -> Res S2) (n : nat) :
  forall (lo : Z) (s1 : S1) (s2 : S2),
    Rel lo s1 s2 ->
    (forall i t1 t2, (lo <= i < lo + Z.of_nat n)%Z -> Rel i t1 t2 ->
                     res_rel (Rel (i + 1)%Z) (body1 i t1) (body2 i t2)) ->
    res_rel (Rel (lo + Z.of_nat n)%Z)
            (for_loop n lo body1 s1) (for_loop n lo body2 s2).
Proof.
  induction n as [| n IH]; intros lo s1 s2 H0 Hstep.
  - simpl. by replace (lo + Z.of_nat 0)%Z with lo by lia.
  - cbn [for_loop].
    pose proof (Hstep lo s1 s2 ltac:(lia) H0) as Hb.
    destruct (body1 lo s1) as [t1 | f1], (body2 lo s2) as [t2 | f2];
      try done.
    cbn [mbind Res_bind].
    replace (lo + Z.of_nat (S n))%Z with (lo + 1 + Z.of_nat n)%Z by lia.
    apply IH; [done |]. intros i u1 u2 Hi. apply Hstep. lia.
Qed.

Section SamePositions.
Variables a b : WalkArith.
Variable fuel : nat.
Variable p : Parameters.
Variable grid : Grid.
Hypothesis Hx :
  forall j, (0 <= j < grid_height p)%Z ->
            walk_R a (walk_x a j) = walk_R b (walk_x b j).
Hypothesis Hy :
  forall j i, (0 <= j < grid_height p)%Z -> (j <= i < grid_width p - j)%Z ->
              walk_R a (walk_y a j i) = walk_R b (walk_y b j i).

Lemma raster_row_in_agree (j : Z) (r : Raster) :
  (0 <= j < grid_height p)%Z ->
  res_rel (fun s1 s2 => s1.1 = walk_x a (j + 1) /\ s2.1 = walk_x b (j + 1) /\
                        s1.2 = s2.2)
          (raster_row_in a fuel p grid j (walk_x a j, r))
          (raster_row_in b fuel p grid j (walk_x b j, r)).
Proof.
  intros Hj. unfold raster_row_in, for_range.
  pose (Rel := fun (i : Z) (s1 : walk_num a * Raster)
                   (s2 : walk_num b * Raster) =>
    s1.1 = walk_y a j i /\ s2.1 = walk_y b j i /\ s1.2 = s2.2).
  assert (Hnext : forall c : WalkArith,
            walk_next c (walk_x c j) = walk_x c (j + 1)).
  { intros c. unfold walk_x.
    by replace (Z.to_nat (j + 1)) with (S (Z.to_nat j)) by lia. }
  assert (Hrel : res_rel
            (Rel (j + Z.of_nat (Z.to_nat (grid_width p - j - j)))%Z)
            (for_loop (Z.to_nat (grid_width p - j - j)) j
                      (raster_cell_in a fuel p grid (walk_x a j) j)
                      (walk_x a j, r))
            (for_loop (Z.to_nat (grid_width p - j - j)) j
                      (raster_cell_in b fuel p grid (walk_x b j) j)
                      (walk_x b j, r))).
  { apply for_loop_sim.
    - unfold Rel, walk_y. cbn [fst snd].
      by replace (j - j)%Z with 0%Z by lia.
    - intros i [y1 r1] [y2 r2] Hi Hrel. unfold Rel in Hrel.
      cbn [fst snd] in Hrel. destruct Hrel as (-> & -> & ->).
      unfold raster_cell_in.
      rewrite (Hx j Hj), (Hy j i) by lia.
      destruct (raster_cell fuel p grid _ j i _) as [[y' r'] |]; [| done].
      cbn [mbind Res_bind res_rel]. unfold Rel, walk_y. cbn [fst snd].
      by replace (Z.to_nat (i + 1 - j)) with (S (Z.to_nat (i - j))) by lia. }
  destruct (for_loop _ j (raster_cell_in a _ _ _ _ _) _) as [[y1 r1] | f1],
    (for_loop _ j (raster_cell_in b _ _ _ _ _) _) as [[y2 r2] | f2];
    cbn [mbind Res_bind res_rel fst snd] in *; try done.
  unfold Rel in Hrel. cbn [snd] in Hrel. destruct Hrel as (_ & _ & ->).
  by rewrite !Hnext.
Qed.

(** Two walks through the same positions build the same raster. *)
Lemma rasterize_in_agree (d : list Z) :
  rasterize_in a fuel p grid d = rasterize_in b fuel p grid d.
Proof.
  unfold rasterize_in, for_range.
  pose (Rel := fun (j : Z) (s1 : walk_num a * Raster)
                   (s2 : walk_num b * Raster) =>
    s1.1 = walk_x a j /\ s2.1 = walk_x b j /\ s1.2 = s2.2).
  pose proof (for_loop_sim Rel (raster_row_in a fuel p grid)
                (raster_row_in b fuel p grid)
                (Z.to_nat (grid_height p - 0)) 0
                (walk_start a, mkRaster d [] [])
                (walk_start b, mkRaster d [] [])) as Hsim.
  assert (Hrel : res_rel (Rel (0 + Z.of_nat (Z.to_nat (grid_height p - 0)))%Z)
            (for_loop (Z.to_nat (grid_height p - 0)) 0
                      (raster_row_in a fuel p grid)
                      (walk_start a, mkRaster d [] []))
            (for_loop (Z.to_nat (grid_height p - 0)) 0
                      (raster_row_in b fuel p grid)
                      (walk_start b, mkRaster d [] []))).
  { apply Hsim; [done |].
    intros j [x1 r1] [x2 r2] Hj Hrel. unfold Rel in Hrel.
    cbn [fst snd] in Hrel. destruct Hrel as (-> & -> & ->).
    apply raster_row_in_agree. lia. }
  destruct (for_loop _ 0 (raster_row_in a _ _ _) _) as [[x1 r1] | f1],
    (for_loop _ 0 (raster_row_in b _ _ _) _) as [[x2 r2] | f2];
    cbn [mbind Res_bind res_rel fst snd] in *; try done.
  - unfold Rel in Hrel. cbn [snd] in Hrel. by destruct Hrel as (_ & _ & ->).
  - by subst.
Qed.
End SamePositions.

(** So do two frames. *)
Lemma process_in_agree (a b : WalkArith) (fuel : nat)
    (segment : Segmentation) (this : SensorFusion) (cloud : list VPoint) :
  (forall j, (0 <= j < grid_height (params_ this))%Z ->
             walk_R a (walk_x a j) = walk_R b (walk_x b j)) ->
  (forall j i, (0 <= j < grid_height (params_ this))%Z ->
               (j <= i < grid_width (params_ this) - j)%Z ->
               walk_R a (walk_y a j i) = walk_R b (walk_y b j i)) ->
  process_in a fuel segment this cloud = process_in b fuel segment this cloud.
Proof.
  intros Hx Hy. unfold process_in.
  destruct (bin_points _ _ _ _) as [[inl g0] |]; [| done].
  cbn [mbind Res_bind].
  destruct (ground_plane_candidates _ _) as [cands |]; [| done].
  cbn [mbind Res_bind].
  destruct (segment _ _ cands) as [fit_inliers values].
  destruct (ground_height_check _ _) as [[gh w] |]; [| done].
  cbn [mbind Res_bind].
  destruct (sweep _ _ _) as [g1 |]; [| done]. cbn [mbind Res_bind].
  destruct (divide_points _ _ _ _) as [[gnd elv] |]; [| done].
  cbn [mbind Res_bind].
  by rewrite (rasterize_in_agree a b fuel (params_ this) g1 Hx Hy).
Qed.

(** The exact position after [n] decrements. *)
Lemma iter_decrement (n : nat) (c x : R) :
  Nat.iter n (fun v => v - c) x = x - INR n * c.
Proof.
  induction n as [| n IH]; [simpl; lra |].
  rewrite S_INR. change (Nat.iter (S n) (fun v => v - c) x)
    with (Nat.iter n (fun v => v - c) x - c). rewrite IH. lra.
Qed.

(** The positions of the walk in exact reals are those of the raster
    cells. *)
Lemma walk_exact_x (p : Parameters) (j : Z) :
  (0 <= j)%Z ->
  walk_R (walk_exact p) (walk_x (walk_exact p) j) = raster_x p j.
Proof.
  intros Hj. unfold walk_x, raster_x.
  cbn [walk_R walk_start walk_next walk_exact].
  rewrite iter_decrement, INR_IZR_INZ, Z2Nat.id by done. done.
Qed.

Lemma walk_exact_y (p : Parameters) (j i : Z) :
  (0 <= j <= i)%Z ->
  walk_R (walk_exact p) (walk_y (walk_exact p) j i) = raster_y p j i.
Proof.
  intros Hj. unfold walk_y, raster_y.
  cbn [walk_R walk_next walk_exact].
  rewrite iter_decrement, INR_IZR_INZ, Z2Nat.id by lia.
  change (walk_x (walk_exact p) j)
    with (walk_R (walk_exact p) (walk_x (walk_exact p) j)).
  rewrite walk_exact_x by lia. done.
Qed.

(** ** A walk that leaves the field of view *)

Lemma SF2R_finite_neg (s : bool) (m : positive) (e : Z) :
  (e < 0)%Z ->
  SF2R (S754_finite s m e) = IZR (cond_Zopp s (Z.pos m)) / IZR (2 ^ (- e)).
Proof. intros He. unfold SF2R. destruct (decide (0 <= e)%Z); [lia | done]. Qed.

(** Evaluates the floating point numbers of the goal and writes their
    values as quotients of integers. *)
Ltac eval_floats :=
  repeat match goal with
  | |- context [SF2R ?f] =>
      lazymatch f with
      | S754_finite _ _ _ => fail
      | _ => let v := eval vm_compute in f in change f with v
      end
  end;
  rewrite ?SF2R_finite_neg by lia;
  repeat match goal with
  | |- context [IZR ?z] =>
      lazymatch z with
      | Z0 => fail
      | Z.pos _ => fail
      | Z.neg _ => fail
      | _ => let v := eval vm_compute in z in change z with v
      end
  end.

(** [two_f32], [tenth_f32], [two_f64] and [tenth_f64] are numbers of their
    formats, 2 exactly and 0.1 to within half a unit in the last place;
    the stored cell size is larger than 0.1. *)
Lemma stored_numbers :
  valid_binary 24 128 two_f32 = true /\ SF2R two_f32 = 2 /\
  valid_binary 53 1024 two_f64 = true /\ SF2R two_f64 = 2 /\
  valid_binary 24 128 tenth_f32 = true /\
  0 < SF2R tenth_f32 - 1 / 10 < 1 / 268435456 /\
  valid_binary 53 1024 tenth_f64 = true /\
  0 < SF2R tenth_f64 - 1 / 10 < 1 / 144115188075855872.
Proof.
  eval_floats.
  split; [by vm_compute |]. split; [lra |].
  split; [by vm_compute |]. split; [lra |].
  split; [by vm_compute |]. split; [lra |].
  split; [by vm_compute |]. lra.
Qed.

(** A position beyond the diagonal [y = -x]: the equality of line 465 does
    not hold and the angle gives a segment index past the last. *)
Lemma past_diagonal_segment (p : Parameters) (x y : R) :
  lidar_opening_angle p = PI / 4 ->
  inv_angular_res p = IZR (2 * grid_segments p) / PI ->
  (1 <= grid_segments p)%Z ->
  0 < x -> y < - x ->
  let seg := (fromVeloCoordsToPolarCell p x y).1 in
  (grid_segments p <= seg)%Z /\ (2 * seg < 3 * grid_segments p)%Z.
Proof.
  intros Hopen Hres Hsegs Hx Hy. pose proof PI_RGT_0 as Hpi.
  unfold fromVeloCoordsToPolarCell. cbn [fst].
  destruct (decide (x = - y)) as [Heq | _]; [lra |].
  rewrite Hopen, Hres, mult_IZR, atan2_pos by done.
  assert (Hs : 1 <= IZR (grid_segments p)) by (by apply IZR_le).
  set (n := IZR (grid_segments p)) in *.
  assert (Hq : y / x < - 1).
  { apply (Rmult_lt_reg_r x); [done |].
    replace (y / x * x) with y by (field; lra). lra. }
  assert (Hlo : atan (y / x) < - (PI / 4)).
  { rewrite <- atan_1, <- atan_opp. by apply atan_increasing. }
  pose proof (atan_bound (y / x)) as [Hhi _].
  set (t := atan (y / x)) in *.
  replace ((- t + PI / 4) * (2 * n / PI))
    with ((PI / 4 - t) / (PI / 2) * n) by (field; lra).
  assert (Hv : 1 < (PI / 4 - t) / (PI / 2) < 3 / 2).
  { split.
    - apply (Rmult_lt_reg_r (PI / 2)); [lra |].
      replace ((PI / 4 - t) / (PI / 2) * (PI / 2)) with (PI / 4 - t)
        by (field; lra).
      lra.
    - apply (Rmult_lt_reg_r (PI / 2)); [lra |].
      replace ((PI / 4 - t) / (PI / 2) * (PI / 2)) with (PI / 4 - t)
        by (field; lra).
      lra. }
  set (v := (PI / 4 - t) / (PI / 2) * n).
  assert (Hvn : n < v < 3 / 2 * n) by (unfold v; nra).
  rewrite trunc_nonneg by lra.
  pose proof (Zfloor_bound v) as [Hfl _]. split.
  - apply Zfloor_lub. fold n. lra.
  - apply lt_IZR. rewrite !mult_IZR. fold n. lra.
Qed.

(** No row of the grid at or past its length. *)
Lemma grid_get_past_end (g : Grid) (s b : Z) :
  (Z.of_nat (length g) <= s)%Z -> grid_get g s b = Fail OutOfRange.
Proof.
  intros Hs. unfold grid_get, vec_get.
  destruct (decide (0 <= s)%Z); [| done].
  rewrite lookup_ge_None_2 by lia. done.
Qed.

Section WalkLeaves.
Variable a : WalkArith.
Variable fuel : nat.
Variable p : Parameters.
Variable grid : Grid.

(** A row whose [n]-th cell has no backing cell in the grid does not
    complete. *)
Lemma raster_row_in_fails (j : Z) (n : nat) (x : walk_num a) (r : Raster) :
  (j + Z.of_nat n < grid_width p - j)%Z ->
  (forall cell,
     grid_get grid
       (fromVeloCoordsToPolarCell p (walk_R a x)
          (walk_R a (Nat.iter n (walk_next a) x))).1
       (fromVeloCoordsToPolarCell p (walk_R a x)
          (walk_R a (Nat.iter n (walk_next a) x))).2 <> Ok cell) ->
  forall st, raster_row_in a fuel p grid j (x, r) <> Ok st.
Proof.
  intros Hn Hfail st Hrow. unfold raster_row_in in Hrow.
  apply bind_Ok in Hrow as (yr & Hloop & _).
  pose (Inv := fun (i : Z) (t : walk_num a * Raster) =>
    (i <= j + Z.of_nat n)%Z /\
    t.1 = Nat.iter (Z.to_nat (i - j)) (walk_next a) x).
  assert (HInv : Inv (grid_width p - j)%Z yr); [| destruct HInv; lia].
  apply (for_range_partial Inv (raster_cell_in a fuel p grid x j)
           j (grid_width p - j) (x, r) yr); [lia | | | done].
  - split; [lia |]. by replace (j - j)%Z with 0%Z by lia.
  - intros i [y r1] [y' r2] Hi [Hle Hy] Hcell. cbn [fst] in Hy.
    unfold raster_cell_in in Hcell.
    apply bind_Ok in Hcell as ([y1 r3] & Hcell & [= <- <-]).
    destruct (decide (i = j + Z.of_nat n)%Z) as [-> | Hne].
    + apply raster_cell_complete in Hcell as (cell & _ & _ & Hget & _).
      replace (Z.to_nat (j + Z.of_nat n - j)) with n in Hy by lia.
      subst y. by apply Hfail in Hget.
    + split; [lia |]. cbn [fst]. rewrite Hy.
      replace (Z.to_nat (i + 1 - j)) with (S (Z.to_nat (i - j))) by lia.
      done.
Qed.

(** So does a walk whose first row has such a cell. *)
Lemma rasterize_in_fails (n : nat) (d : list Z) :
  (1 <= grid_height p)%Z -> (Z.of_nat n < grid_width p)%Z ->
  (forall cell,
     grid_get grid
       (fromVeloCoordsToPolarCell p (walk_R a (walk_start a))
          (walk_R a (Nat.iter n (walk_next a) (walk_start a)))).1
       (fromVeloCoordsToPolarCell p (walk_R a (walk_start a))
          (walk_R a (Nat.iter n (walk_next a) (walk_start a)))).2
     <> Ok cell) ->
  forall r, rasterize_in a fuel p grid d <> Ok r.
Proof.
  intros Hh Hn Hfail r Hwalk. unfold rasterize_in, for_range in Hwalk.
  apply bind_Ok in Hwalk as (xr & Hloop & _).
  destruct (Z.to_nat (grid_height p - 0)) as [| m] eqn:Hm; [lia |].
  cbn [for_loop] in Hloop. apply bind_Ok in Hloop as (st & Hrow & _).
  revert Hrow. apply raster_row_in_fails with (n := n); [lia | done].
Qed.
End WalkLeaves.

(** A walk whose first row reaches a position beyond the diagonal reads
    past the last segment of the grid: neither the walk nor the frame
    completes. *)
Lemma walk_leaves_field (a : WalkArith) (p : Parameters) (n : nat) :
  lidar_opening_angle p = PI / 4 ->
  inv_angular_res p = IZR (2 * grid_segments p) / PI ->
  (1 <= grid_segments p)%Z ->
  (1 <= grid_height p)%Z -> (Z.of_nat n < grid_width p)%Z ->
  0 < walk_R a (walk_start a) ->
  walk_R a (Nat.iter n (walk_next a) (walk_start a))
  < - walk_R a (walk_start a) ->
  (forall fuel grid d r,
     length grid = Z.to_nat (grid_segments p) ->
     rasterize_in a fuel p grid d <> Ok r) /\
  (forall fuel segment this cloud out,
     params_ this = p -> process_in a fuel segment this cloud <> Ok out).
Proof.
  intros Hopen Hres Hsegs Hh Hn Hx Hy.
  assert (Hwalk : forall fuel grid d r,
            length grid = Z.to_nat (grid_segments p) ->
            rasterize_in a fuel p grid d <> Ok r).
  { intros fuel grid d r Hlen.
    apply rasterize_in_fails with (n := n); [done | done |].
    intros cell. rewrite grid_get_past_end; [done |].
    destruct (past_diagonal_segment p _ _ Hopen Hres Hsegs Hx Hy) as [Hge _].
    lia. }
  split; [done |].
  intros fuel segment this cloud [this' warned] Hp Hproc.
  destruct (process_stages a fuel segment this this' cloud warned Hproc)
    as (inl & g0 & gh & r & _ & _ & _ & _ & _ & _ & Hr & _).
  destruct (process_complete a fuel segment this this' cloud warned Hproc)
    as (g0' & _ & _ & [[Hlen _] _] & _).
  rewrite Hp in Hr, Hlen. by apply Hwalk in Hr.
Qed.

(** ** Points on the axis of the sensor *)

Lemma cell_of_axis (p : Parameters) (x z : R) :
  0 < x ->
  cell_of p (mkVPoint x 0 z)
  = (trunc (lidar_opening_angle p * inv_angular_res p),
     trunc (x * inv_radial_res p)).
Proof.
  intros Hx. unfold cell_of, fromVeloCoordsToPolarCell. cbn [px py].
  rewrite decide_False by lra.
  rewrite atan2_pos by done.
  replace (0 / x) with 0 by (unfold Rdiv; ring).
  rewrite atan_0.
  replace (x * x + 0 * 0) with (x * x) by ring.
  rewrite sqrt_square by lra.
  by replace (- 0 + lidar_opening_angle p) with (lidar_opening_angle p)
    by ring.
Qed.

Lemma gate_axis (p : Parameters) (x z : R) :
  0 < lidar_opening_angle p ->
  0 < x -> grid_min_range p < x < grid_max_range p ->
  z > lidar_min_height p ->
  passes_gate p (mkVPoint x 0 z).
Proof.
  intros Ha Hx Hr Hz. unfold passes_gate. cbn [px py pz].
  rewrite atan2_pos by done.
  replace (0 / x) with 0 by (unfold Rdiv; ring).
  rewrite atan_0, Rabs_R0.
  replace (x * x + 0 * 0) with (x * x) by ring.
  rewrite sqrt_square by lra. done.
Qed.

(** * The claims *)

Lemma config0_valid : valid_config config0.
Proof. unfold valid_config. simpl. split; [lra |]. split; [lra | lia]. Qed.

(** ** C8: cell index round trip *)

(** C8, as amended.  Round-tripping a cell of the first bin returns
    [(segments - 1, 0)] whatever its segment: the representative point of
    every cell of bin 0 is the origin, where the test [x == -y] selects the
    last segment.  So a cell [(seg, 0)] comes back as itself for the last
    segment only, and a second round trip changes nothing.  The parameters
    are those of any node with positive [inv_radial_res] and
    [inv_angular_res], which the two functions divide by.  Nothing is
    stated for the bins from 1 on: there the round trip is the identity in
    the arithmetic of the reals ([round_trip_cell]) and rounding can move
    the point into a neighbouring cell. *)
Theorem round_trip_first_bin_collapses (p : Parameters) (seg : Z) :
  0 < inv_radial_res p -> 0 < inv_angular_res p ->
  round_trip p seg 0 = ((grid_segments p - 1)%Z, 0%Z) /\
  (round_trip p seg 0 = (seg, 0%Z) <-> seg = (grid_segments p - 1)%Z) /\
  round_trip p (round_trip p seg 0).1 (round_trip p seg 0).2
  = round_trip p seg 0.
Proof.
  intros _ _.
  assert (Hrt : forall s, round_trip p s 0
                          = ((grid_segments p - 1)%Z, 0%Z)).
  { intros s.
    unfold round_trip, fromPolarCellToVeloCoords, fromVeloCoordsToPolarCell.
    replace (IZR 0 / inv_radial_res p) with 0 by (unfold Rdiv; ring).
    rewrite !Rmult_0_r.
    destruct (decide (0 = - 0)) as [_ | Hne]; [| lra].
    f_equal. rewrite Rplus_0_r, sqrt_0, Rmult_0_l.
    apply (trunc_IZR 0). }
  split; [apply Hrt |]. split.
  - rewrite Hrt. split; [by intros [= ->] | by intros ->].
  - rewrite (Hrt seg). cbn [fst snd]. apply Hrt.
Qed.

Lemma round_trip_first_bin_collapses_witness :
  round_trip sweep_params2 0 0 = (1%Z, 0%Z) /\
  round_trip sweep_params2 0 0 <> (0%Z, 0%Z).
Proof.
  assert (Hr : 0 < inv_radial_res sweep_params2) by (simpl; lra).
  assert (Ha : 0 < inv_angular_res sweep_params2).
  { simpl. apply Rdiv_lt_0_compat; [lra | apply PI_RGT_0]. }
  destruct (round_trip_first_bin_collapses sweep_params2 0 Hr Ha)
    as (Hrt & Hfix & _).
  split; [done |]. intros Heq. apply Hfix in Heq. done.
Defined.

(** C8, as the specification states it, fails at the first bin: cell
    [(0, 0)] of a grid of two segments comes back as [(1, 0)]. *)
Lemma round_trip_first_bin :
  (0 <= 0 < grid_segments (make_params config0))%Z /\
  (0 <= 0 < grid_bins (make_params config0))%Z /\
  round_trip (make_params config0) 0 0 = (1%Z, 0%Z) /\
  round_trip (make_params config0) 0 0 <> (0%Z, 0%Z).
Proof.
  pose proof (grid_bins_pos config0 config0_valid) as Hbins.
  pose proof (round_trip_origin config0 0) as Hrt.
  split; [simpl; lia |]. split; [lia |].
  rewrite Hrt. split; [done |]. simpl. intros [=].
Qed.

(** ** C3: the binning gate *)

(** C3.  For every input point sequence, under a valid configuration the
    filtering stage completes and the filtered output (the points at the
    collected indices) is exactly the input filtered by the gate
    [|atan2(y,x)| < opening_half_angle], [min_range < range < max_range],
    [z > min_height], all strict: a point appears iff it passes, and the
    input order is kept.  Under any parameters, whenever the stage
    completes the filtered output is that one. *)
Theorem filtered_is_gate (c : Config) (cloud : list VPoint) :
  valid_config c ->
  (exists inl grid,
     bin_points (make_params c) 0 cloud ([], new_polar_grid (make_params c))
     = Ok (inl, grid) /\
     extract_indices cloud inl = filter (passes_gate (make_params c)) cloud /\
     (forall pt, pt ∈ extract_indices cloud inl <->
                 pt ∈ cloud /\ passes_gate (make_params c) pt) /\
     extract_indices cloud inl `sublist_of` cloud) /\
  (forall p grid0 inl grid,
     bin_points p 0 cloud ([], grid0) = Ok (inl, grid) ->
     extract_indices cloud inl = filter (passes_gate p) cloud).
Proof.
  intros Hvalid. split.
  - destruct (bin_points_spec c Hvalid cloud) as (inl & grid & Hb & _ & Hex).
    exists inl, grid. split; [done |]. split; [done |]. rewrite Hex. split.
    + intros pt. rewrite list_elem_of_filter. tauto.
    + apply sublist_filter.
  - intros p grid0 inl grid Hb.
    apply (bin_points_selects p cloud [] [] inl grid0 grid) in Hb; [| by split].
    apply Hb.
Qed.

Lemma filtered_is_gate_witness :
  exists inl grid,
    bin_points (make_params config0) 0 cloud0
               ([], new_polar_grid (make_params config0)) = Ok (inl, grid) /\
    extract_indices cloud0 inl
    = filter (passes_gate (make_params config0)) cloud0.
Proof.
  destruct (filtered_is_gate config0 cloud0 config0_valid)
    as [(inl & grid & H1 & H2 & _) _].
  by exists inl, grid.
Defined.

(** ** C7: cell statistics *)

(** What the statistics of a cell say about the points routed to it. *)
Lemma cell_stats_extrema (pts : list VPoint) (cell : PolarCell.t) :
  cell_stats pts cell ->
  PolarCell.count cell = Z.of_nat (length pts) /\
  ((PolarCell.count cell > 0)%Z <-> pts <> []) /\
  (pts <> [] ->
   exists lo hi,
     lo ∈ pts /\ hi ∈ pts /\
     PolarCell.x_min cell = Some (px lo) /\
     PolarCell.y_min cell = Some (py lo) /\
     PolarCell.z_min cell = Some (pz lo) /\
     PolarCell.z_max cell = Some (pz hi) /\
     pz lo <= pz hi /\
     forall q, q ∈ pts -> pz lo <= pz q <= pz hi).
Proof.
  intros (Hc & _ & _ & _ & Hpts). split; [done |]. split.
  - rewrite Hc. destruct pts; simpl; split; try done; lia.
  - intros Hne.
    destruct (Hpts Hne)
      as (lo & zhi & Hlo & Hx & Hy & Hz & Hzm & (hi & Hhi & <-) & Hall).
    exists lo, hi. repeat (split; [done |]). split; [| done].
    apply (Hall hi Hhi).
Qed.

(** C7.  After binning, under a valid configuration, every polar cell
    counts the points routed to it, so it has [count > 0] exactly when a
    point was routed to it; then [z_min] is the minimum and [z_max] the
    maximum of z over these points (so [z_min <= z_max]), and
    [(x_min, y_min)] are the coordinates of a routed point that achieves
    [z_min].  Under any parameters the same holds whenever the binning
    completes. *)
Theorem cell_stats_correct (c : Config) (cloud : list VPoint) :
  valid_config c ->
  (exists inl grid,
     bin_points (make_params c) 0 cloud ([], new_polar_grid (make_params c))
     = Ok (inl, grid) /\
     forall s b,
       (0 <= s < grid_segments (make_params c))%Z ->
       (0 <= b < grid_bins (make_params c))%Z ->
       exists cell,
         grid_get grid s b = Ok cell /\
         PolarCell.count cell
         = Z.of_nat (length (routed (make_params c) cloud s b)) /\
         ((PolarCell.count cell > 0)%Z <->
          routed (make_params c) cloud s b <> []) /\
         (routed (make_params c) cloud s b <> [] ->
          exists lo hi,
            lo ∈ routed (make_params c) cloud s b /\
            hi ∈ routed (make_params c) cloud s b /\
            PolarCell.x_min cell = Some (px lo) /\
            PolarCell.y_min cell = Some (py lo) /\
            PolarCell.z_min cell = Some (pz lo) /\
            PolarCell.z_max cell = Some (pz hi) /\
            pz lo <= pz hi /\
            forall q, q ∈ routed (make_params c) cloud s b ->
                      pz lo <= pz q <= pz hi)) /\
  (forall p inl grid s b cell,
     bin_points p 0 cloud ([], new_polar_grid p) = Ok (inl, grid) ->
     grid_get grid s b = Ok cell ->
     PolarCell.count cell = Z.of_nat (length (routed p cloud s b)) /\
     ((PolarCell.count cell > 0)%Z <-> routed p cloud s b <> []) /\
     (routed p cloud s b <> [] ->
      exists lo hi,
        lo ∈ routed p cloud s b /\ hi ∈ routed p cloud s b /\
        PolarCell.x_min cell = Some (px lo) /\
        PolarCell.y_min cell = Some (py lo) /\
        PolarCell.z_min cell = Some (pz lo) /\
        PolarCell.z_max cell = Some (pz hi) /\
        pz lo <= pz hi /\
        forall q, q ∈ routed p cloud s b -> pz lo <= pz q <= pz hi)).
Proof.
  intros Hvalid. split.
  - destruct (bin_points_spec c Hvalid cloud)
      as (inl & grid & Hb & [Hdims Hcells] & _).
    exists inl, grid. split; [done |]. intros s b Hs Hbn.
    destruct (Hcells s b Hs Hbn) as (cell & Hget & Hst).
    exists cell. split; [done |]. by apply cell_stats_extrema.
  - intros p inl grid s b cell Hb Hget.
    destruct (bin_points_complete p cloud inl grid Hb)
      as ([Hdims Hcells] & _).
    destruct (grid_get_bound _ _ _ _ _ _ Hdims Hget) as [Hs Hbn].
    destruct (Hcells s b Hs Hbn) as (cell' & Hget' & Hst).
    rewrite Hget in Hget'. injection Hget' as <-.
    by apply cell_stats_extrema.
Qed.

Lemma cloud0_routed :
  mkVPoint 1 0 0 ∈ routed (make_params config0) cloud0 1 1 /\
  mkVPoint 1 0 1 ∈ routed (make_params config0) cloud0 1 1.
Proof.
  assert (Hcell : forall z, cell_of (make_params config0) (mkVPoint 1 0 z)
                            = (1%Z, 1%Z)).
  { intros z. rewrite cell_of_axis by lra. cbn.
    pose proof PI_RGT_0 as Hpi.
    f_equal; (transitivity (trunc (IZR 1)); [| apply trunc_IZR]); f_equal.
    - simpl. rewrite mult_IZR. field. lra.
    - simpl. field. }
  assert (Hgate : forall z, z > -2 ->
                            passes_gate (make_params config0) (mkVPoint 1 0 z)).
  { intros z Hz. apply gate_axis; try (simpl; lra).
    simpl. pose proof PI_RGT_0. lra. }
  unfold routed, cloud0.
  split; apply list_elem_of_filter; (split; [apply Hcell |]);
    apply list_elem_of_filter; (split; [apply Hgate; lra |]).
  - apply list_elem_of_here.
  - apply list_elem_of_further, list_elem_of_here.
Qed.

Lemma cell_stats_correct_witness :
  exists inl grid cell,
    bin_points (make_params config0) 0 cloud0
               ([], new_polar_grid (make_params config0)) = Ok (inl, grid) /\
    grid_get grid 1 1 = Ok cell /\
    (PolarCell.count cell > 0)%Z /\
    PolarCell.z_min cell = Some 0 /\ PolarCell.z_max cell = Some 1.
Proof.
  destruct (cell_stats_correct config0 cloud0 config0_valid)
    as [(inl & grid & Hb & Hcells) _].
  destruct cloud0_routed as [Hlow Hhigh].
  assert (Hbins : (0 <= 1 < grid_bins (make_params config0))%Z).
  { rewrite (grid_bins_floor config0 config0_valid).
    assert (2 <= Zfloor (cfg_grid_max_range config0 * sqrt 2
                         / cfg_grid_cell_size config0))%Z; [| lia].
    apply Zfloor_lub. simpl. pose proof sqrt2_ge_1. lra. }
  destruct (Hcells 1%Z 1%Z) as (cell & Hget & _ & Hpos & Hstats);
    [simpl; lia | done |].
  assert (Hne : routed (make_params config0) cloud0 1 1 <> []).
  { intros Hnil. rewrite Hnil in Hlow. by apply elem_of_nil in Hlow. }
  destruct (Hstats Hne)
    as (lo & hi & Hlo & Hhi & _ & _ & Hzmin & Hzmax & _ & Hall).
  exists inl, grid, cell. split; [done |]. split; [done |].
  split; [by apply Hpos |].
  assert (Hz : forall q, q ∈ routed (make_params config0) cloud0 1 1 ->
                         pz q = 0 \/ pz q = 1).
  { intros q Hq. unfold routed in Hq.
    apply list_elem_of_filter in Hq as [_ Hq].
    apply list_elem_of_filter in Hq as [_ Hq]. unfold cloud0 in Hq.
    repeat (apply elem_of_cons in Hq as [-> | Hq]; [simpl; lra |]).
    by apply elem_of_nil in Hq. }
  pose proof (Hall _ Hlow) as [Hl1 _]. pose proof (Hall _ Hhigh) as [_ Hh1].
  cbn [pz] in Hl1, Hh1.
  rewrite Hzmin, Hzmax. split; f_equal.
  - destruct (Hz lo Hlo); lra.
  - destruct (Hz hi Hhi); lra.
Defined.

(** ** C1: occlusion in the sweep *)

Lemma grid_get_row (g : Grid) (s b : Z) (row : list PolarCell.t)
    (cell : PolarCell.t) :
  (0 <= s)%Z -> (0 <= b)%Z ->
  g !! Z.to_nat s = Some row -> row !! Z.to_nat b = Some cell ->
  grid_get g s b = Ok cell.
Proof.
  intros Hs Hb Hrow Hcell. unfold grid_get.
  rewrite (proj2 (vec_get_Ok g s row)) by done. cbn [mbind Res_bind].
  by apply vec_get_Ok.
Qed.

(** C1.  The sweep completes on every grid whose statistics can be read,
    given the four plane coefficients.  Afterwards, in every segment, a
    cell that comes after a cell labeled OCCUPIED and is empty, or is not
    empty with a height that does not exceed the threshold, is labeled
    UNKNOWN (hence not FREE).  A segment of four bins
    [empty, occupied (height 0.5, threshold 0.2), empty, empty] gets the
    labels [FREE, OCCUPIED, UNKNOWN, UNKNOWN]. *)
Theorem sweep_occlusion (p : Parameters) (values : list R) (g0 : Grid) :
  (4 <= length values)%nat ->
  grid_dims g0 (grid_segments p) (grid_bins p) -> stats_ready g0 ->
  (0 <= grid_segments p)%Z -> (0 <= grid_bins p)%Z ->
  exists g1,
    sweep p values g0 = Ok g1 /\
    (forall s b b' cell cell',
       (b < b')%Z ->
       grid_get g1 s b = Ok cell -> grid_get g1 s b' = Ok cell' ->
       PolarCell.idx cell = OCCUPIED ->
       PolarCell.count cell' = 0%Z \/
       (exists h, PolarCell.height cell' = Some h /\
                  ~ h > grid_min_height p) ->
       PolarCell.idx cell' = UNKNOWN /\ PolarCell.idx cell' <> FREE) /\
    (forall s e0 o e2 e3 zmax,
       (0 <= s)%Z -> grid_bins p = 4%Z ->
       g0 !! Z.to_nat s = Some [e0; o; e2; e3] ->
       PolarCell.count e0 = 0%Z -> PolarCell.count e2 = 0%Z ->
       PolarCell.count e3 = 0%Z -> PolarCell.count o <> 0%Z ->
       PolarCell.z_max o = Some zmax ->
       zmax - ground_at p values s 1 = 5 / 10 ->
       grid_min_height p = 2 / 10 ->
       exists row, g1 !! Z.to_nat s = Some row /\
                   PolarCell.idx <$> row = [FREE; OCCUPIED; UNKNOWN; UNKNOWN]).
Proof.
  intros Hlen Hdims Hready Hsegs Hbins.
  destruct (sweep_spec p values g0 Hlen Hdims Hready Hsegs Hbins)
    as (g1 & Hsweep & Hdims1 & Hcells).
  exists g1. split; [done |]. split.
  - intros s b b' cell cell' Hlt Hget Hget' Hocc Hcase.
    destruct (grid_get_bound _ _ _ _ _ _ Hdims1 Hget) as [Hs Hb].
    destruct (grid_get_bound _ _ _ _ _ _ Hdims1 Hget') as [_ Hb'].
    destruct (Hcells s b Hs Hb) as (c0 & c1 & Hg0 & Hg1 & Hsw).
    destruct (Hcells s b' Hs Hb') as (c0' & c1' & Hg0' & Hg1' & Hsw').
    rewrite Hget in Hg1. injection Hg1 as <-.
    rewrite Hget' in Hg1'. injection Hg1' as <-.
    assert (Hobs : obstacle p values s b c0).
    { destruct Hsw as (_ & _ & _ & _ & _ & _ & _ & _ & Hl).
      destruct Hl as [[? _] | [(_ & _ & Hl) | (_ & _ & Hl)]];
        [done | congruence | congruence]. }
    assert (Hhit : hit_before p values g0 s b').
    { exists b, c0. split; [lia | done]. }
    destruct Hsw' as (Hc' & _ & _ & _ & _ & _ & _ & Hh' & Hl').
    destruct Hl' as [[Hobs' _] | [(_ & _ & Hl') | (_ & Hno & _)]];
      [| by rewrite Hl' | done].
    exfalso. destruct Hobs' as (Hcount' & zmax & Hz' & Hgt).
    destruct Hcase as [Hzero | (h & Hh & Hle)]; [congruence |].
    destruct (Hh' Hcount') as (zmax' & Hz'' & Hh'').
    rewrite Hz' in Hz''. injection Hz'' as <-.
    rewrite Hh in Hh''. injection Hh'' as ->. done.
  - intros s e0 o e2 e3 zmax Hs H4 Hrow He0 He2 He3 Ho Hzmax Hheight Hthr.
    assert (Hsr : (0 <= s < grid_segments p)%Z).
    { split; [done |]. destruct Hdims as [Hn _].
      apply lookup_lt_Some in Hrow. lia. }
    assert (Hobs : obstacle p values s 1 o).
    { split; [done |]. exists zmax. split; [done |]. lra. }
    assert (Hlab : forall b e l,
               (0 <= b < 4)%Z -> [e0; o; e2; e3] !! Z.to_nat b = Some e ->
               (obstacle p values s b e /\ l = OCCUPIED \/
                ~ obstacle p values s b e /\
                (if decide (1 < b)%Z then l = UNKNOWN else l = FREE)) ->
               exists c1, grid_get g1 s b = Ok c1 /\ PolarCell.idx c1 = l).
    { intros b e l Hb He Hl.
      destruct (Hcells s b Hsr) as (c0 & c1 & Hg0 & Hg1 & Hsw); [lia |].
      rewrite (grid_get_row g0 s b [e0; o; e2; e3] e) in Hg0 by (done || lia).
      injection Hg0 as <-. exists c1. split; [done |].
      destruct Hsw as (_ & _ & _ & _ & _ & _ & _ & _ & Hcase).
      destruct Hl as [[Hy ->] | [Hn Hl]].
      - destruct Hcase as [[_ ?] | [(? & _) | (? & _)]]; done.
      - destruct Hcase as [[? _] | [(_ & Hhit & Hu) | (_ & Hnh & Hf)]];
          [done | |].
        + destruct (decide (1 < b)%Z) as [_ | Hb1]; [congruence |].
          exfalso. destruct Hhit as (b' & cell' & Hb' & Hg' & Hobs').
          assert (b' = 0%Z) as -> by lia.
          rewrite (grid_get_row g0 s 0 [e0; o; e2; e3] e0) in Hg' by done.
          injection Hg' as <-. by destruct Hobs'.
        + destruct (decide (1 < b)%Z) as [Hb1 | _]; [| congruence].
          exfalso. apply Hnh. exists 1%Z, o. split; [lia |].
          split; [by apply (grid_get_row g0 s 1 [e0; o; e2; e3] o) | done]. }
    destruct (Hlab 0%Z e0 FREE) as (c0 & Hg0 & Hl0);
      [lia | done | right; split; [by intros [? _] | done] |].
    destruct (Hlab 1%Z o OCCUPIED) as (c1 & Hg1 & Hl1);
      [lia | done | by left |].
    destruct (Hlab 2%Z e2 UNKNOWN) as (c2 & Hg2 & Hl2);
      [lia | done | right; split; [by intros [? _] | done] |].
    destruct (Hlab 3%Z e3 UNKNOWN) as (c3 & Hg3 & Hl3);
      [lia | done | right; split; [by intros [? _] | done] |].
    destruct Hdims1 as [Hn1 Hm1].
    destruct (lookup_lt_is_Some_2 g1 (Z.to_nat s)) as [row Hrow1]; [lia |].
    exists row. split; [done |].
    rewrite Forall_lookup in Hm1. pose proof (Hm1 _ _ Hrow1) as Hlenrow.
    rewrite H4 in Hlenrow.
    assert (Hcellat : forall b c1, grid_get g1 s b = Ok c1 ->
                                   row !! Z.to_nat b = Some c1).
    { intros b c1' (row' & Hr' & Hc')%bind_Ok.
      apply vec_get_Ok in Hr' as [_ Hr']. rewrite Hrow1 in Hr'.
      injection Hr' as <-. by apply vec_get_Ok in Hc' as [_ Hc']. }
    apply Hcellat in Hg0, Hg1, Hg2, Hg3.
    destruct row as [| r0 [| r1 [| r2 [| r3 [| r4 row]]]]]; try done.
    simpl in Hg0, Hg1, Hg2, Hg3.
    injection Hg0 as ->. injection Hg1 as ->.
    injection Hg2 as ->. injection Hg3 as ->.
    simpl. by rewrite Hl0, Hl1, Hl2, Hl3.
Qed.

Lemma sweep_grid_ready : stats_ready sweep_grid.
Proof.
  intros s b cell (row & Hrow & Hcell)%bind_Ok Hcount.
  apply vec_get_Ok in Hrow as [_ Hrow]. apply vec_get_Ok in Hcell as [_ Hcell].
  destruct (Z.to_nat s) as [| n]; [| done]. injection Hrow as <-.
  destruct (Z.to_nat b) as [| [| [| [| n]]]]; try done;
    injection Hcell as <-; done.
Qed.

Lemma sweep_occlusion_witness :
  exists g1 row,
    sweep sweep_params level_plane sweep_grid = Ok g1 /\
    g1 !! O = Some row /\
    PolarCell.idx <$> row = [FREE; OCCUPIED; UNKNOWN; UNKNOWN].
Proof.
  destruct (sweep_occlusion sweep_params level_plane sweep_grid)
    as (g1 & Hsweep & _ & Hscenario).
  - simpl. lia.
  - split; [done |]. repeat constructor.
  - apply sweep_grid_ready.
  - simpl. lia.
  - simpl. lia.
  - destruct (Hscenario 0%Z PolarCell.fresh hit_cell PolarCell.fresh
                PolarCell.fresh (5 / 10)) as (row & Hrow & Hlabels);
      try done.
    + unfold ground_at, level_plane.
      destruct (fromPolarCellToVeloCoords sweep_params 0 1) as [x y].
      cbn [nth]. lra.
    + by exists g1, row.
Defined.

(** ** Inputs of the witnesses *)

Lemma node0_inv : node_inv config0 node0.
Proof. split; [reflexivity | apply length_replicate]. Qed.

Lemma plane0_plane : returns_plane plane0.
Proof. intros tol it cloud. simpl. split; [lia | lra]. Qed.

Lemma frames0_plane : Forall (fun f => returns_plane (f_segment f)) frames0.
Proof. repeat constructor; apply plane0_plane. Qed.

(** The raster of [config0] has two rows and four columns. *)
Lemma config0_sizes :
  grid_height (make_params config0) = 2%Z /\
  grid_width (make_params config0) = 4%Z.
Proof.
  assert (Hh : grid_height (make_params config0) = 2%Z).
  { rewrite (grid_height_floor config0 config0_valid).
    apply Zfloor_eq. simpl. lra. }
  split; [done |]. rewrite (grid_width_double config0), Hh. done.
Qed.

(** Frames of the node of [config0] that complete. *)
Lemma frame0_completes (cloud : list VPoint) :
  exists fuel this' warned,
    process_in (walk_exact (make_params config0)) fuel plane0 node0 cloud
    = Ok (this', warned).
Proof.
  destruct (process_spec config0 config0_valid plane0 node0 cloud node0_inv
              plane0_plane) as (this' & warned & _ & _ & Hproc).
  exists (grid_fuel (cfg_grid_cell_size config0) (polar_grid_ this')),
    this', warned.
  rewrite <- (process_exact _ plane0 node0). by apply Hproc.
Qed.

(** With the loop variables in binary32 the walk of [config0] goes through
    the same positions, every one of which is a binary32 number; so the
    frames complete in binary32 as well. *)
Lemma config0_walk_f32 :
  (forall j, (0 <= j < grid_height (make_params config0))%Z ->
     walk_R (walk_f32 two_f32 one_f32) (walk_x (walk_f32 two_f32 one_f32) j)
     = walk_R (walk_exact (make_params config0))
              (walk_x (walk_exact (make_params config0)) j)) /\
  (forall j i, (0 <= j < grid_height (make_params config0))%Z ->
     (j <= i < grid_width (make_params config0) - j)%Z ->
     walk_R (walk_f32 two_f32 one_f32)
            (walk_y (walk_f32 two_f32 one_f32) j i)
     = walk_R (walk_exact (make_params config0))
              (walk_y (walk_exact (make_params config0)) j i)).
Proof.
  destruct config0_sizes as [-> ->]. split.
  - intros j Hj. rewrite walk_exact_x by lia. unfold raster_x.
    cbn [walk_R walk_f32 make_params grid_max_range grid_cell_size config0
         cfg_grid_max_range cfg_grid_cell_size].
    assert (Hc : j = 0%Z \/ j = 1%Z) by lia.
    destruct Hc as [-> | ->]; eval_floats; lra.
  - intros j i Hj Hi. rewrite walk_exact_y by lia. unfold raster_y, raster_x.
    cbn [walk_R walk_f32 make_params grid_max_range grid_cell_size config0
         cfg_grid_max_range cfg_grid_cell_size].
    assert (Hc : j = 0%Z /\ (i = 0 \/ i = 1 \/ i = 2 \/ i = 3)%Z \/
                 j = 1%Z /\ (i = 1 \/ i = 2)%Z) by lia.
    destruct Hc as [[-> [-> | [-> | [-> | ->]]]] | [-> [-> | ->]]];
      eval_floats; lra.
Qed.

Lemma frame0_completes_f32 (cloud : list VPoint) :
  exists fuel this' warned,
    process_in (walk_f32 two_f32 one_f32) fuel plane0 node0 cloud
    = Ok (this', warned).
Proof.
  destruct (frame0_completes cloud) as (fuel & this' & warned & Hproc).
  exists fuel, this', warned. rewrite <- Hproc.
  destruct config0_walk_f32 as [Hx Hy]. by apply process_in_agree.
Qed.

(** ** C5: elevated and ground points *)

(** C5.  The partition loop, on any grid in which every point of the
    list finds its cell with a ground and a height: the loop completes, a
    point is in the elevated cloud iff [point.z > cell.ground] and
    [cell.height > grid_min_height] for its backing polar cell, and in the
    ground cloud otherwise, in the order of the list.  In particular a
    point whose cell is not higher than the threshold goes to the ground
    cloud whatever its own z: so does the point at [z = ground + 0.1] in a
    cell of height 0.05 under the threshold 0.2.  (After a frame the
    height of a cell is [z_max - ground] of the points binned into it,
    never less than [z - ground] of one of them: the cell of this scenario
    is one of a grid given to the loop, not of a binned frame.) *)
Theorem partition_by_cell (p : Parameters) (g : Grid) (pts : list VPoint) :
  Forall (cell_ready p g) pts ->
  exists gnd elv,
    divide_points p g pts ([], []) = Ok (gnd, elv) /\
    elv = filter (point_elevated p g) pts /\
    gnd = filter (fun pt => ~ point_elevated p g pt) pts /\
    forall pt, pt ∈ pts ->
      exists cell gr h,
        grid_get g (cell_of p pt).1 (cell_of p pt).2 = Ok cell /\
        PolarCell.ground cell = Some gr /\ PolarCell.height cell = Some h /\
        (pt ∈ elv <-> pz pt > gr /\ h > grid_min_height p) /\
        (pt ∈ gnd <-> ~ (pz pt > gr /\ h > grid_min_height p)) /\
        (h <= grid_min_height p -> pt ∈ gnd /\ pt ∉ elv) /\
        (h = 5 / 100 -> grid_min_height p = 2 / 10 -> pz pt = gr + 1 / 10 ->
         pz pt > gr /\ pt ∈ gnd /\ pt ∉ elv).
Proof.
  intros Hready.
  exists (filter (fun pt => ~ point_elevated p g pt) pts),
    (filter (point_elevated p g) pts).
  split; [apply (divide_points_spec p g pts [] [] Hready) |].
  split; [done |]. split; [done |].
  intros pt Hpt. rewrite Forall_forall in Hready.
  destruct (Hready pt Hpt) as (cell & gr & h & _ & _ & Hget & _ & Hgr & Hh).
  exists cell, gr, h. split; [done |]. split; [done |]. split; [done |].
  assert (Hiff : point_elevated p g pt <->
                 pz pt > gr /\ h > grid_min_height p).
  { unfold point_elevated. by rewrite Hget, Hgr, Hh. }
  rewrite !list_elem_of_filter, Hiff.
  split; [tauto |]. split; [tauto |]. split.
  - intros Hlow. split; [split; [lra | done] | intros [[_ ?] _]; lra].
  - intros -> Hthr Hz. split; [lra |].
    split; [split; [lra | done] | intros [[_ ?] _]; lra].
Qed.

Lemma scenario_cell_of : cell_of sweep_params scenario_point = (0%Z, 1%Z).
Proof.
  unfold scenario_point. rewrite cell_of_axis by lra.
  pose proof PI_RGT_0 as Hpi. f_equal.
  - rewrite trunc_nonneg; [apply Zfloor_eq | ]; simpl;
      replace (PI / 4 * (2 / PI)) with (1 / 2) by (field; lra); lra.
  - transitivity (trunc (IZR 1)); [| apply trunc_IZR]. f_equal.
    simpl. lra.
Qed.

Lemma scenario_ready :
  Forall (cell_ready sweep_params scenario_grid) [scenario_point].
Proof.
  apply Forall_singleton.
  exists scenario_cell, 0, (5 / 100). rewrite scenario_cell_of. cbn [fst snd].
  split; [simpl; lia |]. split; [simpl; lia |]. split; [done |].
  split; [simpl; lia |]. done.
Qed.

Lemma partition_by_cell_witness :
  exists gnd elv,
    divide_points sweep_params scenario_grid [scenario_point] ([], [])
    = Ok (gnd, elv) /\
    pz scenario_point > 0 /\ scenario_point ∈ gnd /\ scenario_point ∉ elv.
Proof.
  destruct (partition_by_cell sweep_params scenario_grid [scenario_point]
              scenario_ready) as (gnd & elv & Hdiv & _ & _ & Hall).
  exists gnd, elv. split; [done |].
  destruct (Hall scenario_point (list_elem_of_here _ _))
    as (cell & gr & h & Hget & Hgr & Hh & _ & _ & _ & Hscen).
  rewrite scenario_cell_of in Hget. cbn [fst snd] in Hget.
  injection Hget as <-. injection Hgr as <-. injection Hh as <-.
  destruct Hscen as (Hz & Hin & Hout); [done | done | simpl; lra |].
  split; [simpl; lra |]. done.
Defined.

(** ** C10: the partition addresses the cells of the binning *)

(** C10.  The partition after a binning and a sweep that completed, for
    any parameters.  The partition recomputes the cell of a point with
    the function the binning used, on the same coordinates, so it gets the
    pair of the binning; the binning has indexed the grid with that pair,
    so it is in range; the binning counted the point there, so the cell
    has [count >= 1], and the sweep has set the ground and the height of
    such a cell.  Hence the partition loop completes on the filtered
    cloud: no lookup of it is out of range and none reads an unset field.
    That the pair is in range is taken from the lookup of the binning, not
    derived from the gates: how the products of lines 460-463 round is not
    assumed. *)
Theorem partition_lookup_safe (p : Parameters) (cloud : list VPoint)
    (values : list R) (inl : list nat) (g0 g1 : Grid) :
  bin_points p 0 cloud ([], new_polar_grid p) = Ok (inl, g0) ->
  sweep p values g0 = Ok g1 ->
  (exists gnd elv,
     divide_points p g1 (extract_indices cloud inl) ([], [])
     = Ok (gnd, elv)) /\
  forall pt, pt ∈ extract_indices cloud inl ->
    pt ∈ cloud /\ passes_gate p pt /\
    (0 <= (cell_of p pt).1 < grid_segments p)%Z /\
    (0 <= (cell_of p pt).2 < grid_bins p)%Z /\
    pt ∈ routed p cloud (cell_of p pt).1 (cell_of p pt).2 /\
    exists cell gr h,
      grid_get g1 (cell_of p pt).1 (cell_of p pt).2 = Ok cell /\
      (1 <= PolarCell.count cell)%Z /\
      PolarCell.count cell
      = Z.of_nat (length (routed p cloud (cell_of p pt).1 (cell_of p pt).2)) /\
      PolarCell.ground cell = Some gr /\ PolarCell.height cell = Some h.
Proof.
  intros Hbin Hsweep.
  destruct (bin_points_complete p cloud inl g0 Hbin)
    as (Hbinned & Hsel & Hrange).
  rewrite Hsel.
  assert (Hall : forall pt, pt ∈ filter (passes_gate p) cloud ->
            pt ∈ cloud /\ passes_gate p pt /\
            (0 <= (cell_of p pt).1 < grid_segments p)%Z /\
            (0 <= (cell_of p pt).2 < grid_bins p)%Z /\
            cell_ready p g1 pt /\
            pt ∈ routed p cloud (cell_of p pt).1 (cell_of p pt).2 /\
            exists cell,
              grid_get g1 (cell_of p pt).1 (cell_of p pt).2 = Ok cell /\
              PolarCell.count cell
              = Z.of_nat
                  (length (routed p cloud (cell_of p pt).1 (cell_of p pt).2))).
  { intros pt Hpt. pose proof Hpt as Hpt'.
    apply list_elem_of_filter in Hpt' as [Hgate Hin].
    destruct (Hrange pt Hin Hgate) as [Hs Hb].
    assert (Hlen : (4 <= length values)%nat)
      by (apply (sweep_needs_plane p values g0 g1 Hsweep); lia).
    assert (Hswept : swept p values g0 g1).
    { apply sweep_complete; [done | apply Hbinned | | done].
      by apply (binned_stats_ready p cloud). }
    destruct (gated_cell_ready p cloud values g0 g1 pt Hbinned Hswept Hpt
                Hs Hb) as (Hready & Hrouted & Hcell).
    do 6 (split; [done |]). done. }
  split.
  - eexists _, _. apply divide_points_spec.
    apply Forall_forall. intros pt Hpt. by apply Hall.
  - intros pt Hpt.
    destruct (Hall pt Hpt)
      as (Hin & Hgate & Hs & Hb & Hready & Hrouted & cell & Hget & Hcount).
    do 5 (split; [done |]).
    destruct Hready as (cell' & gr & h & _ & _ & Hget' & Hpos & Hgr & Hh).
    rewrite Hget in Hget'. injection Hget' as <-.
    by exists cell, gr, h.
Qed.

Lemma partition_lookup_safe_witness :
  exists inl g0 g1 gnd elv,
    bin_points (make_params config0) 0 cloud0
               ([], new_polar_grid (make_params config0)) = Ok (inl, g0) /\
    sweep (make_params config0) [0; 0; 1; 173 / 100] g0 = Ok g1 /\
    divide_points (make_params config0) g1 (extract_indices cloud0 inl)
                  ([], []) = Ok (gnd, elv) /\
    mkVPoint 1 0 1 ∈ extract_indices cloud0 inl.
Proof.
  destruct (bin_points_spec config0 config0_valid cloud0)
    as (inl & g0 & Hbin & Hbinned & Hsel).
  destruct (sweep_spec (make_params config0) [0; 0; 1; 173 / 100] g0)
    as (g1 & Hsweep & _).
  - simpl. lia.
  - apply Hbinned.
  - by apply (binned_stats_ready (make_params config0) cloud0).
  - simpl. lia.
  - pose proof (grid_bins_pos config0 config0_valid). lia.
  - destruct (partition_lookup_safe _ _ _ _ _ _ Hbin Hsweep)
      as [(gnd & elv & Hdiv) _].
    exists inl, g0, g1, gnd, elv. do 3 (split; [done |]).
    rewrite Hsel. apply list_elem_of_filter. split.
    + apply gate_axis; simpl; try lra. pose proof PI_RGT_0. lra.
    + apply list_elem_of_further, list_elem_of_here.
Defined.


(** ** C4: the raster walk *)

(** C4.  The node of range 2, cell size 0.1 and two segments: its raster
    has [int(2 / 0.1) = 20] rows and 40 columns, the quotient being
    rounded to 20 in binary32 as in binary64.  The last cell of the first
    row, [(39, 0)], is inside the footprint; the walk reaches it after 39
    decrements of [y] by the cell size, and the position it has then lies
    beyond the diagonal [y = -x]: with the loop variables in binary32
    (the range and the cell size being [float] or [double] fields), and
    already in exact arithmetic on the cell size as it is stored, which
    is larger than 0.1.  The test [x == -y] of line 465 does not hold
    there, the segment index is [grid_segments], and the lookup
    [polar_grid_[seg][bin]] of line 399 is past the last segment: for no
    grid of two segments does the walk complete, and no frame of that
    node completes, so the cell never receives the value of a backing
    cell.  (The index function is applied to the positions of the walk as
    real numbers.) *)
Theorem raster_walk_out_of_range (a : WalkArith) (cs : R) :
  a = walk_f32 two_f32 tenth_f32 /\ cs = SF2R tenth_f32 \/
  a = walk_f64 two_f64 tenth_f64 /\ cs = SF2R tenth_f64 \/
  a = walk_exact (drift_params cs) /\
  (cs = SF2R tenth_f32 \/ cs = SF2R tenth_f64) ->
  let p := drift_params cs in
  let x := walk_R a (walk_start a) in
  let y := walk_R a (Nat.iter 39 (walk_next a) (walk_start a)) in
  SFtrunc (SFdiv 24 128 two_f32 tenth_f32) = grid_height p /\
  SFtrunc (SFdiv 53 1024 two_f64 tenth_f64) = grid_height p /\
  grid_width p = (2 * grid_height p)%Z /\
  in_footprint p 0 39 /\
  0 < x /\ y < - x /\
  (fromVeloCoordsToPolarCell p x y).1 = grid_segments p /\
  (forall grid bin,
     length grid = Z.to_nat (grid_segments p) ->
     grid_get grid (fromVeloCoordsToPolarCell p x y).1 bin
     = Fail OutOfRange) /\
  (forall fuel grid d r,
     length grid = Z.to_nat (grid_segments p) ->
     rasterize_in a fuel p grid d <> Ok r) /\
  (forall fuel segment this cloud out,
     params_ this = p -> process_in a fuel segment this cloud <> Ok out) /\
  (a = walk_exact p ->
   forall fuel segment this cloud out,
     params_ this = p -> process fuel segment this cloud <> Ok out).
Proof.
  intros Ha p x y.
  assert (H32 : SF2R tenth_f32 = 13421773 / 134217728).
  { unfold tenth_f32. rewrite SF2R_finite_neg by lia. done. }
  assert (H64 : SF2R tenth_f64 = 7205759403792794 / 72057594037927936).
  { unfold tenth_f64. rewrite SF2R_finite_neg by lia. done. }
  assert (Hpos : 0 < x /\ y < - x).
  { unfold x, y.
    destruct Ha as [[-> _] | [[-> _] | [-> Hcs]]].
    - assert (Hx : walk_start (walk_f32 two_f32 tenth_f32)
                   = S754_finite false 16357786 (-23)) by (by vm_compute).
      assert (Hy : Nat.iter 39 (walk_next (walk_f32 two_f32 tenth_f32))
                     (walk_start (walk_f32 two_f32 tenth_f32))
                   = S754_finite true 16357790 (-23)) by (by vm_compute).
      rewrite Hy, Hx. cbn [walk_R walk_f32].
      rewrite !SF2R_finite_neg by lia.
      change (2 ^ (- -23))%Z with 8388608%Z.
      change (cond_Zopp false 16357786) with 16357786%Z.
      change (cond_Zopp true 16357790) with (-16357790)%Z. lra.
    - assert (Hx : walk_start (walk_f64 two_f64 tenth_f64)
                   = S754_finite false 16357786 (-23)) by (by vm_compute).
      assert (Hy : Nat.iter 39 (walk_next (walk_f64 two_f64 tenth_f64))
                     (walk_start (walk_f64 two_f64 tenth_f64))
                   = S754_finite true 16357790 (-23)) by (by vm_compute).
      rewrite Hy, Hx. cbn [walk_R walk_f64].
      rewrite !SF2R_finite_neg by lia.
      change (2 ^ (- -23))%Z with 8388608%Z.
      change (cond_Zopp false 16357786) with 16357786%Z.
      change (cond_Zopp true 16357790) with (-16357790)%Z. lra.
    - cbn [walk_R walk_start walk_next walk_exact drift_params
           grid_max_range grid_cell_size].
      rewrite iter_decrement, INR_IZR_INZ. change (Z.of_nat 39) with 39%Z.
      destruct Hcs as [-> | ->]; [rewrite H32 | rewrite H64]; lra. }
  destruct Hpos as [Hx Hy].
  assert (Hseg : (fromVeloCoordsToPolarCell p x y).1 = grid_segments p).
  { destruct (past_diagonal_segment p x y) as [Hge Hlt];
      [done | done | simpl; lia | done | done |].
    cbn [grid_segments p drift_params] in *. lia. }
  destruct (walk_leaves_field a p 39)
    as [Hwalk Hproc]; [done | done | simpl; lia | simpl; lia | simpl; lia
                      | done | done |].
  split; [by vm_compute |]. split; [by vm_compute |]. split; [done |].
  split; [unfold in_footprint; simpl; lia |].
  split; [done |]. split; [done |]. split; [done |]. split.
  { intros grid bin Hlen. apply grid_get_past_end. rewrite Hseg, Hlen.
    simpl. lia. }
  split; [done |]. split; [done |].
  intros -> fuel segment this cloud out Hp. rewrite process_exact, Hp.
  by apply Hproc.
Qed.

Lemma raster_walk_out_of_range_witness :
  (fromVeloCoordsToPolarCell (drift_params (SF2R tenth_f32))
     (SF2R (walk_start (walk_f32 two_f32 tenth_f32)))
     (SF2R (Nat.iter 39 (walk_next (walk_f32 two_f32 tenth_f32))
              (walk_start (walk_f32 two_f32 tenth_f32))))).1 = 2%Z /\
  rasterize_in (walk_f32 two_f32 tenth_f32) 0
    (drift_params (SF2R tenth_f32))
    (new_polar_grid (drift_params (SF2R tenth_f32)))
    (replicate 800 0%Z)
  <> Ok (mkRaster (replicate 800 0%Z) [] []).
Proof.
  destruct (raster_walk_out_of_range (walk_f32 two_f32 tenth_f32)
              (SF2R tenth_f32))
    as (_ & _ & _ & _ & _ & _ & Hseg & _ & Hwalk & _); [by left |].
  split; [exact Hseg |]. apply Hwalk. done.
Defined.


(** ** C6: the cells outside the footprint *)

(** C6.  Over the sizes [grid_height] and [grid_width] the node holds,
    whatever they are within the range of an [int]: the loop of the
    constructor (lines 91-99) completes on the zeroed raster and leaves
    -1 in every cell [(i, j)] with [i < j] or [i >= width - j]; and
    whenever a frame, or any number of frames, runs to completion on a
    node of these sizes, each of these cells holds after it what it held
    before, so -1 on the raster of the constructor: the walk writes
    inside the footprint only.  This holds whatever the format [a] of the
    loop variables of the walk; [run] is [run_in] for the exact reals. *)
Theorem boundary_cells_fixed (p : Parameters) :
  (0 <= grid_height p)%Z -> (0 <= grid_width p)%Z ->
  (grid_width p * grid_height p <= 2147483647)%Z ->
  exists d,
    init_occ_data p (replicate (Z.to_nat (grid_width p * grid_height p)) 0%Z)
    = Ok d /\
    (forall j i, (0 <= j < grid_height p)%Z -> (0 <= i < grid_width p)%Z ->
                 boundary p j i -> d !! cell_index p j i = Some (-1)%Z) /\
    (forall a fuel segment this this' cloud warned,
       params_ this = p ->
       process_in a fuel segment this cloud = Ok (this', warned) ->
       forall j i, (0 <= j < grid_height p)%Z -> (0 <= i < grid_width p)%Z ->
                   boundary p j i ->
         data (occ_grid_ this') !! cell_index p j i
         = data (occ_grid_ this) !! cell_index p j i) /\
    (forall a fuel frames this this',
       params_ this = p ->
       run_in a fuel this frames = Ok this' ->
       forall j i, (0 <= j < grid_height p)%Z -> (0 <= i < grid_width p)%Z ->
                   boundary p j i ->
         data (occ_grid_ this') !! cell_index p j i
         = data (occ_grid_ this) !! cell_index p j i /\
         (data (occ_grid_ this) = d ->
          data (occ_grid_ this') !! cell_index p j i = Some (-1)%Z)) /\
    (forall fuel frames this this',
       params_ this = p ->
       run fuel this frames = Ok this' ->
       forall j i, (0 <= j < grid_height p)%Z -> (0 <= i < grid_width p)%Z ->
                   boundary p j i ->
         data (occ_grid_ this') !! cell_index p j i
         = data (occ_grid_ this) !! cell_index p j i /\
         (data (occ_grid_ this) = d ->
          data (occ_grid_ this') !! cell_index p j i = Some (-1)%Z)).
Proof.
  intros Hh Hw _.
  destruct (init_occ_data_any p Hh Hw
              (replicate (Z.to_nat (grid_width p * grid_height p)) 0%Z))
    as (d & Hinit & _ & Hset & _); [apply length_replicate |].
  assert (Hrun : forall a fuel frames this this',
            params_ this = p ->
            run_in a fuel this frames = Ok this' ->
            forall j i, (0 <= j < grid_height p)%Z ->
                        (0 <= i < grid_width p)%Z -> boundary p j i ->
              data (occ_grid_ this') !! cell_index p j i
              = data (occ_grid_ this) !! cell_index p j i /\
              (data (occ_grid_ this) = d ->
               data (occ_grid_ this') !! cell_index p j i = Some (-1)%Z)).
  { intros a fuel frames this this' Hp Hrun j i Hj Hi Hb.
    destruct (run_frame _ _ _ _ _ Hrun) as (_ & _ & Hkeep).
    rewrite Hp in Hkeep.
    assert (Hsame : data (occ_grid_ this') !! cell_index p j i
                    = data (occ_grid_ this) !! cell_index p j i).
    { apply Hkeep. intros j' i' Hf.
      apply boundary_not_footprint; [lia | done | done | done]. }
    split; [done |]. intros Hd. rewrite Hsame, Hd. by apply Hset. }
  exists d. split; [done |]. split; [done |]. split; [| split; [done |]].
  - intros a fuel segment this this' cloud warned Hp Hproc j i Hj Hi Hb.
    destruct (process_frame _ _ _ _ _ _ _ Hproc) as (_ & _ & Hkeep).
    rewrite Hp in Hkeep. apply Hkeep. intros j' i' Hf.
    apply boundary_not_footprint; [lia | done | done | done].
  - intros fuel frames this this' Hp Hr. rewrite run_exact in Hr.
    by apply (Hrun (walk_exact (params_ this)) fuel frames).
Qed.

Lemma boundary_cells_fixed_witness :
  exists n0 this0 this',
    SensorFusion_new config0 = Ok this0 /\
    run n0 this0 frames0 = Ok this' /\
    data (occ_grid_ this0) !! cell_index (make_params config0) 1 0
    = Some (-1)%Z /\
    data (occ_grid_ this') !! cell_index (make_params config0) 1 0
    = Some (-1)%Z.
Proof.
  destruct config0_sizes as [Hh Hw].
  destruct (boundary_cells_fixed (make_params config0))
    as (d & Hinit & Hset & _ & _ & Hrun); [lia | lia | lia |].
  destruct (SensorFusion_new_spec config0 config0_valid)
    as (this0 & Hnew & Hinv & _).
  destruct (run_spec config0 config0_valid frames0 frames0_plane this0 Hinv)
    as (n0 & this' & Hfuel & _).
  exists n0, this0, this'. split; [done |].
  split; [by apply Hfuel |].
  assert (Hd : data (occ_grid_ this0) = d).
  { unfold SensorFusion_new in Hnew. rewrite Hinit in Hnew.
    by injection Hnew as <-. }
  assert (Hb : boundary (make_params config0) 1 0) by (left; lia).
  split.
  - rewrite Hd. apply Hset; [lia | lia | done].
  - apply (Hrun n0 frames0 this0 this'); [apply Hinv | by apply Hfuel | lia
                                         | lia | done | done].
Defined.


(** ** C2: a fit without a model *)

(** A fit that returns fewer than four coefficients stops the frame at the
    centre ground height, whatever the cloud: [values[3]] is outside the
    vector. *)
Lemma process_needs_plane (c : Config) (segment : Segmentation)
    (this : SensorFusion) (cloud : list VPoint) (fuel : nat) :
  valid_config c -> params_ this = make_params c ->
  (forall tol it cands, (length (segment tol it cands).2 < 4)%nat) ->
  process fuel segment this cloud = Fail OutOfRange.
Proof.
  intros Hvalid Hparams Hshort.
  pose proof (segs_pos c Hvalid) as Hsegs.
  pose proof (grid_bins_pos c Hvalid) as Hbins.
  destruct (bin_points_spec c Hvalid cloud) as (inl & g0 & Hbin & Hb & _).
  pose proof (binned_stats_ready _ cloud g0 Hb) as Hstats.
  destruct Hb as [Hdims0 _].
  destruct (ground_plane_candidates_ok _ g0 Hdims0 Hstats) as [cands Hcands];
    [simpl; lia | lia |].
  unfold process. rewrite Hparams, Hbin. cbn [mbind Res_bind].
  rewrite Hcands. cbn [mbind Res_bind].
  specialize (Hshort (ransac_tolerance (make_params c))
                (ransac_iterations (make_params c)) cands).
  destruct (segment _ _ cands) as [fit_inliers values]. cbn [snd] in Hshort.
  unfold ground_height_check, vec_get.
  change (Z.to_nat 3) with 3%nat.
  destruct (decide (0 <= 3)%Z); [| lia].
  assert (Hnone : values !! 3%nat = None) by (apply lookup_ge_None_2; lia).
  by rewrite Hnone.
Qed.

(** An empty cloud leaves the grid fresh, and a fresh grid has no ground
    candidate. *)
Lemma ground_plane_candidates_fresh (c : Config) :
  valid_config c ->
  ground_plane_candidates (make_params c) (new_polar_grid (make_params c))
  = Ok [].
Proof.
  intros Hvalid. set (p := make_params c).
  pose proof (segs_pos c Hvalid) as Hsegs.
  pose proof (grid_bins_pos c Hvalid) as Hbins. fold p in Hbins.
  unfold ground_plane_candidates.
  destruct (for_range_inv (fun _ acc => acc = [])
              (fun i acc => for_range 0 (grid_bins p)
                              (ground_plane_cell p (new_polar_grid p) i) acc)
              0 (grid_segments p) []) as (cands & Hc & ->);
    [simpl; lia | done | | done].
  intros i acc Hi ->.
  destruct (for_range_inv (fun _ acc => acc = [])
              (ground_plane_cell p (new_polar_grid p) i)
              0 (grid_bins p) []) as (acc' & Ha & ->); [lia | done | |].
  - intros j acc Hj ->.
    destruct (grid_get_in_range _ _ _ i j (new_polar_grid_dims p) Hi Hj)
      as [cell Hget].
    unfold ground_plane_cell. rewrite Hget. cbn [mbind Res_bind].
    apply new_polar_grid_get in Hget as ->. by exists [].
  - by exists [].
Qed.

(** C2 fails on the code.  On the frame with an empty cloud the filtered
    cloud and the ground-candidate set are empty; the fit then finds no
    model (no inlier, no coefficient) and [process] does not complete: the
    read of [coefficients->values[3]] for the centre ground height is
    outside the vector, before the sanity check and before anything
    downstream. *)
Theorem process_without_model (fuel : nat) :
  bin_points (make_params config0) 0 []
             ([], new_polar_grid (make_params config0))
  = Ok ([], new_polar_grid (make_params config0)) /\
  ground_plane_candidates (make_params config0)
                          (new_polar_grid (make_params config0)) = Ok [] /\
  no_model (ransac_tolerance (make_params config0))
           (ransac_iterations (make_params config0)) [] = ([], []) /\
  ground_height_check [] [] = Fail OutOfRange /\
  process fuel no_model node0 [] = Fail OutOfRange.
Proof.
  split; [done |].
  split; [apply ground_plane_candidates_fresh, config0_valid |].
  split; [done |]. split; [done |].
  apply (process_needs_plane config0); [apply config0_valid | done |].
  intros tol it cands. simpl. lia.
Qed.

(** * Further properties of the code *)

(** ** Grid geometry *)

Lemma atan2_scale (k x y : R) : 0 < k -> atan2 (k * y) (k * x) = atan2 y x.
Proof.
  intros Hk. unfold atan2.
  assert (Hq : x <> 0 -> k * y / (k * x) = y / x) by (intros; field; lra).
  destruct (decide (0 < x)) as [Hx | Hx].
  - rewrite decide_True by nra. rewrite Hq by lra. done.
  - rewrite (decide_False (P := 0 < k * x)) by nra.
    destruct (decide (x < 0)) as [Hx' | Hx'].
    + rewrite (decide_True (P := k * x < 0)) by nra. rewrite Hq by lra.
      destruct (decide (y < 0)).
      * rewrite decide_True by nra. done.
      * rewrite decide_False by nra. done.
    + rewrite (decide_False (P := k * x < 0)) by nra.
      destruct (decide (0 < y)).
      * rewrite decide_True by nra. done.
      * rewrite (decide_False (P := 0 < k * y)) by nra.
        destruct (decide (y < 0)).
        -- rewrite decide_True by nra. done.
        -- rewrite decide_False by nra. done.
Qed.

(** X1.  The segment of a point depends on its direction only: scaling
    the point by a positive factor leaves the segment index unchanged,
    whatever the parameters. *)
Theorem segment_of_direction (p : Parameters) (k x y : R) :
  0 < k ->
  (fromVeloCoordsToPolarCell p (k * x) (k * y)).1
  = (fromVeloCoordsToPolarCell p x y).1.
Proof.
  intros Hk. unfold fromVeloCoordsToPolarCell. cbn [fst].
  rewrite atan2_scale by done.
  destruct (decide (x = - y)) as [He | Hne].
  - rewrite decide_True by nra. done.
  - rewrite decide_False; [done |]. intros He. apply Hne. nra.
Qed.

Lemma segment_of_direction_witness :
  (fromVeloCoordsToPolarCell (make_params config0) (2 * 1) (2 * 0)).1
  = (fromVeloCoordsToPolarCell (make_params config0) 1 0).1.
Proof. apply segment_of_direction. lra. Defined.

(** X3.  The two edges of the field of view and the origin.  Under a valid
    configuration a point on the diagonal [y = x], [x > 0] is in segment 0;
    every point with [x == -y], in front of the sensor, behind it or at the
    origin, is put in the last segment; the origin is in bin 0. *)
Theorem diagonal_segments (c : Config) (x : R) :
  valid_config c ->
  (0 < x -> (fromVeloCoordsToPolarCell (make_params c) x x).1 = 0%Z) /\
  (fromVeloCoordsToPolarCell (make_params c) x (- x)).1
  = (cfg_grid_segments c - 1)%Z /\
  fromVeloCoordsToPolarCell (make_params c) 0 0
  = ((cfg_grid_segments c - 1)%Z, 0%Z).
Proof.
  intros Hvalid. split; [| split].
  - intros Hx. unfold fromVeloCoordsToPolarCell. cbn [fst].
    rewrite decide_False by lra.
    rewrite atan2_pos by done.
    replace (x / x) with 1 by (field; lra). rewrite atan_1.
    change (lidar_opening_angle (make_params c)) with (PI / 4).
    replace (- (PI / 4) + PI / 4) with 0 by lra.
    rewrite Rmult_0_l. apply (trunc_IZR 0).
  - unfold fromVeloCoordsToPolarCell. cbn [fst].
    rewrite decide_True by lra. done.
  - unfold fromVeloCoordsToPolarCell.
    rewrite decide_True by lra. f_equal.
    replace (0 * 0 + 0 * 0) with 0 by lra.
    rewrite sqrt_0, Rmult_0_l. apply (trunc_IZR 0).
Qed.

Lemma diagonal_segments_witness :
  (fromVeloCoordsToPolarCell (make_params config0) 1 1).1 = 0%Z /\
  (fromVeloCoordsToPolarCell (make_params config0) 1 (- 1)).1 = 1%Z.
Proof.
  destruct (diagonal_segments config0 1 config0_valid) as (Hfirst & Hlast & _).
  split; [apply Hfirst; lra | exact Hlast].
Defined.

(** ** Binning *)

(** In the arithmetic of the model the bin of a point is the floor of its
    range over the cell size. *)
Lemma bin_of_range (c : Config) (x y : R) :
  valid_config c ->
  let b := (fromVeloCoordsToPolarCell (make_params c) x y).2 in
  (0 <= b)%Z /\
  IZR b * cfg_grid_cell_size c <= sqrt (x * x + y * y)
  < (IZR b + 1) * cfg_grid_cell_size c.
Proof.
  intros Hvalid b. pose proof (cs_pos c Hvalid) as Hcs.
  unfold b, fromVeloCoordsToPolarCell. cbn [snd].
  change (inv_radial_res (make_params c)) with (1 / cfg_grid_cell_size c).
  set (cs := cfg_grid_cell_size c) in *.
  set (mag := sqrt (x * x + y * y)).
  assert (H0 : 0 <= mag) by apply sqrt_pos.
  assert (Hq : mag * (1 / cs) = mag / cs) by (field; lra).
  rewrite Hq.
  assert (Hq0 : 0 <= mag / cs).
  { apply Rmult_le_pos; [done |]. apply Rlt_le, Rinv_0_lt_compat, Hcs. }
  rewrite trunc_nonneg by done.
  pose proof (Zfloor_bound (mag / cs)) as [Hlo Hhi].
  split; [apply Zfloor_lub; simpl; lra |].
  assert (Hm : mag = mag / cs * cs) by (field; lra).
  split.
  - rewrite Hm at 2. apply Rmult_le_compat_r; lra.
  - rewrite Hm at 1. apply Rmult_lt_compat_r; lra.
Qed.

(** X5.  Only the bins between the minimal and the maximal range hold
    points.  After binning, under a valid configuration, a cell of bin [b]
    with [count > 0] has
    [floor(min_range / cell_size) <= b <= floor(max_range / cell_size)]:
    the bins nearer than the minimal range and the outer bins, which the
    grid has for the corners of the raster, stay empty. *)
Theorem points_between_ranges (c : Config) (cloud : list VPoint) :
  valid_config c ->
  exists inl grid,
    bin_points (make_params c) 0 cloud ([], new_polar_grid (make_params c))
    = Ok (inl, grid) /\
    forall s b cell,
      grid_get grid s b = Ok cell -> (PolarCell.count cell > 0)%Z ->
      (Zfloor (cfg_grid_min_range c / cfg_grid_cell_size c) <= b
       <= Zfloor (cfg_grid_max_range c / cfg_grid_cell_size c))%Z.
Proof.
  intros Hvalid. pose proof (cs_pos c Hvalid) as Hcs.
  destruct (bin_points_spec c Hvalid cloud)
    as (inl & grid & Hb & [Hdims Hcells] & _).
  exists inl, grid. split; [done |]. intros s b cell Hget Hcount.
  destruct (grid_get_bound _ _ _ _ _ _ Hdims Hget) as [Hs Hbn].
  destruct (Hcells s b Hs Hbn) as (cell' & Hget' & Hst).
  rewrite Hget in Hget'. injection Hget' as <-.
  destruct Hst as (Hc & _ & _ & _ & Hpts).
  destruct Hpts as (lo & _ & Hlo & _).
  { intros Hnil. rewrite Hnil in Hc. simpl in Hc. lia. }
  unfold routed in Hlo. rewrite !list_elem_of_filter in Hlo.
  destruct Hlo as (Hcell & (_ & [Hmin Hmax] & _) & _).
  assert (Hbin : b = (fromVeloCoordsToPolarCell (make_params c)
                        (px lo) (py lo)).2).
  { unfold cell_of in Hcell. by rewrite Hcell. }
  pose proof (bin_of_range c (px lo) (py lo) Hvalid) as (_ & Hlow & Hup).
  rewrite <- Hbin in Hlow, Hup.
  change (grid_min_range (make_params c)) with (cfg_grid_min_range c) in Hmin.
  change (grid_max_range (make_params c)) with (cfg_grid_max_range c) in Hmax.
  set (cs := cfg_grid_cell_size c) in *.
  set (mag := sqrt (px lo * px lo + py lo * py lo)) in *.
  assert (Hfl : Zfloor (mag / cs) = b).
  { apply Zfloor_eq. split.
    - apply (Rmult_le_reg_r cs); [done |].
      replace (mag / cs * cs) with mag by (field; lra). done.
    - apply (Rmult_lt_reg_r cs); [done |].
      replace (mag / cs * cs) with mag by (field; lra). done. }
  rewrite <- Hfl. split; apply Zfloor_le.
  - apply Rmult_le_compat_r; [apply Rlt_le, Rinv_0_lt_compat, Hcs | lra].
  - apply Rmult_le_compat_r; [apply Rlt_le, Rinv_0_lt_compat, Hcs | lra].
Qed.

Lemma points_between_ranges_witness :
  exists inl grid,
    bin_points (make_params config0) 0 cloud0
               ([], new_polar_grid (make_params config0)) = Ok (inl, grid) /\
    forall s b cell,
      grid_get grid s b = Ok cell -> (PolarCell.count cell > 0)%Z ->
      (b <= Zfloor (cfg_grid_max_range config0
                    / cfg_grid_cell_size config0))%Z.
Proof.
  destruct (points_between_ranges config0 cloud0 config0_valid)
    as (inl & grid & Hb & Hcells).
  exists inl, grid. split; [done |]. intros s b cell Hget Hcount.
  by destruct (Hcells s b cell Hget Hcount).
Defined.

Lemma sumZ_insert {A} (f : A -> Z) (l : list A) (i : nat) (old x : A) :
  l !! i = Some old ->
  sumZ f (<[i := x]> l) = (sumZ f l - f old + f x)%Z.
Proof.
  revert i. induction l as [| a l IH]; intros i Hi; [done |].
  destruct i as [| i]; simpl in *.
  - injection Hi as ->. lia.
  - rewrite (IH i Hi). lia.
Qed.

Lemma sumZ_replicate_0 {A} (f : A -> Z) (n : nat) (a : A) :
  f a = 0%Z -> sumZ f (replicate n a) = 0%Z.
Proof. intros Ha. induction n as [| n IH]; simpl; [done | lia]. Qed.

Lemma grid_set_total (g g' : Grid) (s b : Z) (old cell : PolarCell.t) :
  grid_get g s b = Ok old -> grid_set g s b cell = Ok g' ->
  total_count g'
  = (total_count g - PolarCell.count old + PolarCell.count cell)%Z.
Proof.
  intros (row & Hrow & Hold)%bind_Ok. unfold grid_set. rewrite Hrow.
  cbn [mbind Res_bind].
  pose proof (vec_get_bound _ _ _ Hrow) as Hs.
  pose proof (vec_get_bound _ _ _ Hold) as Hb.
  rewrite vec_set_Ok by done. cbn [mbind Res_bind].
  rewrite vec_set_Ok by done. intros [= <-].
  apply vec_get_Ok in Hrow as [_ Hrow]. apply vec_get_Ok in Hold as [_ Hold].
  unfold total_count. rewrite (sumZ_insert _ g _ row) by done.
  rewrite (sumZ_insert _ row _ old) by done. lia.
Qed.

Lemma update_cell_count (cell cell' : PolarCell.t) (pt : VPoint) :
  update_cell cell pt = Ok cell' ->
  PolarCell.count cell' = (PolarCell.count cell + 1)%Z.
Proof.
  unfold update_cell. cbn [PolarCell.count PolarCell.set_count].
  destruct (decide (PolarCell.count cell + 1 = 1)%Z); [by intros [= <-] |].
  intros (zmin & _ & H)%bind_Ok. apply bind_Ok in H as (zmax & _ & H).
  injection H as <-.
  destruct (decide (pz pt < zmin)), (decide (pz pt > zmax)); done.
Qed.

Lemma bin_points_total (p : Parameters) (cloud : list VPoint) :
  forall (i : nat) (inl inl' : list nat) (grid grid' : Grid),
    bin_points p i cloud (inl, grid) = Ok (inl', grid') ->
    total_count grid'
    = (total_count grid + Z.of_nat (length (filter (passes_gate p) cloud)))%Z.
Proof.
  induction cloud as [| pt cloud IH]; intros i inl inl' grid grid' Hb.
  - injection Hb as _ <-. simpl. lia.
  - cbn [bin_points] in Hb. apply bind_Ok in Hb as ([inl1 grid1] & Hstep & Hb).
    rewrite (IH _ _ _ _ _ Hb), filter_cons.
    rewrite bin_point_gate in Hstep.
    destruct (decide (passes_gate p pt)).
    + apply bind_Ok in Hstep as (cell & Hget & Hstep).
      apply bind_Ok in Hstep as (cell' & Hup & Hstep).
      apply bind_Ok in Hstep as (g' & Hset & Hstep).
      injection Hstep as _ <-.
      rewrite (grid_set_total _ _ _ _ _ _ Hget Hset).
      rewrite (update_cell_count _ _ _ Hup). simpl. lia.
    + injection Hstep as _ <-. lia.
Qed.

(** X6.  Every filtered point is counted once.  Under a valid
    configuration the binning completes and the counts of the cells of the
    grid add up to the number of points of the filtered cloud; under any
    parameters they do whenever the binning completes. *)
Theorem counts_add_up (c : Config) (cloud : list VPoint) :
  valid_config c ->
  (exists inl grid,
     bin_points (make_params c) 0 cloud ([], new_polar_grid (make_params c))
     = Ok (inl, grid) /\
     total_count grid = Z.of_nat (length (extract_indices cloud inl))) /\
  (forall p inl grid,
     bin_points p 0 cloud ([], new_polar_grid p) = Ok (inl, grid) ->
     total_count grid = Z.of_nat (length (extract_indices cloud inl))).
Proof.
  intros Hvalid.
  assert (Hany : forall p inl grid,
             bin_points p 0 cloud ([], new_polar_grid p) = Ok (inl, grid) ->
             total_count grid = Z.of_nat (length (extract_indices cloud inl))).
  { intros p inl grid Hb.
    rewrite (bin_points_total p cloud _ _ _ _ _ Hb).
    apply (bin_points_selects p cloud [] []) in Hb as [_ Hex]; [| by split].
    simpl in Hex. rewrite Hex.
    assert (total_count (new_polar_grid p) = 0%Z) as ->; [| lia].
    unfold total_count, new_polar_grid. apply sumZ_replicate_0.
    by apply sumZ_replicate_0. }
  split; [| done].
  destruct (bin_points_spec c Hvalid cloud) as (inl & grid & Hb & _).
  exists inl, grid. split; [done |]. by apply (Hany (make_params c)).
Qed.

Lemma counts_add_up_witness :
  exists inl grid,
    bin_points (make_params config0) 0 cloud0
               ([], new_polar_grid (make_params config0)) = Ok (inl, grid) /\
    total_count grid = Z.of_nat (length (extract_indices cloud0 inl)).
Proof.
  by destruct (counts_add_up config0 cloud0 config0_valid) as [H _].
Defined.

(** ** The sweep *)

(** X7.  The labels of the sweep, exactly.  The sweep completes on every
    grid whose statistics are readable, given the four plane coefficients,
    and labels every cell: OCCUPIED iff the cell holds a point and
    [z_max - ground] exceeds the threshold; UNKNOWN iff it is not such a
    cell and a nearer cell of its segment is; FREE iff neither it nor any
    nearer cell of its segment is. *)
Theorem sweep_labels (p : Parameters) (values : list R) (g0 : Grid) :
  (4 <= length values)%nat ->
  grid_dims g0 (grid_segments p) (grid_bins p) -> stats_ready g0 ->
  (0 <= grid_segments p)%Z -> (0 <= grid_bins p)%Z ->
  exists g1,
    sweep p values g0 = Ok g1 /\
    forall s b c0,
      grid_get g0 s b = Ok c0 ->
      exists c1,
        grid_get g1 s b = Ok c1 /\
        (PolarCell.idx c1 = OCCUPIED <-> obstacle p values s b c0) /\
        (PolarCell.idx c1 = UNKNOWN <->
         ~ obstacle p values s b c0 /\ hit_before p values g0 s b) /\
        (PolarCell.idx c1 = FREE <->
         ~ obstacle p values s b c0 /\ ~ hit_before p values g0 s b).
Proof.
  intros Hlen Hdims Hready Hsegs Hbins.
  destruct (sweep_spec p values g0 Hlen Hdims Hready Hsegs Hbins)
    as (g1 & Hsweep & Hdims1 & Hcells).
  exists g1. split; [done |]. intros s b c0 Hget.
  destruct (grid_get_bound _ _ _ _ _ _ Hdims Hget) as [Hs Hb].
  destruct (Hcells s b Hs Hb) as (c0' & c1 & Hg0 & Hg1 & Hsw).
  rewrite Hget in Hg0. injection Hg0 as <-.
  exists c1. split; [done |].
  destruct Hsw as (_ & _ & _ & _ & _ & _ & _ & _ & Hl).
  destruct Hl as [[Ho Hl] | [(Hn & Hh & Hl) | (Hn & Hh & Hl)]];
    rewrite Hl; (split; [| split]); split; try done; try tauto;
    intros [? ?]; done.
Qed.

Lemma sweep_labels_witness :
  exists g1,
    sweep sweep_params level_plane sweep_grid = Ok g1 /\
    exists c1, grid_get g1 0 0 = Ok c1 /\ PolarCell.idx c1 = FREE.
Proof.
  destruct (sweep_labels sweep_params level_plane sweep_grid)
    as (g1 & Hsweep & Hcells).
  - simpl. lia.
  - split; [done |]. repeat constructor.
  - apply sweep_grid_ready.
  - simpl. lia.
  - simpl. lia.
  - exists g1. split; [done |].
    destruct (Hcells 0%Z 0%Z PolarCell.fresh eq_refl) as (c1 & Hg & _ & _ & Hf).
    exists c1. split; [done |]. apply Hf. split.
    + by intros [? _].
    + intros (b' & _ & Hb' & _). lia.
Defined.

(** X8.  The shape of a swept segment.  After the sweep the FREE cells of
    a segment are its nearest cells: every cell nearer than a FREE cell is
    FREE; and a cell is UNKNOWN only behind an OCCUPIED cell of its
    segment. *)
Theorem free_cells_first (p : Parameters) (values : list R) (g0 : Grid) :
  (4 <= length values)%nat ->
  grid_dims g0 (grid_segments p) (grid_bins p) -> stats_ready g0 ->
  (0 <= grid_segments p)%Z -> (0 <= grid_bins p)%Z ->
  exists g1,
    sweep p values g0 = Ok g1 /\
    (forall s b b' cell cell',
       (b <= b')%Z ->
       grid_get g1 s b = Ok cell -> grid_get g1 s b' = Ok cell' ->
       PolarCell.idx cell' = FREE -> PolarCell.idx cell = FREE) /\
    (forall s b' cell',
       grid_get g1 s b' = Ok cell' -> PolarCell.idx cell' = UNKNOWN ->
       exists b cell, (b < b')%Z /\ grid_get g1 s b = Ok cell /\
                      PolarCell.idx cell = OCCUPIED).
Proof.
  intros Hlen Hdims Hready Hsegs Hbins.
  destruct (sweep_spec p values g0 Hlen Hdims Hready Hsegs Hbins)
    as (g1 & Hsweep & Hdims1 & Hcells).
  exists g1. split; [done |]. split.
  - intros s b b' cell cell' Hle Hget Hget' Hfree.
    destruct (grid_get_bound _ _ _ _ _ _ Hdims1 Hget) as [Hs Hb].
    destruct (grid_get_bound _ _ _ _ _ _ Hdims1 Hget') as [_ Hb'].
    destruct (Hcells s b Hs Hb) as (c0 & c1 & Hg0 & Hg1 & Hsw).
    destruct (Hcells s b' Hs Hb') as (c0' & c1' & Hg0' & Hg1' & Hsw').
    rewrite Hget in Hg1. injection Hg1 as <-.
    rewrite Hget' in Hg1'. injection Hg1' as <-.
    destruct Hsw' as (_ & _ & _ & _ & _ & _ & _ & _ & Hl').
    destruct Hl' as [[_ Hl'] | [(_ & _ & Hl') | (Hn' & Hh' & _)]];
      [congruence | congruence |].
    destruct Hsw as (_ & _ & _ & _ & _ & _ & _ & _ & Hl).
    destruct Hl as [[Ho _] | [(_ & Hh & _) | (_ & _ & Hl)]]; [| | done].
    + exfalso. destruct (decide (b = b')) as [-> | Hne].
      * rewrite Hg0 in Hg0'. injection Hg0' as <-. done.
      * apply Hh'. exists b, c0. split; [lia | done].
    + exfalso. apply Hh'. destruct Hh as (b1 & c1 & Hb1 & Hrest).
      exists b1, c1. split; [lia | done].
  - intros s b' cell' Hget' Hunk.
    destruct (grid_get_bound _ _ _ _ _ _ Hdims1 Hget') as [Hs Hb'].
    destruct (Hcells s b' Hs Hb') as (c0' & c1' & Hg0' & Hg1' & Hsw').
    rewrite Hget' in Hg1'. injection Hg1' as <-.
    destruct Hsw' as (_ & _ & _ & _ & _ & _ & _ & _ & Hl').
    destruct Hl' as [[_ Hl'] | [(_ & Hh' & _) | (_ & _ & Hl')]];
      [congruence | | congruence].
    destruct Hh' as (b & c0 & Hb & Hg0 & Hobs).
    destruct (Hcells s b Hs) as (d0 & d1 & Hd0 & Hd1 & Hsw); [lia |].
    rewrite Hg0 in Hd0. injection Hd0 as <-.
    exists b, d1. split; [lia |]. split; [done |].
    destruct Hsw as (_ & _ & _ & _ & _ & _ & _ & _ & Hl).
    destruct Hl as [[_ Hl] | [(Hn & _) | (Hn & _)]]; done.
Qed.

Lemma free_cells_first_witness :
  exists g1,
    sweep sweep_params level_plane sweep_grid = Ok g1 /\
    forall s b' cell',
      grid_get g1 s b' = Ok cell' -> PolarCell.idx cell' = UNKNOWN ->
      exists b cell, (b < b')%Z /\ grid_get g1 s b = Ok cell /\
                     PolarCell.idx cell = OCCUPIED.
Proof.
  destruct (free_cells_first sweep_params level_plane sweep_grid)
    as (g1 & Hsweep & _ & Hunk).
  - simpl. lia.
  - split; [done |]. repeat constructor.
  - apply sweep_grid_ready.
  - simpl. lia.
  - simpl. lia.
  - by exists g1.
Defined.

(** X9.  What the sweep leaves alone.  The sweep changes no statistic of
    the binning ([count], [x_min], [y_min], [z_min], [z_max]); it sets the
    ground of every cell to the height of the plane at the representative
    point of the cell, and the height of every cell that holds a point to
    [z_max - ground]; the height of an empty cell is not assigned. *)
Theorem sweep_keeps_statistics (p : Parameters) (values : list R)
    (g0 : Grid) :
  (4 <= length values)%nat ->
  grid_dims g0 (grid_segments p) (grid_bins p) -> stats_ready g0 ->
  (0 <= grid_segments p)%Z -> (0 <= grid_bins p)%Z ->
  exists g1,
    sweep p values g0 = Ok g1 /\
    grid_dims g1 (grid_segments p) (grid_bins p) /\
    forall s b c0,
      grid_get g0 s b = Ok c0 ->
      exists c1,
        grid_get g1 s b = Ok c1 /\
        PolarCell.count c1 = PolarCell.count c0 /\
        PolarCell.x_min c1 = PolarCell.x_min c0 /\
        PolarCell.y_min c1 = PolarCell.y_min c0 /\
        PolarCell.z_min c1 = PolarCell.z_min c0 /\
        PolarCell.z_max c1 = PolarCell.z_max c0 /\
        PolarCell.ground c1 = Some (ground_at p values s b) /\
        (PolarCell.count c0 = 0%Z ->
         PolarCell.height c1 = PolarCell.height c0) /\
        (PolarCell.count c0 <> 0%Z ->
         exists zmax,
           PolarCell.z_max c0 = Some zmax /\
           PolarCell.height c1 = Some (zmax - ground_at p values s b)).
Proof.
  intros Hlen Hdims Hready Hsegs Hbins.
  destruct (sweep_spec p values g0 Hlen Hdims Hready Hsegs Hbins)
    as (g1 & Hsweep & Hdims1 & Hcells).
  exists g1. split; [done |]. split; [done |]. intros s b c0 Hget.
  destruct (grid_get_bound _ _ _ _ _ _ Hdims Hget) as [Hs Hb].
  destruct (Hcells s b Hs Hb) as (c0' & c1 & Hg0 & Hg1 & Hsw).
  rewrite Hget in Hg0. injection Hg0 as <-.
  exists c1. split; [done |].
  destruct Hsw as (? & ? & ? & ? & ? & ? & ? & ? & _). by repeat split.
Qed.

Lemma sweep_keeps_statistics_witness :
  exists g1,
    sweep sweep_params level_plane sweep_grid = Ok g1 /\
    exists c1, grid_get g1 0 1 = Ok c1 /\ PolarCell.count c1 = 1%Z.
Proof.
  destruct (sweep_keeps_statistics sweep_params level_plane sweep_grid)
    as (g1 & Hsweep & _ & Hcells).
  - simpl. lia.
  - split; [done |]. repeat constructor.
  - apply sweep_grid_ready.
  - simpl. lia.
  - simpl. lia.
  - exists g1. split; [done |].
    destruct (Hcells 0%Z 1%Z hit_cell eq_refl) as (c1 & Hg & Hc & _).
    by exists c1.
Defined.

Lemma swept_cell_unique (p : Parameters) (values : list R) (g : Grid)
    (s b : Z) (c0 c1 c1' : PolarCell.t) :
  swept_cell p values g s b c0 c1 -> swept_cell p values g s b c0 c1' ->
  c1 = c1'.
Proof.
  intros (Hc & Hx & Hy & Hzl & Hzh & Hg & Hh0 & Hh1 & Hl)
         (Hc' & Hx' & Hy' & Hzl' & Hzh' & Hg' & Hh0' & Hh1' & Hl').
  assert (Hh : PolarCell.height c1 = PolarCell.height c1').
  { destruct (decide (PolarCell.count c0 = 0%Z)) as [Hz | Hnz].
    - by rewrite Hh0, Hh0'.
    - destruct (Hh1 Hnz) as (z & Hz1 & ->).
      destruct (Hh1' Hnz) as (z' & Hz1' & ->). congruence. }
  assert (Hi : PolarCell.idx c1 = PolarCell.idx c1').
  { destruct Hl as [[Ho Hl] | [(Hn & Hhit & Hl) | (Hn & Hhit & Hl)]];
      destruct Hl' as [[Ho' Hl'] | [(Hn' & Hhit' & Hl') | (Hn' & Hhit' & Hl')]];
      try done; congruence. }
  destruct c1, c1'. simpl in *. congruence.
Qed.

(** X10.  Segments do not influence one another.  If two grids agree on
    segment [s], their sweeps (with the same plane) agree on segment [s],
    whatever the other segments hold. *)
Theorem segments_independent (p : Parameters) (values : list R)
    (g0 g0' : Grid) (s : Z) :
  (4 <= length values)%nat ->
  grid_dims g0 (grid_segments p) (grid_bins p) -> stats_ready g0 ->
  grid_dims g0' (grid_segments p) (grid_bins p) -> stats_ready g0' ->
  (0 <= grid_segments p)%Z -> (0 <= grid_bins p)%Z ->
  (forall b, grid_get g0' s b = grid_get g0 s b) ->
  exists g1 g1',
    sweep p values g0 = Ok g1 /\ sweep p values g0' = Ok g1' /\
    forall b cell, grid_get g1 s b = Ok cell -> grid_get g1' s b = Ok cell.
Proof.
  intros Hlen Hdims Hready Hdims' Hready' Hsegs Hbins Hsame.
  destruct (sweep_spec p values g0 Hlen Hdims Hready Hsegs Hbins)
    as (g1 & Hsweep & Hdims1 & Hcells).
  destruct (sweep_spec p values g0' Hlen Hdims' Hready' Hsegs Hbins)
    as (g1' & Hsweep' & Hdims1' & Hcells').
  exists g1, g1'. split; [done |]. split; [done |]. intros b cell Hget.
  destruct (grid_get_bound _ _ _ _ _ _ Hdims1 Hget) as [Hs Hb].
  destruct (Hcells s b Hs Hb) as (c0 & c1 & Hg0 & Hg1 & Hsw).
  destruct (Hcells' s b Hs Hb) as (c0' & c1' & Hg0' & Hg1' & Hsw').
  rewrite Hget in Hg1. injection Hg1 as <-.
  rewrite Hsame, Hg0 in Hg0'. injection Hg0' as <-.
  apply (swept_cell_ext p values g0 g0') in Hsw'; [| done].
  by rewrite (swept_cell_unique _ _ _ _ _ _ _ _ Hsw Hsw').
Qed.

Lemma two_rows_ready (r1 r2 : list PolarCell.t) :
  r1 ∈ [free_row; hit_row] -> r2 ∈ [free_row; hit_row] ->
  stats_ready [r1; r2].
Proof.
  intros H1 H2 s b cell (row & Hrow & Hcell)%bind_Ok Hcount.
  apply vec_get_Ok in Hrow as [_ Hrow]. apply vec_get_Ok in Hcell as [_ Hcell].
  assert (Hin : row ∈ [free_row; hit_row]).
  { destruct (Z.to_nat s) as [| [| n]]; simpl in Hrow; [| | done];
      by injection Hrow as <-. }
  apply elem_of_cons in Hin as [-> | Hin];
    [| apply list_elem_of_singleton in Hin as ->];
    destruct (Z.to_nat b) as [| [| [| [| n]]]]; try done;
    injection Hcell as <-; done.
Qed.

Lemma segments_independent_witness :
  exists g1 g1',
    sweep sweep_params2 level_plane [hit_row; free_row] = Ok g1 /\
    sweep sweep_params2 level_plane [hit_row; hit_row] = Ok g1' /\
    forall b cell, grid_get g1 0 b = Ok cell -> grid_get g1' 0 b = Ok cell.
Proof.
  apply (segments_independent sweep_params2 level_plane
           [hit_row; free_row] [hit_row; hit_row] 0).
  - simpl. lia.
  - split; [done |]. repeat constructor.
  - apply two_rows_ready; repeat constructor.
  - split; [done |]. repeat constructor.
  - apply two_rows_ready; repeat constructor.
  - simpl. lia.
  - simpl. lia.
  - done.
Defined.

(** ** Elevated and ground points *)

(** X11.  The partition loses and duplicates nothing.  Whenever the
    partition loop completes on a list of points, the elevated and the
    ground cloud together are a permutation of the list, each of them is a
    sublist of it in its order, their lengths add up to its length, and a
    point of the list is in exactly one of them.  The ground and the
    elevated cloud of a frame that completes are such a partition of its
    filtered cloud. *)
Theorem partition_splits (p : Parameters) (g : Grid)
    (pts gnd elv : list VPoint) :
  divide_points p g pts ([], []) = Ok (gnd, elv) ->
  (elv ++ gnd ≡ₚ pts /\
   (length elv + length gnd = length pts)%nat /\
   elv `sublist_of` pts /\ gnd `sublist_of` pts /\
   (forall pt, pt ∈ elv -> pt ∉ gnd) /\
   (forall pt, pt ∈ pts -> pt ∈ elv \/ pt ∈ gnd)) /\
  (forall a fuel segment this this' cloud warned,
     process_in a fuel segment this cloud = Ok (this', warned) ->
     divide_points (params_ this) (polar_grid_ this') (pcl_in_ this') ([], [])
     = Ok (pcl_ground_ this', pcl_elevated_ this')).
Proof.
  intros Hdiv. split.
  - apply divide_points_complete in Hdiv as [-> ->]. cbn [app].
    assert (Hperm : filter (point_elevated p g) pts
                    ++ filter (fun pt => ~ point_elevated p g pt) pts
                    ≡ₚ pts) by apply filter_app_complement.
    split; [done |].
    split; [by rewrite <- length_app, Hperm |].
    split; [apply sublist_filter |]. split; [apply sublist_filter |].
    split.
    + intros pt [He _]%list_elem_of_filter [Hn _]%list_elem_of_filter. done.
    + intros pt Hpt. rewrite !list_elem_of_filter.
      destruct (decide (point_elevated p g pt)); tauto.
  - intros a fuel segment this this' cloud warned Hproc.
    by destruct (process_stages a fuel segment this this' cloud warned Hproc)
      as (inl & g0 & gh & r & _ & _ & _ & _ & _ & Hd & _).
Qed.

Lemma partition_splits_witness :
  exists gnd elv,
    divide_points sweep_params scenario_grid [scenario_point] ([], [])
    = Ok (gnd, elv) /\
    elv ++ gnd ≡ₚ [scenario_point].
Proof.
  pose proof (divide_points_spec sweep_params scenario_grid [scenario_point]
                [] [] scenario_ready) as Hdiv.
  destruct (partition_splits _ _ _ _ _ Hdiv) as [(Hperm & _) _].
  eexists _, _. split; [exact Hdiv | exact Hperm].
Defined.

(** ** The constructor *)

(** X12.  The raster and the polar grid of the constructor, over the
    sizes the node holds, whatever they are within the range of an [int]:
    the loop of lines 91-99 completes on the zeroed raster of
    [width * height] cells; afterwards exactly the cells [(i, j)] with
    [i < j] or [i >= width - j] hold -1 and every other cell holds 0; the
    polar grid has [grid_segments] rows of [grid_bins] fresh cells. *)
Theorem constructor_raster (p : Parameters) :
  (0 <= grid_height p)%Z -> (0 <= grid_width p)%Z ->
  (grid_width p * grid_height p <= 2147483647)%Z ->
  exists d,
    init_occ_data p (replicate (Z.to_nat (grid_width p * grid_height p)) 0%Z)
    = Ok d /\
    length d = Z.to_nat (grid_width p * grid_height p) /\
    (forall j i, (0 <= j < grid_height p)%Z -> (0 <= i < grid_width p)%Z ->
       (boundary p j i -> d !! cell_index p j i = Some (-1)%Z) /\
       (~ boundary p j i -> d !! cell_index p j i = Some 0%Z)) /\
    grid_dims (new_polar_grid p) (grid_segments p) (grid_bins p) /\
    (forall s b, (0 <= s < grid_segments p)%Z -> (0 <= b < grid_bins p)%Z ->
                 grid_get (new_polar_grid p) s b = Ok PolarCell.fresh).
Proof.
  intros Hh Hw _.
  destruct (init_occ_data_any p Hh Hw
              (replicate (Z.to_nat (grid_width p * grid_height p)) 0%Z))
    as (d & Hinit & Hlen & Hset & Hkeep); [apply length_replicate |].
  exists d. split; [done |]. split; [done |]. split; [| split].
  - intros j i Hj Hi. split; [by apply Hset |]. intros Hnb.
    rewrite Hkeep.
    + apply lookup_replicate_2. unfold cell_index. nia.
    + intros j' i' Hj' Hi' Hb Heq.
      apply cell_index_inj in Heq as [-> ->]; [done | lia | lia | done | done].
  - apply new_polar_grid_dims.
  - intros s b Hs Hb. unfold grid_get, new_polar_grid, vec_get.
    destruct (decide (0 <= s)%Z); [| lia].
    rewrite lookup_replicate_2 by lia. cbn [mbind Res_bind].
    destruct (decide (0 <= b)%Z); [| lia].
    by rewrite lookup_replicate_2 by lia.
Qed.

Lemma constructor_raster_witness :
  exists d,
    init_occ_data sweep_params (replicate 8 0%Z) = Ok d /\
    d !! 4%nat = Some (-1)%Z /\ d !! 5%nat = Some 0%Z.
Proof.
  destruct (constructor_raster sweep_params) as (d & Hinit & _ & Hcells & _);
    [simpl; lia | simpl; lia | simpl; lia |].
  exists d. split; [exact Hinit |]. split.
  - apply (Hcells 1%Z 0%Z); [simpl; lia | simpl; lia |].
    unfold boundary. simpl. lia.
  - apply (Hcells 1%Z 1%Z); [simpl; lia | simpl; lia |].
    unfold boundary. simpl. lia.
Defined.

(** ** The ground plane candidates *)

Lemma ground_plane_cell_spec (p : Parameters) (cloud : list VPoint)
    (g : Grid) (i j : Z) (acc : list VPoint) :
  binned p cloud g ->
  (0 <= i < grid_segments p)%Z -> (0 <= j < grid_bins p)%Z ->
  exists acc',
    ground_plane_cell p g i j acc = Ok acc' /\
    (flat_cell p (routed p cloud i j) /\
     (exists lo, lowest (routed p cloud i j) lo /\ acc' = acc ++ [lo]) \/
     ~ flat_cell p (routed p cloud i j) /\ acc' = acc).
Proof.
  intros [_ Hcells] Hi Hj.
  destruct (Hcells i j Hi Hj) as (cell & Hget & Hc & _ & _ & _ & Hpts).
  unfold ground_plane_cell. rewrite Hget. cbn [mbind Res_bind].
  destruct (decide (PolarCell.count cell > 0)%Z) as [Hpos | Hzero].
  - destruct Hpts
      as (lo & zhi & Hlo & Hx & Hy & Hz & Hzm & (hi & Hhi & <-) & Hall).
    { intros Hnil. rewrite Hnil in Hc. simpl in Hc. lia. }
    rewrite Hzm, Hz. cbn [read mbind Res_bind].
    destruct (decide (pz hi - pz lo < grid_min_height p)) as [Hflat | Hflat].
    + rewrite Hx, Hy. cbn [read mbind Res_bind]. eexists. split; [done |].
      left. split.
      * split; [by intros Hnil; rewrite Hnil in Hlo; inversion Hlo |].
        intros q r Hq Hr.
        pose proof (Hall q Hq) as [? _]. pose proof (Hall r Hr) as [_ ?]. lra.
      * exists lo. split; [| by destruct lo].
        split; [done |]. intros q Hq. by apply Hall.
    + exists acc. split; [done |]. right. split; [| done].
      intros [_ Hspan]. apply Hflat. by apply Hspan.
  - exists acc. split; [done |]. right. split; [| done].
    intros [Hne _]. apply Hne. apply length_zero_iff_nil. lia.
Qed.

(** X13.  The candidates of the plane fit.  After the cloud has been
    binned the candidate loop completes, and its cloud holds the lowest
    point of every non-empty cell whose points span less than
    [grid_min_height] in [z], and nothing else: every candidate is such a
    point, hence a point of the cloud that passed the gate. *)
Theorem candidates_lowest_of_flat_cells (c : Config) (cloud : list VPoint) :
  valid_config c ->
  let p := make_params c in
  exists inl grid cands,
    bin_points p 0 cloud ([], new_polar_grid p) = Ok (inl, grid) /\
    ground_plane_candidates p grid = Ok cands /\
    Forall (fun lo =>
              exists s b, (0 <= s < grid_segments p)%Z /\
                          (0 <= b < grid_bins p)%Z /\
                          flat_cell p (routed p cloud s b) /\
                          lowest (routed p cloud s b) lo) cands /\
    (forall s b,
       (0 <= s < grid_segments p)%Z -> (0 <= b < grid_bins p)%Z ->
       flat_cell p (routed p cloud s b) ->
       exists lo, lo ∈ cands /\ lowest (routed p cloud s b) lo) /\
    cands ⊆ filter (passes_gate p) cloud.
Proof.
  intros Hvalid p.
  destruct (bin_points_spec c Hvalid cloud) as (inl & grid & Hb & Hbin & _).
  fold p in Hb, Hbin.
  pose (Q := fun lo : VPoint =>
    exists s b, (0 <= s < grid_segments p)%Z /\ (0 <= b < grid_bins p)%Z /\
                flat_cell p (routed p cloud s b) /\
                lowest (routed p cloud s b) lo).
  pose (Inv := fun (i j : Z) (acc : list VPoint) =>
    Forall Q acc /\
    forall s b,
      (0 <= s < grid_segments p)%Z -> (0 <= b < grid_bins p)%Z ->
      (s < i \/ s = i /\ b < j)%Z ->
      flat_cell p (routed p cloud s b) ->
      exists lo, lo ∈ acc /\ lowest (routed p cloud s b) lo).
  assert (Hsegs : (1 <= grid_segments p)%Z) by apply (segs_pos c Hvalid).
  pose proof (grid_bins_pos c Hvalid) as Hbins. fold p in Hbins.
  assert (Hrow : forall i acc,
             (0 <= i < grid_segments p)%Z -> Inv i 0%Z acc ->
             exists acc', for_range 0 (grid_bins p)
                            (ground_plane_cell p grid i) acc = Ok acc' /\
                          Inv (i + 1)%Z 0%Z acc').
  { intros i acc Hi H0.
    destruct (for_range_inv (Inv i) (ground_plane_cell p grid i)
                0 (grid_bins p) acc) as (acc' & Hl & HQ & Hall);
      [lia | done | |].
    - intros j acc1 Hj [HQ1 Hall1].
      destruct (ground_plane_cell_spec p cloud grid i j acc1 Hbin Hi Hj)
        as (acc2 & Hcell & [[Hflat (lo & Hlo & ->)] | [Hflat ->]]).
      + exists (acc1 ++ [lo]). split; [done |]. split.
        * apply Forall_app. split; [done |]. apply Forall_singleton.
          by exists i, j.
        * intros s b Hs Hbn Hlt Hf.
          destruct (decide (s = i /\ b = j)) as [[-> ->] | Hne].
          -- exists lo. split; [| done]. apply elem_of_app. right.
             by apply list_elem_of_singleton.
          -- destruct (Hall1 s b Hs Hbn) as (lo' & Hin & Hlo'); [lia | done |].
             exists lo'. split; [| done]. apply elem_of_app. by left.
      + exists acc1. split; [done |]. split; [done |].
        intros s b Hs Hbn Hlt Hf.
        destruct (decide (s = i /\ b = j)) as [[-> ->] | Hne]; [done |].
        apply Hall1; [done | done | lia | done].
    - exists acc'. split; [done |]. split; [done |].
      intros s b Hs Hbn Hlt Hf. apply Hall; [done | done | lia | done]. }
  destruct (for_range_inv (fun i => Inv i 0%Z)
              (fun i acc => for_range 0 (grid_bins p)
                              (ground_plane_cell p grid i) acc)
              0 (grid_segments p) []) as (cands & Hc & HQ & Hall);
    [lia | | by intros i acc Hi H0; apply Hrow |].
  { split; [done |]. intros s b Hs Hbn Hlt. lia. }
  exists inl, grid, cands. split; [done |]. split; [done |].
  split; [done |]. split.
  - intros s b Hs Hbn Hf. apply Hall; [done | done | lia | done].
  - intros lo Hin. rewrite Forall_forall in HQ.
    destruct (HQ lo Hin) as (s & b & _ & _ & _ & [Hlo _]).
    unfold routed in Hlo. by apply list_elem_of_filter in Hlo as [_ Hlo].
Qed.

Lemma candidates_lowest_of_flat_cells_witness :
  exists inl grid cands,
    bin_points (make_params config0) 0 cloud0
               ([], new_polar_grid (make_params config0)) = Ok (inl, grid) /\
    ground_plane_candidates (make_params config0) grid = Ok cands /\
    cands ⊆ filter (passes_gate (make_params config0)) cloud0.
Proof.
  destruct (candidates_lowest_of_flat_cells config0 cloud0 config0_valid)
    as (inl & grid & cands & Hb & Hc & _ & _ & Hsub).
  by exists inl, grid, cands.
Defined.

(** ** The voxel clouds *)

(** X15.  The ground voxel cloud of a frame that completes, whatever the
    parameters of the node and the format of the loop variables of the
    walk.  It has one voxel per raster cell of the footprint,
    [grid_height * (grid_height + 1)] in all when the raster is twice as
    wide as it is high; the voxel of cell [(i, j)] is at the position of
    the walk there, at the height of the fitted plane at the
    representative point of the backing cell; and every voxel of the cloud
    is at the height of the plane at the representative point of the polar
    cell of its own position. *)
Theorem ground_voxel_cloud (a : WalkArith) (fuel : nat)
    (segment : Segmentation) (this this' : SensorFusion)
    (cloud : list VPoint) (warned : bool) :
  process_in a fuel segment this cloud = Ok (this', warned) ->
  let p := params_ this in
  let values :=
    (segment (ransac_tolerance p) (ransac_iterations p)
             (pcl_ground_plane_ this')).2 in
  (grid_width p = (2 * grid_height p)%Z -> (0 <= grid_height p)%Z ->
   Z.of_nat (length (pcl_voxel_ground_ this'))
   = (grid_height p * (grid_height p + 1))%Z) /\
  (forall j i, in_footprint p j i ->
     mkVPoint (walk_R a (walk_x a j)) (walk_R a (walk_y a j i))
              (ground_at p values (backing_in a p j i).1
                         (backing_in a p j i).2)
     ∈ pcl_voxel_ground_ this') /\
  (forall q, q ∈ pcl_voxel_ground_ this' ->
     (0 <= (cell_of p q).1 < grid_segments p)%Z /\
     (0 <= (cell_of p q).2 < grid_bins p)%Z /\
     pz q = ground_at p values (cell_of p q).1 (cell_of p q).2).
Proof.
  intros Hproc p values.
  destruct (process_raster a fuel segment this this' cloud warned Hproc)
    as (Hw & Hcount & Hvg & _).
  destruct (process_complete a fuel segment this this' cloud warned Hproc)
    as (g0 & _ & _ & Hswept & _).
  fold p in Hw, Hcount, Hvg, Hswept. fold values in Hswept.
  split; [done |]. split.
  - intros j i Hf.
    destruct (Hw j i Hf) as (cell & gr & Hget & Hgr & Hin & _).
    destruct (swept_get _ _ _ _ _ _ _ Hswept Hget) as (_ & _ & Hgr' & _).
    assert (gr = ground_at p values (backing_in a p j i).1
                           (backing_in a p j i).2) as <- by congruence.
    done.
  - intros q Hq. destruct (Hvg q Hq) as (cell & Hget & Hgr).
    destruct (swept_get _ _ _ _ _ _ _ Hswept Hget) as (Hs & Hb & Hgr' & _).
    split; [done |]. split; [done |]. congruence.
Qed.

Lemma ground_voxel_cloud_witness :
  exists fuel this' warned,
    process_in (walk_f32 two_f32 one_f32) fuel plane0 node0 cloud0
    = Ok (this', warned) /\
    length (pcl_voxel_ground_ this') = 6%nat.
Proof.
  destruct (frame0_completes_f32 cloud0) as (fuel & this' & warned & Hproc).
  destruct config0_sizes as [Hh Hw].
  destruct (ground_voxel_cloud _ _ _ _ _ _ _ Hproc) as (Hcount & _).
  exists fuel, this', warned. split; [done |].
  cbn [params_ node0] in Hcount. rewrite Hh, Hw in Hcount.
  specialize (Hcount eq_refl). lia.
Defined.

(** X16.  The elevated voxel cloud of a frame that completes, whatever
    the parameters of the node and the format of the loop variables of the
    walk.  Every voxel of the cloud lies over an OCCUPIED polar cell, the
    cell of its own position: below the top [z_max] of the cell, which is
    more than [grid_min_height] above the plane, and (the cell size not
    being negative) not below the plane at the representative point of the
    cell.  Over every raster cell of the footprint whose backing cell is
    OCCUPIED the cloud has the foot of the column, the voxel at the
    position of the walk at the height of the plane (the threshold
    [grid_min_height] not being negative).  And when no cell of the grid
    is OCCUPIED the cloud is empty. *)
Theorem elevated_voxel_cloud (a : WalkArith) (fuel : nat)
    (segment : Segmentation) (this this' : SensorFusion)
    (cloud : list VPoint) (warned : bool) :
  process_in a fuel segment this cloud = Ok (this', warned) ->
  let p := params_ this in
  let values :=
    (segment (ransac_tolerance p) (ransac_iterations p)
             (pcl_ground_plane_ this')).2 in
  (forall q, q ∈ pcl_voxel_elevated_ this' ->
     exists cell zmax,
       grid_get (polar_grid_ this') (cell_of p q).1 (cell_of p q).2
       = Ok cell /\
       PolarCell.idx cell = OCCUPIED /\
       PolarCell.z_max cell = Some zmax /\
       pz q < zmax /\
       zmax - ground_at p values (cell_of p q).1 (cell_of p q).2
       > grid_min_height p /\
       (0 <= grid_cell_size p ->
        ground_at p values (cell_of p q).1 (cell_of p q).2 <= pz q)) /\
  (forall j i cell,
     in_footprint p j i -> 0 <= grid_min_height p ->
     grid_get (polar_grid_ this') (backing_in a p j i).1
              (backing_in a p j i).2 = Ok cell ->
     PolarCell.idx cell = OCCUPIED ->
     mkVPoint (walk_R a (walk_x a j)) (walk_R a (walk_y a j i))
              (ground_at p values (backing_in a p j i).1
                         (backing_in a p j i).2)
     ∈ pcl_voxel_elevated_ this') /\
  ((forall s b cell, grid_get (polar_grid_ this') s b = Ok cell ->
                     PolarCell.idx cell <> OCCUPIED) ->
   pcl_voxel_elevated_ this' = []).
Proof.
  intros Hproc p values.
  destruct (process_raster a fuel segment this this' cloud warned Hproc)
    as (Hw & _ & _ & Hve).
  destruct (process_complete a fuel segment this this' cloud warned Hproc)
    as (g0 & _ & _ & Hswept & _).
  fold p in Hw, Hve, Hswept. fold values in Hswept.
  assert (Hall : forall q, q ∈ pcl_voxel_elevated_ this' ->
            exists cell zmax,
              grid_get (polar_grid_ this') (cell_of p q).1 (cell_of p q).2
              = Ok cell /\
              PolarCell.idx cell = OCCUPIED /\
              PolarCell.z_max cell = Some zmax /\
              pz q < zmax /\
              zmax - ground_at p values (cell_of p q).1 (cell_of p q).2
              > grid_min_height p /\
              (0 <= grid_cell_size p ->
               ground_at p values (cell_of p q).1 (cell_of p q).2 <= pz q)).
  { intros q Hq.
    destruct (Hve q Hq)
      as (cell & gr & zmax & Hget & Hl1 & Hl2 & Hgr & Hz & Hlt & Hge).
    destruct (swept_get _ _ _ _ _ _ _ Hswept Hget)
      as (_ & _ & Hgr' & Hl & c0 & _ & Hz0 & Hocc).
    assert (gr = ground_at p values (cell_of p q).1 (cell_of p q).2)
      as -> by congruence.
    assert (Hlabel : PolarCell.idx cell = OCCUPIED) by tauto.
    exists cell, zmax. do 4 (split; [done |]). split; [| done].
    apply Hocc in Hlabel as (_ & zmax' & Hz' & Hhigh).
    rewrite Hz0, Hz' in Hz. by injection Hz as <-. }
  split; [done |]. split.
  - intros j i cell Hf Hmin Hget Hlabel.
    destruct (Hw j i Hf) as (cell' & gr & Hget' & Hgr & _ & _ & Hfoot).
    rewrite Hget in Hget'. injection Hget' as <-.
    destruct (swept_get _ _ _ _ _ _ _ Hswept Hget)
      as (_ & _ & Hgr' & _ & c0 & _ & Hz0 & Hocc).
    assert (gr = ground_at p values (backing_in a p j i).1
                           (backing_in a p j i).2) as -> by congruence.
    destruct Hfoot as (zmax & Hz & Hin); [congruence | congruence |].
    apply Hin. apply Hocc in Hlabel as (_ & zmax' & Hz' & Hhigh).
    rewrite Hz0, Hz' in Hz. injection Hz as <-. lra.
  - intros Hnone. destruct (pcl_voxel_elevated_ this') as [| q ve]; [done |].
    destruct (Hall q) as (cell & zmax & Hget & Hlabel & _);
      [apply list_elem_of_here |].
    by destruct (Hnone _ _ _ Hget).
Qed.

(** In the frame of [cloud0] the polar cell [(1, 1)], which holds the two
    points ahead of the sensor, is OCCUPIED; it backs raster cell
    [(2, 0)]. *)
Lemma plane0_ground (s b : Z) :
  ground_at (make_params config0) [0; 0; 1; 173 / 100] s b = - (173 / 100).
Proof.
  unfold ground_at. destruct (fromPolarCellToVeloCoords _ s b) as [x y].
  cbn [nth]. field.
Qed.

Lemma frame0_occupied (a : WalkArith) (fuel : nat) (this' : SensorFusion)
    (warned : bool) :
  process_in a fuel plane0 node0 cloud0 = Ok (this', warned) ->
  exists cell, grid_get (polar_grid_ this') 1 1 = Ok cell /\
               PolarCell.idx cell = OCCUPIED.
Proof.
  intros Hproc.
  destruct (process_complete a fuel plane0 node0 this' cloud0 warned Hproc)
    as (g0 & [_ Hbin] & _ & [_ Hsw] & _).
  cbn [params_ node0 plane0 snd] in Hbin, Hsw.
  assert (Hbins : (0 <= 1 < grid_bins (make_params config0))%Z).
  { rewrite (grid_bins_floor config0 config0_valid).
    assert (2 <= Zfloor (cfg_grid_max_range config0 * sqrt 2
                         / cfg_grid_cell_size config0))%Z; [| lia].
    apply Zfloor_lub. simpl. pose proof sqrt2_ge_1. lra. }
  destruct (Hbin 1%Z 1%Z) as (c0 & Hget0 & Hcount & _ & _ & _ & Hstats);
    [simpl; lia | done |].
  destruct (Hsw 1%Z 1%Z) as (c0' & c1 & Hget0' & Hget1 & Hcell);
    [simpl; lia | done |].
  rewrite Hget0 in Hget0'. injection Hget0' as <-.
  destruct cloud0_routed as [_ Hhigh].
  assert (Hne : routed (make_params config0) cloud0 1 1 <> []).
  { intros Hnil. rewrite Hnil in Hhigh. by apply elem_of_nil in Hhigh. }
  destruct (Hstats Hne) as (lo & zhi & _ & _ & _ & _ & Hzmax & _ & Hall).
  pose proof (Hall _ Hhigh) as [_ Hz]. cbn [pz] in Hz.
  assert (Hob : obstacle (make_params config0) [0; 0; 1; 173 / 100] 1 1 c0).
  { split.
    - rewrite Hcount. destruct (routed _ _ _ _); [done | simpl; lia].
    - exists zhi. split; [done |]. rewrite plane0_ground. simpl. lra. }
  exists c1. split; [done |].
  destruct Hcell as (_ & _ & _ & _ & _ & _ & _ & _ & Hlabel).
  destruct Hlabel as [[_ Hl] | [(Hno & _) | (Hno & _)]]; done.
Qed.

Lemma config0_backing :
  backing_in (walk_exact (make_params config0)) (make_params config0) 0 2
  = (1%Z, 1%Z).
Proof.
  unfold backing_in, walk_y, walk_x.
  change (Z.to_nat 0) with 0%nat. change (Z.to_nat (2 - 0)) with 2%nat.
  cbn [Nat.iter nat_rect walk_R walk_start walk_next walk_exact make_params
       grid_max_range grid_cell_size config0 cfg_grid_max_range
       cfg_grid_cell_size].
  replace (2 - 1 / 2) with (3 / 2) by lra.
  replace (3 / 2 - 1 - 1) with (- (1 / 2)) by lra.
  pose proof PI_RGT_0 as Hpi.
  unfold fromVeloCoordsToPolarCell.
  destruct (decide (3 / 2 = - - (1 / 2))) as [Heq | _]; [lra |].
  rewrite atan2_pos by lra.
  replace (- (1 / 2) / (3 / 2)) with (- (1 / 3)) by lra.
  rewrite atan_opp, Ropp_involutive.
  assert (Hat : 0 < atan (1 / 3) < PI / 4).
  { split.
    - rewrite <- atan_0. apply atan_increasing. lra.
    - rewrite <- atan_1. apply atan_increasing. lra. }
  change (lidar_opening_angle (make_params config0)) with (PI / 4).
  change (inv_angular_res (make_params config0)) with (IZR (2 * 2) / PI).
  change (inv_radial_res (make_params config0)) with (1 / 1).
  f_equal.
  - rewrite trunc_nonneg; [apply Zfloor_eq |].
    + rewrite mult_IZR.
      replace ((atan (1 / 3) + PI / 4) * (2 * 2 / PI))
        with (1 + atan (1 / 3) / (PI / 4)) by (field; lra).
      assert (0 < atan (1 / 3) / (PI / 4) < 1); [| simpl; lra].
      split; [apply Rdiv_lt_0_compat; lra |].
      apply (Rmult_lt_reg_r (PI / 4)); [lra |].
      replace (atan (1 / 3) / (PI / 4) * (PI / 4)) with (atan (1 / 3))
        by (field; lra).
      lra.
    + apply Rmult_le_pos; [lra |]. rewrite mult_IZR.
      apply Rlt_le, Rdiv_lt_0_compat; lra.
  - replace (3 / 2 * (3 / 2) + - (1 / 2) * - (1 / 2)) with (5 / 2) by lra.
    replace (sqrt (5 / 2) * (1 / 1)) with (sqrt (5 / 2)) by lra.
    assert (Hsq : 1 <= sqrt (5 / 2) < 2).
    { split.
      - rewrite <- sqrt_1 at 1. apply sqrt_le_1_alt. lra.
      - replace 2 with (sqrt 4) at 2.
        + apply sqrt_lt_1_alt. lra.
        + replace 4 with (2 * 2) by lra. apply sqrt_square. lra. }
    rewrite trunc_nonneg by lra. apply Zfloor_eq. simpl. lra.
Qed.

Lemma config0_backing_f32 :
  backing_in (walk_f32 two_f32 one_f32) (make_params config0) 0 2
  = (1%Z, 1%Z).
Proof.
  destruct config0_walk_f32 as [Hx Hy]. destruct config0_sizes as [Hh Hw].
  unfold backing_in. rewrite Hx, Hy by lia. apply config0_backing.
Qed.

Lemma elevated_voxel_cloud_witness :
  exists fuel this' warned,
    process_in (walk_f32 two_f32 one_f32) fuel plane0 node0 cloud0
    = Ok (this', warned) /\
    mkVPoint (3 / 2) (- (1 / 2)) (- (173 / 100))
    ∈ pcl_voxel_elevated_ this'.
Proof.
  destruct (frame0_completes_f32 cloud0) as (fuel & this' & warned & Hproc).
  destruct (frame0_occupied _ _ _ _ Hproc) as (cell & Hget & Hlabel).
  destruct config0_sizes as [Hh Hw].
  destruct (elevated_voxel_cloud _ _ _ _ _ _ _ Hproc) as (_ & Hfoot & _).
  exists fuel, this', warned. split; [done |].
  specialize (Hfoot 0%Z 2%Z cell). cbn [params_ node0 plane0 snd] in Hfoot.
  rewrite config0_backing_f32, plane0_ground in Hfoot. cbn [fst snd] in Hfoot.
  replace (3 / 2) with (walk_R (walk_f32 two_f32 one_f32)
                          (walk_x (walk_f32 two_f32 one_f32) 0)).
  - replace (- (1 / 2)) with (walk_R (walk_f32 two_f32 one_f32)
                                (walk_y (walk_f32 two_f32 one_f32) 0 2)).
    + apply Hfoot; [unfold in_footprint; lia | simpl; lra | done | done].
    + cbn [walk_R walk_f32]. eval_floats. lra.
  - cbn [walk_R walk_f32]. eval_floats. lra.
Defined.

(** ** The frame as a whole *)

(** X22.  The raster of a frame that completes, whatever the parameters
    of the node and the format of the loop variables of the walk: every
    raster cell [(i, j)] of the footprint has a backing polar cell in the
    grid, the cell of the position the walk has there, and holds 0 iff
    that cell is FREE, 50 iff it is UNKNOWN and 100 iff it is OCCUPIED;
    it does not hold -1. *)
Theorem raster_values_of_labels (a : WalkArith) (fuel : nat)
    (segment : Segmentation) (this this' : SensorFusion)
    (cloud : list VPoint) (warned : bool) (j i : Z) :
  process_in a fuel segment this cloud = Ok (this', warned) ->
  in_footprint (params_ this) j i ->
  let p := params_ this in
  let v := data (occ_grid_ this') !! cell_index p j i in
  exists cell,
    grid_get (polar_grid_ this') (backing_in a p j i).1
             (backing_in a p j i).2 = Ok cell /\
    (0 <= (backing_in a p j i).1 < grid_segments p)%Z /\
    (0 <= (backing_in a p j i).2 < grid_bins p)%Z /\
    (v = Some 0%Z <-> PolarCell.idx cell = FREE) /\
    (v = Some 50%Z <-> PolarCell.idx cell = UNKNOWN) /\
    (v = Some 100%Z <-> PolarCell.idx cell = OCCUPIED) /\
    v <> Some (-1)%Z.
Proof.
  intros Hproc Hf p v.
  destruct (process_raster a fuel segment this this' cloud warned Hproc)
    as (Hw & _).
  destruct (process_complete a fuel segment this this' cloud warned Hproc)
    as (g0 & _ & _ & Hswept & _).
  destruct (Hw j i Hf) as (cell & gr & Hget & _ & _ & Hv & _).
  fold p in Hget, Hv, Hswept. fold v in Hv.
  destruct (swept_get _ _ _ _ _ _ _ Hswept Hget) as (Hs & Hb & _ & Hl & _).
  exists cell. do 3 (split; [done |]). rewrite Hv.
  destruct Hl as [-> | [-> | ->]]; simpl; repeat split; congruence.
Qed.

Lemma raster_values_of_labels_witness :
  exists fuel this' warned cell,
    process_in (walk_f32 two_f32 one_f32) fuel plane0 node0 cloud0
    = Ok (this', warned) /\
    grid_get (polar_grid_ this')
      (backing_in (walk_f32 two_f32 one_f32) (make_params config0) 0 0).1
      (backing_in (walk_f32 two_f32 one_f32) (make_params config0) 0 0).2
    = Ok cell /\
    data (occ_grid_ this') !! cell_index (make_params config0) 0 0
    <> Some (-1)%Z.
Proof.
  destruct (frame0_completes_f32 cloud0) as (fuel & this' & warned & Hproc).
  destruct config0_sizes as [Hh Hw].
  destruct (raster_values_of_labels _ _ _ _ _ _ _ 0 0 Hproc)
    as (cell & Hget & _ & _ & _ & _ & _ & Hv).
  { unfold in_footprint. cbn [params_ node0]. lia. }
  by exists fuel, this', warned, cell.
Defined.

(** X17.  The ground height check (lines 253-260), given the four
    coefficients of a plane that is not vertical: the height is [-d / c],
    and the warning is raised exactly when the fit has no inlier or the
    height is below -2 or above -1.5.  In a frame that completes the
    inliers of the fit serve this warning only: a fit with the same
    coefficients leaves the same node, whatever its inliers. *)
Theorem inliers_only_warn (inliers : list Z) (values : list R) :
  (4 <= length values)%nat -> nth 2 values 0 <> 0 ->
  let gh := - nth 3 values 0 / nth 2 values 0 in
  (exists warned,
     ground_height_check inliers values = Ok (gh, warned) /\
     (warned = true <-> inliers = [] \/ gh < -2 \/ gh > -1.5)) /\
  (forall a fuel segment segment' this this' cloud warned,
     process_in a fuel segment this cloud = Ok (this', warned) ->
     let p := params_ this in
     let fit :=
       segment (ransac_tolerance p) (ransac_iterations p)
               (pcl_ground_plane_ this') in
     let h := - nth 3 fit.2 0 / nth 2 fit.2 0 in
     (warned = true <-> fit.1 = [] \/ h < -2 \/ h > -1.5) /\
     ((forall tol it cands,
         (segment' tol it cands).2 = (segment tol it cands).2) ->
      exists warned',
        process_in a fuel segment' this cloud = Ok (this', warned'))).
Proof.
  intros Hlen _ gh.
  assert (Hcheck : forall inl vals,
            (4 <= length vals)%nat ->
            exists warned,
              ground_height_check inl vals
              = Ok (- nth 3 vals 0 / nth 2 vals 0, warned) /\
              (warned = true <->
               inl = [] \/ - nth 3 vals 0 / nth 2 vals 0 < -2 \/
               - nth 3 vals 0 / nth 2 vals 0 > -1.5)).
  { intros inl vals Hl. unfold ground_height_check.
    assert (H2 : vec_get vals 2 = Ok (nth 2 vals 0))
      by (apply (values_get vals 2); lia).
    assert (H3 : vec_get vals 3 = Ok (nth 3 vals 0))
      by (apply (values_get vals 3); lia).
    rewrite H3, H2. cbn [mbind Res_bind]. eexists. split; [done |].
    rewrite !orb_true_iff, !bool_decide_eq_true. tauto. }
  split; [by apply Hcheck |].
  intros a fuel segment segment' this this' cloud warned Hproc p fit h.
  split.
  - destruct (process_stages a fuel segment this this' cloud warned Hproc)
      as (inl & g0 & gh' & r & _ & _ & _ & Hc & _).
    destruct (process_complete a fuel segment this this' cloud warned Hproc)
      as (g0' & _ & Hl & _).
    fold p in Hc, Hl. fold fit in Hc, Hl.
    destruct (Hcheck fit.1 fit.2 Hl) as (w & Hc' & Hw).
    rewrite Hc in Hc'. by injection Hc' as _ ->.
  - intros Heq.
    by apply (process_values_only a fuel segment segment' this this' cloud
                warned).
Qed.

Lemma inliers_only_warn_witness :
  exists warned,
    ground_height_check [] [0; 0; 1; 173 / 100]
    = Ok (- (173 / 100) / 1, warned) /\
    warned = true.
Proof.
  destruct (inliers_only_warn [] [0; 0; 1; 173 / 100])
    as [(warned & Hcheck & Hw) _]; [simpl; lia | simpl; lra |].
  exists warned. split; [exact Hcheck |]. apply Hw. by left.
Defined.

(** X18.  A frame without obstacles, when it completes, whatever the
    parameters of the node and the format of the loop variables of the
    walk.  When no point that passes the gate is more than
    [grid_min_height] above the fitted plane at its cell, the frame labels
    every polar cell FREE, writes 0 to every raster cell of the footprint,
    puts every filtered point in the ground cloud and none in the elevated
    cloud, and builds no elevated voxel. *)
Theorem frame_without_obstacles (a : WalkArith) (fuel : nat)
    (segment : Segmentation) (this this' : SensorFusion)
    (cloud : list VPoint) (warned : bool) :
  process_in a fuel segment this cloud = Ok (this', warned) ->
  let p := params_ this in
  let values :=
    (segment (ransac_tolerance p) (ransac_iterations p)
             (pcl_ground_plane_ this')).2 in
  (forall pt,
     pt ∈ filter (passes_gate p) cloud ->
     pz pt - ground_at p values (cell_of p pt).1 (cell_of p pt).2
     <= grid_min_height p) ->
  (forall s b cell, grid_get (polar_grid_ this') s b = Ok cell ->
                    PolarCell.idx cell = FREE) /\
  pcl_elevated_ this' = [] /\
  pcl_ground_ this' = filter (passes_gate p) cloud /\
  (forall j i, in_footprint p j i ->
               data (occ_grid_ this') !! cell_index p j i = Some 0%Z) /\
  pcl_voxel_elevated_ this' = [].
Proof.
  intros Hproc p values Hlow.
  destruct (process_complete a fuel segment this this' cloud warned Hproc)
    as (g0 & [_ Hbin] & _ & Hswept & Hin & Hready & Hgnd & Helv).
  fold p in Hbin, Hswept, Hin, Hready, Hgnd, Helv. fold values in Hswept.
  pose proof Hswept as [Hdims Hcells].
  assert (Hnone : forall s b c0,
             (0 <= s < grid_segments p)%Z -> (0 <= b < grid_bins p)%Z ->
             grid_get g0 s b = Ok c0 -> ~ obstacle p values s b c0).
  { intros s b c0 Hs Hb Hget (Hcount & zmax & Hz & Hhigh).
    destruct (Hbin s b Hs Hb) as (cell & Hget' & Hc & _ & _ & _ & Hpts).
    rewrite Hget in Hget'. injection Hget' as <-.
    destruct Hpts as (lo & zhi & _ & _ & _ & _ & Hzm & (hi & Hhi & <-) & _).
    { intros Hnil. rewrite Hnil in Hc. simpl in Hc. lia. }
    rewrite Hz in Hzm. injection Hzm as ->.
    unfold routed in Hhi. apply list_elem_of_filter in Hhi as [Hcell Hhi].
    pose proof (Hlow hi Hhi) as Hle.
    rewrite Hcell in Hle. cbn [fst snd] in Hle. lra. }
  assert (Hfree : forall s b cell,
             grid_get (polar_grid_ this') s b = Ok cell ->
             PolarCell.idx cell = FREE).
  { intros s b cell Hget.
    destruct (grid_get_bound _ _ _ _ _ _ Hdims Hget) as [Hs Hb].
    destruct (Hcells s b Hs Hb) as (c0 & c1 & Hget0 & Hget1 & Hsw).
    rewrite Hget in Hget1. injection Hget1 as <-.
    destruct Hsw as (_ & _ & _ & _ & _ & _ & _ & _ & Hlabel).
    destruct Hlabel as [[Hob _] | [(_ & Hhit & _) | (_ & _ & Hl)]].
    - by destruct (Hnone s b c0 Hs Hb Hget0).
    - destruct Hhit as (b' & cell' & Hb' & Hget' & Hob).
      destruct (Hnone s b' cell'); [done | lia | done | done].
    - done. }
  assert (Hnot : Forall (fun pt => ~ point_elevated p (polar_grid_ this') pt)
                        (pcl_in_ this')).
  { rewrite Forall_forall in Hready. apply Forall_forall. intros pt Hpt.
    destruct (Hready pt Hpt) as (cell & gr & h & Hs & Hb & Hget & Hc & _ & Hh).
    destruct (Hcells _ _ Hs Hb) as (c0 & c1 & Hget0 & Hget1 & Hsw).
    rewrite Hget in Hget1. injection Hget1 as <-.
    pose proof (Hnone _ _ c0 Hs Hb Hget0) as Hno.
    destruct Hsw as (Hcount & _ & _ & _ & _ & Hgr & _ & Hheight & _).
    destruct Hheight as (zmax & Hz & Hh'); [lia |].
    unfold point_elevated. rewrite Hget, Hgr, Hh'.
    intros [_ Hhigh]. apply Hno. split; [lia |]. by exists zmax. }
  destruct (process_raster a fuel segment this this' cloud warned Hproc)
    as (Hw & _ & _ & Hve).
  fold p in Hw, Hve.
  split; [done |]. split; [| split; [| split]].
  - rewrite Helv. by apply filter_Forall_nil.
  - rewrite Hgnd, <- Hin. by apply filter_Forall_id.
  - intros j i Hf.
    destruct (Hw j i Hf) as (cell & gr & Hget & _ & _ & Hd & _).
    by rewrite Hd, (Hfree _ _ _ Hget).
  - destruct (pcl_voxel_elevated_ this') as [| q ve]; [done |].
    destruct (Hve q) as (cell & gr & zmax & Hget & Hl1 & _);
      [apply list_elem_of_here |].
    by destruct Hl1; apply (Hfree _ _ _ Hget).
Qed.

Lemma frame_without_obstacles_witness :
  exists fuel this' warned,
    process_in (walk_f32 two_f32 one_f32) fuel plane0 node0 cloud1
    = Ok (this', warned) /\
    pcl_elevated_ this' = [] /\
    data (occ_grid_ this') !! cell_index (make_params config0) 0 0
    = Some 0%Z.
Proof.
  destruct (frame0_completes_f32 cloud1) as (fuel & this' & warned & Hproc).
  destruct config0_sizes as [Hh Hw].
  destruct (frame_without_obstacles _ _ _ _ _ _ _ Hproc)
    as (_ & Helv & _ & Hd & _).
  - intros pt [_ Hpt]%list_elem_of_filter.
    apply list_elem_of_singleton in Hpt as ->.
    cbn [params_ node0 plane0 snd]. rewrite plane0_ground. simpl. lra.
  - exists fuel, this', warned. split; [done |]. split; [done |].
    apply Hd. unfold in_footprint. cbn [params_ node0]. lia.
Defined.

(** ** The field of view *)

(** The angle test of the gate, without the arc tangent: the point lies
    strictly inside the quarter plane ahead of the sensor, or has neither
    [x] nor [y]. *)
Lemma angle_gate_wedge (x y : R) :
  Rabs (atan2 y x) < PI / 4 <->
  0 < x /\ - x < y < x \/ x = 0 /\ y = 0.
Proof.
  pose proof PI_RGT_0 as Hpi.
  assert (Hone : atan 1 = PI / 4) by apply atan_1.
  assert (Hmone : atan (- 1) = - (PI / 4)).
  { replace (- 1) with (Ropp 1) by lra. rewrite atan_opp. lra. }
  unfold atan2.
  destruct (decide (0 < x)) as [Hx | Hx].
  - assert (Hq : y / x * x = y) by (field; lra).
    split.
    + intros [Hlo Hhi]%Rabs_def2. left. split; [done |].
      assert (Ht : - 1 < y / x < 1).
      { split.
        - destruct (Rlt_le_dec (- 1) (y / x)) as [? | Hle]; [done |].
          destruct Hle as [Hlt | Heq].
          + apply atan_increasing in Hlt. lra.
          + rewrite Heq in Hhi. lra.
        - destruct (Rlt_le_dec (y / x) 1) as [? | Hle]; [done |].
          destruct Hle as [Hlt | Heq].
          + apply atan_increasing in Hlt. lra.
          + rewrite <- Heq in Hlo. lra. }
      nra.
    + intros [[_ Hy] | [-> _]]; [| lra].
      assert (Ht : - 1 < y / x < 1).
      { split.
        - apply Rmult_lt_reg_r with x; [done |]. rewrite Hq. lra.
        - apply Rmult_lt_reg_r with x; [done |]. rewrite Hq. lra. }
      destruct Ht as [Hlo%atan_increasing Hhi%atan_increasing].
      apply Rabs_def1; lra.
  - destruct (decide (x < 0)) as [Hx' | Hx'].
    + pose proof (atan_bound (y / x)) as Hb.
      assert (H0 : atan 0 = 0) by apply atan_0.
      split; [| intros [[? _] | [? _]]; lra].
      intros [Hlo Hhi]%Rabs_def2.
      destruct (decide (y < 0)) as [Hy | Hy]; [lra |].
      assert (Hle : y / x <= 0).
      { apply Rmult_le_reg_r with (- x); [lra |].
        replace (y / x * - x) with (- y) by (field; lra). lra. }
      destruct Hle as [Hlt%atan_increasing | Heq]; [lra |].
      rewrite Heq in Hlo. lra.
    + assert (Hx0 : x = 0) by lra.
      destruct (decide (0 < y)) as [Hy | Hy].
      * split; [| intros [[? _] | [_ ?]]; lra].
        intros [Hlo Hhi]%Rabs_def2. lra.
      * destruct (decide (y < 0)) as [Hy' | Hy'].
        -- split; [| intros [[? _] | [_ ?]]; lra].
           intros [Hlo Hhi]%Rabs_def2. lra.
        -- split; [intros _; right; lra |].
           intros _. rewrite Rabs_R0. lra.
Qed.

(** X21.  The field of view is a quarter plane.  The binning loop keeps
    exactly the points of the cloud with [|y| < x] (or with neither [x]
    nor [y]), a range strictly between the two range limits and a height
    above the minimum; when the minimum range is not negative every
    filtered point is strictly ahead of the sensor. *)
Theorem filtered_ahead (c : Config) (cloud : list VPoint) :
  valid_config c ->
  let p := make_params c in
  exists inl grid,
    bin_points p 0 cloud ([], new_polar_grid p) = Ok (inl, grid) /\
    (forall pt,
       pt ∈ extract_indices cloud inl <->
       pt ∈ cloud /\
       (0 < px pt /\ - px pt < py pt < px pt \/ px pt = 0 /\ py pt = 0) /\
       grid_min_range p < sqrt (px pt * px pt + py pt * py pt)
                        < grid_max_range p /\
       pz pt > lidar_min_height p) /\
    (0 <= grid_min_range p ->
     forall pt, pt ∈ extract_indices cloud inl ->
                0 < px pt /\ Rabs (py pt) < px pt).
Proof.
  intros Hvalid p.
  destruct (bin_points_spec c Hvalid cloud) as (inl & grid & Hb & _ & Hex).
  fold p in Hb, Hex.
  assert (Hmem : forall pt,
    pt ∈ extract_indices cloud inl <->
    pt ∈ cloud /\
    (0 < px pt /\ - px pt < py pt < px pt \/ px pt = 0 /\ py pt = 0) /\
    grid_min_range p < sqrt (px pt * px pt + py pt * py pt)
                     < grid_max_range p /\
    pz pt > lidar_min_height p).
  { intros pt. rewrite Hex, list_elem_of_filter. unfold passes_gate.
    change (lidar_opening_angle p) with (PI / 4).
    rewrite angle_gate_wedge. tauto. }
  exists inl, grid. split; [done |]. split; [done |].
  intros Hmin pt Hpt. apply Hmem in Hpt as (_ & Hwedge & [Hr _] & _).
  destruct Hwedge as [[Hx Hy] | [Hx Hy]].
  - split; [done |]. apply Rabs_def1; lra.
  - rewrite Hx, Hy in Hr.
    replace (0 * 0 + 0 * 0) with 0 in Hr by ring. rewrite sqrt_0 in Hr. lra.
Qed.

Lemma filtered_ahead_witness :
  exists inl grid,
    bin_points (make_params config0) 0 cloud0
               ([], new_polar_grid (make_params config0)) = Ok (inl, grid) /\
    mkVPoint (-1) 0 0 ∉ extract_indices cloud0 inl.
Proof.
  destruct (filtered_ahead config0 cloud0 config0_valid)
    as (inl & grid & Hb & _ & Hahead).
  exists inl, grid. split; [done |]. intros Hpt.
  apply Hahead in Hpt as [Hx _]; simpl in *; lra.
Defined.
